(** * AB_testing: variant assignment and statistics, embedded and verified

    Shallow embedding of [ab_testing/experiment.py] and
    [ab_testing/statistics.py], of the traffic loops that the tests and
    examples run over them, and of the t-test report of [Scr/AB_testing.py].

    - Python [int] is [Z]; Python [float] is an instance of the interface
      [PyNum] below.  The instance [binary64] (the kernel's IEEE 754 binary64
      numbers, specified by [FloatAxioms]) is the arithmetic the interpreter
      runs; the instance [exact] (real numbers) is the same code read in
      exact arithmetic, used where a property is meant up to rounding.
    - [Variant] objects are mutable and shared between the caller and the
      [Experiment]: they live in a store ([gmap loc Variant.t]) and the
      experiment holds their addresses in list order.
    - A method is a function in the monad [Py]: it takes the store and returns
      a value or a raised exception, together with the store it leaves. *)

From Stdlib Require Import ZArith List String Ascii DecimalString Bool Lia.
From Stdlib Require Import Floats Reals Lra.
From stdpp Require Import base option list gmap strings.

Set Default Proof Using "Type".
Local Open Scope Z_scope.

(** ** Numbers *)

(** The operations the two source files apply to [float] values. *)
Class PyNum (F : Type) := {
  fzero : F;
  fone : F;
  fadd : F -> F -> F;
  fsub : F -> F -> F;
  fmul : F -> F -> F;
  fdiv : F -> F -> F;
  fsqrt : F -> F;
  fabs : F -> F;
  fle : F -> F -> bool;   (* x <= y *)
  flt : F -> F -> bool;   (* x < y *)
  feq : F -> F -> bool;   (* x == y *)
  of_int : Z -> F;        (* float(n) *)
}.

(** [float(n)] for binary64: the integer rounded to nearest, ties to even. *)
Definition float_of_Z (n : Z) : float :=
  SF2Prim (binary_normalize prec emax n 0 false).

#[export] Instance binary64 : PyNum float := {
  fzero := 0%float;
  fone := 1%float;
  fadd := PrimFloat.add;
  fsub := PrimFloat.sub;
  fmul := PrimFloat.mul;
  fdiv := PrimFloat.div;
  fsqrt := PrimFloat.sqrt;
  fabs := PrimFloat.abs;
  fle := PrimFloat.leb;
  flt := PrimFloat.ltb;
  feq := PrimFloat.eqb;
  of_int := float_of_Z;
}.

Definition Rleb (x y : R) : bool := if Rle_dec x y then true else false.
Definition Rltb (x y : R) : bool := if Rlt_dec x y then true else false.
Definition Reqb (x y : R) : bool := if Req_dec_T x y then true else false.

#[export] Instance exact : PyNum R := {
  fzero := 0%R;
  fone := 1%R;
  fadd := Rplus;
  fsub := Rminus;
  fmul := Rmult;
  fdiv := Rdiv;
  fsqrt := sqrt;
  fabs := Rabs;
  fle := Rleb;
  flt := Rltb;
  feq := Reqb;
  of_int := IZR;
}.

(** [a / b] on two [int]s, for [b <> 0]: the quotient as a float.  (The
    interpreter rounds the exact quotient once; dividing the converted
    operands is the same number whenever both are below 2^53 in magnitude,
    which holds for every counter this program increments.) *)
Definition truediv `{PyNum F} (a b : Z) : F := fdiv (of_int a) (of_int b).

(** [max(a, b)] and [min(a, b)] as the interpreter evaluates them: the first
    argument is kept unless the second compares strictly beyond it. *)
Definition py_max `{PyNum F} (a b : F) : F := if flt a b then b else a.
Definition py_min `{PyNum F} (a b : F) : F := if flt b a then b else a.

(** ** Exceptions and the store monad *)

Inductive Exception :=
  | ValueError (msg : string)
  | IndexError (msg : string).

Inductive Result (A : Type) :=
  | Ok (a : A)
  | Raise (e : Exception).
Arguments Ok {A} a.
Arguments Raise {A} e.

Definition is_ok {A} (r : Result A) : bool :=
  match r with Ok _ => true | Raise _ => false end.

(** Addresses of [Variant] objects, and the store that holds them. *)
Definition loc := nat.

Module Variant.

(** The [Variant] dataclass.  No method reads [metadata]; its values are kept
    as strings. *)
Record t (F : Type) := mk {
  name : string;
  weight : F;
  conversions : Z;
  exposures : Z;
  metadata : gmap string string;
}.
Arguments mk {F} _ _ _ _ _.
Arguments name {F} _.
Arguments weight {F} _.
Arguments conversions {F} _.
Arguments exposures {F} _.
Arguments metadata {F} _.

Section Methods.
Context {F : Type} `{PyNum F}.

(** [Variant(name, weight)] with the dataclass defaults. *)
Definition new (n : string) (w : F) : t F := mk n w 0 0 ∅.

Definition conversion_rate (self : t F) : F :=
  if exposures self =? 0 then fzero
  else truediv (conversions self) (exposures self).

Definition record_exposure (self : t F) : t F :=
  mk (name self) (weight self) (conversions self) (exposures self + 1)
     (metadata self).

Definition record_conversion (self : t F) : t F :=
  mk (name self) (weight self) (conversions self + 1) (exposures self)
     (metadata self).

(** The assignment [self.weight = w]. *)
Definition set_weight (w : F) (self : t F) : t F :=
  mk (name self) w (conversions self) (exposures self) (metadata self).

#[global] Instance inhabited : Inhabited (t F) := populate (new "" fzero).
End Methods.

End Variant.

Abbreviation Store F := (gmap loc (Variant.t F)).

(** A computation that reads and mutates [Variant] objects and may raise. *)
Definition Py (F A : Type) : Type := Store F -> Result A * Store F.

Section Monad.
Context {F : Type} `{PyNum F}.

Definition ret {A} (a : A) : Py F A := fun σ => (Ok a, σ).

Definition raise {A} (e : Exception) : Py F A := fun σ => (Raise e, σ).

Definition bind {A B} (m : Py F A) (k : A -> Py F B) : Py F B :=
  fun σ =>
    match m σ with
    | (Ok a, σ') => k a σ'
    | (Raise e, σ') => (Raise e, σ')
    end.

(** Reading the object at an address. *)
Definition load (l : loc) : Py F (Variant.t F) := fun σ => (Ok (σ !!! l), σ).

(** In-place update of the object at an address. *)
Definition modify (f : Variant.t F -> Variant.t F) (l : loc) : Py F unit :=
  fun σ => (Ok tt, alter f l σ).

(** [for x in xs: body(x)] *)
Fixpoint for_each {A} (xs : list A) (body : A -> Py F unit) : Py F unit :=
  match xs with
  | [] => ret tt
  | x :: xs' => bind (body x) (fun _ => for_each xs' body)
  end.
End Monad.

Declare Scope py_scope.
Delimit Scope py_scope with py.
Notation "x <~ m ;; k" := (bind m (fun x => k))
  (at level 100, m at next level, right associativity) : py_scope.
Notation "m ;;; k" := (bind m (fun _ => k))
  (at level 100, right associativity) : py_scope.

Local Open Scope py_scope.

(** ** Strings and dictionaries *)

(** The line feed, written [\n] in the source. *)
Definition newline : string := String (ascii_of_nat 10) EmptyString.

(** [str(n)] and [f"{n}"] for an [int]. *)
Definition str_of_int (n : Z) : string := NilZero.string_of_int (Z.to_int n).

(** [sep.join(lines)]. *)
Definition join (sep : string) (lines : list string) : string :=
  String.concat sep lines.

(** A [dict] with string keys: its items in insertion order. *)
Definition dict (V : Type) : Type := list (string * V).

(** [d[k] = v]: a key that is present keeps its place and gets the new
    value; a new key goes to the end. *)
Fixpoint dict_set {V : Type} (k : string) (v : V) (d : dict V) : dict V :=
  match d with
  | [] => [(k, v)]
  | (k', v') :: d' =>
      if String.eqb k' k then (k', v) :: d' else (k', v') :: dict_set k v d'
  end.

(** [d.get(k)]. *)
Fixpoint dict_get {V : Type} (k : string) (d : dict V) : option V :=
  match d with
  | [] => None
  | (k', v') :: d' => if String.eqb k' k then Some v' else dict_get k d'
  end.

(** [list(d)]: the keys in insertion order. *)
Definition dict_keys {V : Type} (d : dict V) : list string := map fst d.

(** The inner dict of [Experiment.get_results], whose four keys are fixed:
    ['exposures'], ['conversions'], ['conversion_rate'] and ['weight']. *)
Module VariantStats.
Record t (F : Type) := mk {
  exposures : Z;
  conversions : Z;
  conversion_rate : F;
  weight : F;
}.
Arguments mk {F} _ _ _ _.
Arguments exposures {F} _.
Arguments conversions {F} _.
Arguments conversion_rate {F} _.
Arguments weight {F} _.
End VariantStats.

(** ** The experiment manager *)

Module Experiment.

(** The attributes of an [Experiment] object.  [variants] is the caller's
    list of [Variant] objects, by address; [_random] is the state of the
    experiment's own generator. *)
Record t (Rng : Type) := mk {
  name : string;
  variants : list loc;
  created_at : Z;
  _random : Rng;
}.
Arguments mk {Rng} _ _ _ _.
Arguments name {Rng} _.
Arguments variants {Rng} _.
Arguments created_at {Rng} _.
Arguments _random {Rng} _.

Section Methods.
Context {F : Type} `{PyNum F} {Rng : Type}.

(** Provided by the interpreter and its standard library:
    [random.Random(seed)], [Random.random()], and the built-in [hash] on
    strings (fixed for the life of a process). *)
Variable seed_rng : option Z -> Rng.
Variable next_random : Rng -> F * Rng.
Variable hash : string -> Z.

(** [sum(v.weight for v in variants)], the accumulator starting at 0. *)
Fixpoint sum_weights (acc : F) (vs : list loc) : Py F F :=
  match vs with
  | [] => ret acc
  | variant :: rest =>
      v <~ load variant ;;
      sum_weights (fadd acc (Variant.weight v)) rest
  end.

(** [variant.weight = variant.weight / total_weight]; the divisor has failed
    the test [total_weight <= 0], so it is not zero. *)
Definition normalize (total_weight : F) (variant : loc) : Py F unit :=
  v <~ load variant ;;
  modify (Variant.set_weight (fdiv (Variant.weight v) total_weight)) variant.

(** [Experiment(name, variants, seed)], constructed at clock reading
    [now]. *)
Definition __init__ (name : string) (variants : list loc)
    (seed : option Z) (now : Z) : Py F (t Rng) :=
  if Z.of_nat (length variants) <? 2 then
    raise (ValueError "Experiment must have at least 2 variants")
  else
    let self := mk name variants now (seed_rng seed) in
    total_weight <~ sum_weights fzero variants ;;
    if fle total_weight fzero then
      raise (ValueError "Total weight must be positive")
    else
      (for_each variants (normalize total_weight) ;;;
       ret self).

(** The value [rand_val] of [assign_variant], and the generator state
    left behind. *)
Definition draw (self : t Rng) (user_id : option string) : F * Rng :=
  match user_id with
  | Some user_id =>
      let hash_val := hash (String.append user_id (name self)) in
      (truediv (hash_val mod 10000) 10000, _random self)
  | None => next_random (_random self)
  end.

(** The loop of [assign_variant]: the first variant whose cumulative
    weight reaches [rand_val], if the loop returns at all. *)
Fixpoint pick (rand_val cumulative_weight : F) (vs : list loc)
    : Py F (option loc) :=
  match vs with
  | [] => ret None
  | variant :: rest =>
      v <~ load variant ;;
      let cumulative_weight := fadd cumulative_weight (Variant.weight v) in
      if fle rand_val cumulative_weight then ret (Some variant)
      else pick rand_val cumulative_weight rest
  end.

Definition assign_variant (self : t Rng) (user_id : option string)
    : Py F (loc * t Rng) :=
  let '(rand_val, rng) := draw self user_id in
  let self := mk (name self) (variants self) (created_at self) rng in
  hit <~ pick rand_val fzero (variants self) ;;
  match hit with
  | Some variant =>
      (modify Variant.record_exposure variant ;;;
       ret (variant, self))
  | None =>
      (* self.variants[-1] *)
      match last (variants self) with
      | Some variant =>
          (modify Variant.record_exposure variant ;;;
           ret (variant, self))
      | None => raise (IndexError "list index out of range")
      end
  end.

(** The loop shared by [record_conversion] and [get_variant]. *)
Fixpoint find_variant (variant_name : string) (vs : list loc)
    : Py F (option loc) :=
  match vs with
  | [] => ret None
  | variant :: rest =>
      v <~ load variant ;;
      if String.eqb (Variant.name v) variant_name then ret (Some variant)
      else find_variant variant_name rest
  end.

Definition record_conversion (self : t Rng) (variant_name : string)
    : Py F bool :=
  hit <~ find_variant variant_name (variants self) ;;
  match hit with
  | Some variant =>
      (modify Variant.record_conversion variant ;;;
       ret true)
  | None => ret false
  end.

Definition get_variant (self : t Rng) (variant_name : string)
    : Py F (option loc) :=
  find_variant variant_name (variants self).

End Methods.

Section Reports.
Context {F : Type} `{PyNum F} {Rng : Type}.

(** Provided by the standard library: [datetime.strftime] with the format
    ['%Y-%m-%d %H:%M:%S'], and the float format [.2%]. *)
Variable strftime : Z -> string.
Variable format_percent : F -> string.

(** The entry [get_results] stores for one variant. *)
Definition stats_of (v : Variant.t F) : VariantStats.t F :=
  VariantStats.mk (Variant.exposures v) (Variant.conversions v)
    (Variant.conversion_rate v) (Variant.weight v).

(** The loop of [get_results], from the dict built so far. *)
Fixpoint collect_results (results : dict (VariantStats.t F))
    (vs : list loc) : Py F (dict (VariantStats.t F)) :=
  match vs with
  | [] => ret results
  | variant :: rest =>
      v <~ load variant ;;
      collect_results (dict_set (Variant.name v) (stats_of v) results) rest
  end.

Definition get_results (self : t Rng) : Py F (dict (VariantStats.t F)) :=
  collect_results [] (variants self).

(** The five lines [get_summary] appends for one variant. *)
Definition summary_block (v : Variant.t F) : list string :=
  [ "  " ++ Variant.name v ++ ":";
    "    Exposures: " ++ str_of_int (Variant.exposures v);
    "    Conversions: " ++ str_of_int (Variant.conversions v);
    "    Conversion Rate: " ++ format_percent (Variant.conversion_rate v);
    "" ]%string.

(** The loop of [get_summary], from the lines gathered so far. *)
Fixpoint collect_summary (summary : list string) (vs : list loc)
    : Py F (list string) :=
  match vs with
  | [] => ret summary
  | variant :: rest =>
      v <~ load variant ;;
      collect_summary (summary ++ summary_block v) rest
  end.

Definition get_summary (self : t Rng) : Py F string :=
  let summary :=
    [ "Experiment: " ++ name self;
      "Created: " ++ strftime (created_at self);
      "Variants: " ++ str_of_int (Z.of_nat (length (variants self)));
      "" ]%string in
  summary <~ collect_summary summary (variants self) ;;
  ret (join newline summary).

End Reports.

End Experiment.

(** ** Results of [math.ceil] *)

(** [math.ceil] adds [OverflowError] to the exceptions above. *)
Inductive Failure :=
  | Builtin (e : Exception)
  | OverflowError (msg : string).

Inductive Outcome (A : Type) :=
  | Return (a : A)
  | Throw (e : Failure).
Arguments Return {A} a.
Arguments Throw {A} e.

(** A [Result] read as an [Outcome]. *)
Definition lift {A : Type} (r : Result A) : Outcome A :=
  match r with
  | Ok a => Return a
  | Raise e => Throw (Builtin e)
  end.

(** [math.ceil(x)] on a float: the least integer not below [x]. *)
Class PyCeil (F : Type) := { math_ceil : F -> Outcome Z }.

(** The binary64 number of sign [s], mantissa [m] and exponent [e] is
    [(-1)^s * m * 2^e]; infinities and NaN have no integer. *)
Definition float_ceil (x : float) : Outcome Z :=
  match Prim2SF x with
  | S754_zero _ => Return 0
  | S754_infinity _ =>
      Throw (OverflowError "cannot convert float infinity to integer")
  | S754_nan =>
      Throw (Builtin (ValueError "cannot convert float NaN to integer"))
  | S754_finite s m e =>
      let v := cond_Zopp s (Z.pos m) in
      Return (if 0 <=? e then v * 2 ^ e else - ((- v) / 2 ^ (- e)))
  end.

#[export] Instance binary64_ceil : PyCeil float := { math_ceil := float_ceil }.

(** [up x] is the integer just above [x], so [1 - up (- x)] is the least
    integer not below [x]. *)
#[export] Instance exact_ceil : PyCeil R :=
  { math_ceil := fun x => Return (1 - up (- x)) }.

(** ** Statistical functions *)

Module Statistics.

Section Functions.
Context {F : Type} `{PyNum F}.

(** Provided by SciPy: the standard normal distribution function
    [stats.norm.cdf] and its quantile function [stats.norm.ppf]. *)
Variable norm_cdf : F -> F.
Variable norm_ppf : F -> F.

(** [math.sqrt]: a negative argument is a domain error; NaN and negative
    zero pass through. *)
Definition math_sqrt (x : F) : Result F :=
  if flt x fzero then Raise (ValueError "math domain error")
  else Ok (fsqrt x).

(** The divisions are by positive integers, and by [se] only after the test
    [se == 0] has failed, so none raises [ZeroDivisionError]. *)
Definition z_test_proportions (conversions_a exposures_a
    conversions_b exposures_b : Z) (two_tailed : bool)
    : Result (F * F * F) :=
  if (exposures_a <=? 0) || (exposures_b <=? 0) then
    Raise (ValueError "Exposures must be positive")
  else
    let p_a := truediv conversions_a exposures_a in
    let p_b := truediv conversions_b exposures_b in
    let p_pooled :=
      truediv (conversions_a + conversions_b) (exposures_a + exposures_b) in
    match math_sqrt
            (fmul (fmul p_pooled (fsub fone p_pooled))
                  (fadd (truediv 1 exposures_a) (truediv 1 exposures_b)))
    with
    | Raise e => Raise e
    | Ok se =>
        if feq se fzero then Ok (fzero, fone, fzero)
        else
          let z_score := fdiv (fsub p_a p_b) se in
          let p_value :=
            if two_tailed then
              fmul (of_int 2) (fsub fone (norm_cdf (fabs z_score)))
            else fsub fone (norm_cdf z_score) in
          Ok (z_score, p_value, se)
    end.

(** [z ** 2] is [z * z]; [2 * n] and [4 * n ** 2] are computed on integers
    and converted when they divide a float.  Every divisor below is a positive
    integer, or [1 + z_squared / n], which is not zero. *)
Definition calculate_confidence_interval (conversions exposures : Z)
    (confidence_level : F) : Result (F * F) :=
  if exposures <=? 0 then
    Raise (ValueError "Exposures must be positive")
  else if (conversions <? 0) || (exposures <? conversions) then
    Raise (ValueError "Conversions must be between 0 and exposures")
  else if negb (flt fzero confidence_level && flt confidence_level fone) then
    Raise (ValueError "Confidence level must be between 0 and 1")
  else
    let p := truediv conversions exposures in
    let n := exposures in
    let z :=
      norm_ppf (fsub fone (fdiv (fsub fone confidence_level) (of_int 2))) in
    let z_squared := fmul z z in
    let denominator := fadd fone (fdiv z_squared (of_int n)) in
    let center :=
      fdiv (fadd p (fdiv z_squared (of_int (2 * n)))) denominator in
    match math_sqrt
            (fadd (fdiv (fmul p (fsub fone p)) (of_int n))
                  (fdiv z_squared (of_int (4 * n ^ 2))))
    with
    | Raise e => Raise e
    | Ok root =>
        let margin := fdiv (fmul z root) denominator in
        let lower := py_max fzero (fsub center margin) in
        let upper := py_min fone (fadd center margin) in
        Ok (lower, upper)
    end.

Definition is_statistically_significant (p_value alpha : F) : bool :=
  flt p_value alpha.

End Functions.

Section MoreFunctions.
Context {F : Type} `{PyNum F} `{PyCeil F}.

(** Provided by SciPy: [stats.ttest_ind], [stats.chi2_contingency] (either
    may raise) and [stats.norm.ppf].  Their numbers are NumPy scalars:
    arithmetic on them is IEEE 754 arithmetic, and the conversions [float(x)]
    and [int(x)] keep the value. *)
Variable ttest_ind : list F -> list F -> bool -> Result (F * F).
Variable chi2_contingency :
  list (list Z) -> Result (F * F * Z * list (list F)).
Variable norm_ppf : F -> F.

Definition t_test_means (values_a values_b : list F) (equal_var : bool)
    : Result (F * F) :=
  if (Z.of_nat (length values_a) <? 2) || (Z.of_nat (length values_b) <? 2)
  then Raise (ValueError "Each sample must have at least 2 values")
  else
    match ttest_ind values_a values_b equal_var with
    | Raise e => Raise e
    | Ok (t_statistic, p_value) => Ok (t_statistic, p_value)
    end.

(** The second test of the guard reads [contingency_table[0]], and only when
    the first test has failed. *)
Definition chi_square_test (contingency_table : list (list Z))
    : Result (F * F * Z) :=
  if Z.of_nat (length contingency_table) <? 2 then
    Raise (ValueError "Contingency table must be at least 2x2")
  else
    match contingency_table !! 0%nat with
    | None => Raise (IndexError "list index out of range")
    | Some row =>
        if Z.of_nat (length row) <? 2 then
          Raise (ValueError "Contingency table must be at least 2x2")
        else
          match chi2_contingency contingency_table with
          | Raise e => Raise e
          | Ok (chi2, p_value, dof, expected) => Ok (chi2, p_value, dof)
          end
    end.

(** [x ** 2] is [x * x].  The numerator is a NumPy scalar, so the division
    [numerator / denominator] by a zero denominator gives an infinity or NaN,
    on which [math.ceil] fails. *)
Definition calculate_sample_size (baseline_rate minimum_detectable_effect
    alpha power : F) (two_tailed : bool) : Outcome Z :=
  if negb (flt fzero baseline_rate && flt baseline_rate fone) then
    Throw (Builtin (ValueError "Baseline rate must be between 0 and 1"))
  else if fle minimum_detectable_effect fzero then
    Throw (Builtin (ValueError "Minimum detectable effect must be positive"))
  else if negb (flt fzero alpha && flt alpha fone) then
    Throw (Builtin (ValueError "Alpha must be between 0 and 1"))
  else if negb (flt fzero power && flt power fone) then
    Throw (Builtin (ValueError "Power must be between 0 and 1"))
  else
    let treatment_rate :=
      fmul baseline_rate (fadd fone minimum_detectable_effect) in
    if fle fone treatment_rate then
      Throw (Builtin (ValueError "Treatment rate would exceed 1"))
    else
      let z_alpha :=
        if two_tailed then norm_ppf (fsub fone (fdiv alpha (of_int 2)))
        else norm_ppf (fsub fone alpha) in
      let z_beta := norm_ppf power in
      let p1 := baseline_rate in
      let p2 := treatment_rate in
      let p_avg := fdiv (fadd p1 p2) (of_int 2) in
      match math_sqrt (fmul (fmul (of_int 2) p_avg) (fsub fone p_avg)) with
      | Raise e => Throw (Builtin e)
      | Ok root_avg =>
          match math_sqrt (fadd (fmul p1 (fsub fone p1))
                                (fmul p2 (fsub fone p2))) with
          | Raise e => Throw (Builtin e)
          | Ok root_sum =>
              let s := fadd (fmul z_alpha root_avg) (fmul z_beta root_sum) in
              let numerator := fmul s s in
              let d := fsub p2 p1 in
              let denominator := fmul d d in
              let n := fdiv numerator denominator in
              math_ceil n
          end
      end.

(** The divisor has failed the test [control_rate == 0]. *)
Definition calculate_relative_uplift (control_rate treatment_rate : F)
    : Result F :=
  if feq control_rate fzero then
    Raise (ValueError "Control rate cannot be zero")
  else Ok (fdiv (fsub treatment_rate control_rate) control_rate).

End MoreFunctions.

End Statistics.

(** ** Callers: the traffic loops of the tests and examples *)

Module Traffic.

Section Loops.
Context {F : Type} `{PyNum F} {Rng : Type}.
Variable next_random : Rng -> F * Rng.
Variable hash : string -> Z.

(** Whether visitor [i] converts: [i % 10 == 0] in
    [test_multi_variant_experiment]; in [examples/confidence_intervals.py]
    the outcome of [random.seed(i)] followed by [random.random() < 0.10]. *)
Variable converts : Z -> bool.

(** The body of the loop:
    [variant = experiment.assign_variant(user_id=f"user_{i}")], then
    [experiment.record_conversion(variant.name)] if the visitor converts. *)
Definition visit (self : Experiment.t Rng) (i : Z) : Py F (Experiment.t Rng) :=
  assigned <~ Experiment.assign_variant next_random hash self
                (Some ("user_" ++ str_of_int i)%string) ;;
  let '(variant, self) := assigned in
  if converts i then
    (v <~ load variant ;;
     Experiment.record_conversion self (Variant.name v) ;;;
     ret self)
  else ret self.

Fixpoint visits (self : Experiment.t Rng) (users : list Z)
    : Py F (Experiment.t Rng) :=
  match users with
  | [] => ret self
  | i :: rest => self <~ visit self i ;; visits self rest
  end.

(** [for i in range(n): ...] *)
Definition simulate (self : Experiment.t Rng) (n : nat)
    : Py F (Experiment.t Rng) :=
  visits self (map Z.of_nat (seq 0 n)).

End Loops.

(** The visitors of [test_multi_variant_experiment] that convert. *)
Definition every_tenth (i : Z) : bool := i mod 10 =? 0.

(** The uplift report of [examples/ecommerce_case_study.py]: the call is
    made only [if control.conversion_rate > 0]. *)
Definition guarded_uplift {F : Type} `{PyNum F} (control treatment : Variant.t F)
    : option (Result F) :=
  if flt fzero (Variant.conversion_rate control) then
    Some (Statistics.calculate_relative_uplift
            (Variant.conversion_rate control)
            (Variant.conversion_rate treatment))
  else None.

End Traffic.

(** ** The t-test report of [Scr/AB_testing.py] *)

Module Script.

Section Report.
Context {F : Type} `{PyNum F}.

(** Provided by SciPy and NumPy, and the float formats [.3f], [.2f] and
    [str]. *)
Variable ttest_ind : list F -> list F -> bool -> Result (F * F).
Variable np_mean : list F -> F.
Variable format_3f : F -> string.
Variable format_2f : F -> string.
Variable str_of_float : F -> string.

(** [perform_t_test] prints and returns nothing: the lines it prints, in
    order, and how the call ends. *)
Definition perform_t_test (A B : list F) (alpha : F) (equal_var : bool)
    : list string * Result unit :=
  match ttest_ind A B equal_var with
  | Raise e => ([], Raise e)
  | Ok (t_stat, p_value) =>
      let printed :=
        [ "Pooled t-test t-statistic: " ++ format_3f t_stat;
          "Pooled t-test p-value: " ++ format_3f p_value ]%string in
      if flt p_value alpha then
        if flt p_value alpha then
          (printed ++
           [ newline ++ "Conclusion: Reject the Null Hypothesis (p < "
               ++ str_of_float alpha ++ ").";
             "The mean of Group B (" ++ format_2f (np_mean B)
               ++ ") is statistically significantly different from Group A ("
               ++ format_2f (np_mean A) ++ ")." ]%string,
           Ok tt)
        else
          (printed ++
           [ newline ++ "Conclusion: Fail to Reject the Null Hypothesis (p >= "
               ++ str_of_float alpha ++ ").";
             "There is not enough evidence to say the mean of Group B is different from Group A."
           ]%string,
           Ok tt)
      else (printed, Ok tt)
  end.

End Report.

End Script.

(** ** Vocabulary for the statements *)

Section Vocabulary.
Context {F : Type} `{PyNum F}.

Definition weight_at (σ : Store F) (l : loc) : F := Variant.weight (σ !!! l).
Definition name_at (σ : Store F) (l : loc) : string := Variant.name (σ !!! l).
Definition exposures_at (σ : Store F) (l : loc) : Z :=
  Variant.exposures (σ !!! l).
Definition conversions_at (σ : Store F) (l : loc) : Z :=
  Variant.conversions (σ !!! l).

(** The weights of the listed variants, in list order. *)
Definition weights_of (σ : Store F) (vs : list loc) : list F :=
  map (weight_at σ) vs.

(** Names and weights in list order: what assignment depends on. *)
Definition config (σ : Store F) (vs : list loc) : list (string * F) :=
  map (fun l => (name_at σ l, weight_at σ l)) vs.

(** The running sum of the weights [ws], started at [c]. *)
Definition cumulative (c : F) (ws : list F) : F := fold_left fadd ws c.

(** The sum of a list of weights as [sum] computes it. *)
Definition total (ws : list F) : F := cumulative fzero ws.

(** Position of the first weight at which the running sum reaches [r]. *)
Fixpoint bucket (r c : F) (ws : list F) : option nat :=
  match ws with
  | [] => None
  | w :: ws' =>
      if fle r (fadd c w) then Some 0%nat
      else option_map S (bucket r (fadd c w) ws')
  end.

(** Position of the variant [assign_variant] settles on for the value
    [r]: the first bucket reached, else the last position. *)
Definition selected_index (r : F) (ws : list F) : option nat :=
  match bucket r fzero ws with
  | Some i => Some i
  | None => match ws with [] => None | _ :: _ => Some (pred (length ws)) end
  end.

Definition selected (r : F) (σ : Store F) (vs : list loc) : option loc :=
  match selected_index r (weights_of σ vs) with
  | Some i => vs !! i
  | None => None
  end.

(** The store after the normalisation loop has divided the weight of each
    listed object, in list order, by [t]. *)
Definition normalized_store (t : F) (vs : list loc) (σ : Store F) : Store F :=
  fold_left
    (fun σ l => alter (Variant.set_weight (fdiv (weight_at σ l) t)) l σ) vs σ.

(** Every listed address holds an object. *)
Definition allocated (σ : Store F) (vs : list loc) : Prop :=
  forall l, In l vs -> is_Some (σ !! l).
End Vocabulary.

(** The guard of [z_test_proportions]. *)
Definition exposures_bad (exposures_a exposures_b : Z) : bool :=
  (exposures_a <=? 0) || (exposures_b <=? 0).

(** A failure the function raises itself after checking its arguments, as
    opposed to the domain error of [math.sqrt]. *)
Definition validation_error {A : Type} (r : Result A) : Prop :=
  exists msg, r = Raise (ValueError msg) /\ msg <> "math domain error".

(** The facts about comparisons that the control flow relies on; they hold in
    binary64 (NaN included) and in exact arithmetic. *)
Class PyNumLaws (F : Type) `{PyNum F} : Prop := {
  flt_zero_not_fle : forall x : F, flt fzero x = true -> fle x fzero = false;
  flt_fle : forall x y : F, flt x y = true -> fle x y = true;
  fle_zero_zero : fle (F:=F) fzero fzero = true;
  fle_one_one : fle (F:=F) fone fone = true;
}.

(** ** Vocabulary for the reports, the traffic loops and the sample size *)

Section ReportVocabulary.
Context {F : Type} `{PyNum F}.

(** The dict [get_results] builds: one assignment per listed variant, in
    list order. *)
Definition results_of (σ : Store F) (vs : list loc) : dict (VariantStats.t F) :=
  fold_left
    (fun d l => dict_set (name_at σ l) (Experiment.stats_of (σ !!! l)) d)
    vs [].

(** The counters summed over the listed variants. *)
Definition total_exposures (σ : Store F) (vs : list loc) : Z :=
  foldr Z.add 0 (map (exposures_at σ) vs).

Definition total_conversions (σ : Store F) (vs : list loc) : Z :=
  foldr Z.add 0 (map (conversions_at σ) vs).

(** The store after visitor [i] has been assigned variant [l] and, if the
    visitor converts, has been credited to it. *)
Definition visited (converts : Z -> bool) (i : Z) (l : loc) (σ : Store F)
    : Store F :=
  if converts i then
    alter Variant.record_conversion l (alter Variant.record_exposure l σ)
  else alter Variant.record_exposure l σ.
End ReportVocabulary.

(** [sub] occurs in [s]. *)
Definition occurs_in (sub s : string) : Prop :=
  exists pre post, s = (pre ++ sub ++ post)%string.

(** One of the five messages [calculate_sample_size] raises itself. *)
Definition sample_size_rejection (r : Outcome Z) : Prop :=
  exists msg, r = Throw (Builtin (ValueError msg)) /\
    In msg [ "Baseline rate must be between 0 and 1";
             "Minimum detectable effect must be positive";
             "Alpha must be between 0 and 1";
             "Power must be between 0 and 1";
             "Treatment rate would exceed 1" ]%string.

(** The failures of [math.ceil] are not among them. *)
Class PyCeilLaws (F : Type) `{PyCeil F} : Prop := {
  ceil_not_rejection : forall x : F, ~ sample_size_rejection (math_ceil x);
}.

(** The argument of the square root of the z-test, in exact arithmetic. *)
Definition pooled_variance (ca ea cb eb : Z) : R :=
  (IZR (ca + cb) / IZR (ea + eb) * (1 - IZR (ca + cb) / IZR (ea + eb))
   * (1 / IZR ea + 1 / IZR eb))%R.

(** ** Vocabulary for binary64 arithmetic *)

(** The mantissa of [mrs] at exponent [e] is a truncation of the number
    [N / D * 2^e0]: it does not exceed it, and the record says "exact" when
    they are equal. *)
Definition below (N D e0 : Z) (mrs : shr_record) (e : Z) : Prop :=
  0 <= shr_m mrs /\ e0 <= e /\
  shr_m mrs * 2 ^ (e - e0) * D <= N /\
  (shr_m mrs * 2 ^ (e - e0) * D = N -> loc_of_shr_record mrs = loc_Exact).

(** Not a negative number (zeros of either sign and NaN pass): what
    [math.sqrt] accepts. *)
Definition sf_nonneg (x : spec_float) : bool :=
  match x with
  | S754_finite true _ _ | S754_infinity true => false
  | _ => true
  end.

(** Sign bit clear, or NaN. *)
Definition sf_sign_clear (x : spec_float) : bool :=
  match x with
  | S754_zero true | S754_finite true _ _ | S754_infinity true => false
  | _ => true
  end.

(** A zero, or a positive finite number of value at most [2^k]. *)
Definition sf_at_most (k : Z) (x : spec_float) : Prop :=
  match x with
  | S754_zero _ => True
  | S754_finite false m e =>
      exists e0, e0 <= e /\ e0 <= k /\ Z.pos m * 2 ^ (e - e0) <= 2 ^ (k - e0)
  | _ => False
  end.

(** ** Concrete data *)

(** The values [hash_val % 10000] can take, and the test that the quotient by
    10000 lies in [0, 1) in binary64. *)
Definition draw_values : list Z := map Z.of_nat (seq 0 (Z.to_nat 10000)).

Definition in_unit_interval (k : Z) : bool :=
  fle (F:=float) fzero (truediv k 10000)
  && flt (F:=float) (truediv k 10000) fone.

(** A generator stub for runs that pass a user id: no state, and a fixed
    value should it be asked for one. *)
Definition no_rng_seed (seed : option Z) : unit := tt.
Definition no_rng_next (g : unit) : float * unit := (0.5%float, tt).

(** A stand-in for the built-in [hash] in concrete runs. *)
Definition length_hash (s : string) : Z := Z.of_nat (String.length s) * 7919.

(** [Variant("control", w0)] at address 0 and [Variant("treatment", w1)] at
    address 1. *)
Definition two_arms {F : Type} `{PyNum F} (w0 w1 : F) : Store F :=
  <[1%nat := Variant.new "treatment" w1]>
    (<[0%nat := Variant.new "control" w0]> ∅).

(** [stats.norm.ppf] at 0.975, the one point the runs below ask for:
    1.959963984540054. *)
Definition norm_ppf_at_975 (q : float) : float := 0x1.f5c0331eeff84p+0%float.

(** The confidence level 0.95 as a binary64 number. *)
Definition level_95 : float := 0x1.e666666666666p-1%float.

(** An experiment over the two objects of [two_arms]. *)
Definition demo_experiment : Experiment.t unit :=
  Experiment.mk "exp" [0%nat; 1%nat] 0 tt.

(** Seven variants of weight 1.0 at addresses 0 to 6. *)
Definition seven : list loc := seq 0 7.
Definition seven_arms : Store float :=
  list_to_map
    (map (fun l => (l, Variant.new ("arm_" ++ str_of_int (Z.of_nat l)) 1%float))
       seven).

(** A generator whose next value is the largest [random()] can return,
    1 - 2^-53. *)
Definition top_rng_next (g : unit) : float * unit :=
  (0x1.fffffffffffffp-1%float, tt).

(** ** The loops, characterised *)

Section Loops.
Context {F : Type} `{PyNum F} {Rng : Type}.

Lemma sum_weights_eq (vs : list loc) (acc : F) (σ : Store F) :
  Experiment.sum_weights acc vs σ = (Ok (cumulative acc (weights_of σ vs)), σ).
Proof.
  revert acc. induction vs as [|l vs IH]; intros acc; simpl; [reflexivity|].
  unfold bind, load. simpl. apply IH.
Qed.

Lemma pick_eq (r : F) (vs : list loc) (c : F) (σ : Store F) :
  Experiment.pick r c vs σ =
    (Ok (match bucket r c (weights_of σ vs) with
         | Some i => vs !! i
         | None => None
         end), σ).
Proof.
  revert c. induction vs as [|l vs IH]; intros c; simpl; [reflexivity|].
  unfold bind, load. simpl. fold (weight_at σ l).
  destruct (fle r (fadd c (weight_at σ l))); [reflexivity|].
  rewrite IH. destruct (bucket r (fadd c (weight_at σ l)) (weights_of σ vs));
    reflexivity.
Qed.

Lemma bucket_lt (r : F) (ws : list F) (c : F) (i : nat) :
  bucket r c ws = Some i -> (i < length ws)%nat.
Proof.
  revert c i. induction ws as [|w ws IH]; intros c i; simpl; [discriminate|].
  destruct (fle r (fadd c w)).
  - intros [= <-]. lia.
  - destruct (bucket r (fadd c w) ws) as [j|] eqn:E; simpl; [|discriminate].
    intros [= <-]. apply IH in E. lia.
Qed.

(** [bucket] returns the first position whose running sum reaches [r]. *)
Lemma bucket_Some (r : F) (ws : list F) (c : F) (i : nat) :
  bucket r c ws = Some i <->
  (i < length ws)%nat /\
  fle r (cumulative c (take (S i) ws)) = true /\
  forall j, (j < i)%nat -> fle r (cumulative c (take (S j) ws)) = false.
Proof.
  revert c i. induction ws as [|w ws IH]; intros c i; simpl.
  - split; [discriminate|]. intros [Hlt _]. simpl in Hlt. lia.
  - destruct (fle r (fadd c w)) eqn:E.
    + split.
      * intros [= <-]. split; [lia|]. split; [exact E|]. intros j Hj. lia.
      * intros (_ & Hi & Hmin). destruct i as [|i]; [reflexivity|].
        specialize (Hmin 0%nat ltac:(lia)). simpl in Hmin. congruence.
    + destruct i as [|i].
      * split.
        -- destruct (bucket r (fadd c w) ws); discriminate.
        -- intros (_ & Hi & _). simpl in Hi. congruence.
      * specialize (IH (fadd c w) i). split.
        -- destruct (bucket r (fadd c w) ws) as [k|] eqn:Ek; [|discriminate].
           simpl. intros [= ->]. destruct IH as [IH _].
           destruct (IH eq_refl) as (Hlt & Hi & Hmin).
           split; [lia|]. split; [exact Hi|].
           intros [|j] Hj; [exact E|]. apply Hmin. lia.
        -- intros (Hlt & Hi & Hmin). destruct IH as [_ IH].
           rewrite IH; [reflexivity|]. split; [lia|]. split; [exact Hi|].
           intros j Hj. apply (Hmin (S j)). lia.
Qed.

(** [bucket] finds nothing exactly when no running sum reaches [r]. *)
Lemma bucket_None (r : F) (ws : list F) (c : F) :
  bucket r c ws = None <->
  forall j, (j < length ws)%nat ->
    fle r (cumulative c (take (S j) ws)) = false.
Proof.
  revert c. induction ws as [|w ws IH]; intros c; simpl.
  - split; [intros _ j Hj; lia | reflexivity].
  - destruct (fle r (fadd c w)) eqn:E.
    + split; [discriminate|]. intros Hall.
      specialize (Hall 0%nat ltac:(lia)). simpl in Hall. congruence.
    + specialize (IH (fadd c w)). split.
      * destruct (bucket r (fadd c w) ws) eqn:Eb; [discriminate|].
        intros _ [|j] Hj; [exact E|]. apply IH; [reflexivity | lia].
      * intros Hall. destruct IH as [_ IH]. rewrite IH; [reflexivity|].
        intros j Hj. apply (Hall (S j)). lia.
Qed.

Lemma find_variant_unchanged (n : string) (vs : list loc) (σ : Store F) :
  exists hit, Experiment.find_variant n vs σ = (Ok hit, σ).
Proof.
  induction vs as [|l vs IH]; simpl; [eexists; reflexivity|].
  unfold bind, load, ret. simpl.
  destruct (String.eqb (Variant.name (σ !!! l)) n); [eexists; reflexivity|].
  exact IH.
Qed.

(** [find_variant] returns the first listed variant with the name. *)
Lemma find_variant_Some (n : string) (vs : list loc) (σ : Store F) (l : loc) :
  Experiment.find_variant n vs σ = (Ok (Some l), σ) <->
  exists i, vs !! i = Some l /\ name_at σ l = n /\
    forall j l', (j < i)%nat -> vs !! j = Some l' -> name_at σ l' <> n.
Proof.
  induction vs as [|l0 vs IH]; simpl; unfold ret.
  - split; [discriminate|]. intros (i & Hi & _). destruct i; discriminate.
  - unfold bind, load, ret. simpl. fold (name_at σ l0).
    destruct (String.eqb (name_at σ l0) n) eqn:E.
    + apply String.eqb_eq in E. split.
      * intros [= <-]. exists 0%nat. split; [reflexivity|]. split; [exact E|].
        intros j l' Hj. lia.
      * intros (i & Hi & Hn & Hmin). destruct i as [|i].
        -- cbn in Hi. congruence.
        -- exfalso. apply (Hmin 0%nat l0); [lia | reflexivity | exact E].
    + apply String.eqb_neq in E. rewrite IH. split.
      * intros (i & Hi & Hn & Hmin). exists (S i). split; [exact Hi|].
        split; [exact Hn|]. intros [|j] l' Hj Hl'.
        -- cbn in Hl'. congruence.
        -- apply (Hmin j); [lia | exact Hl'].
      * intros (i & Hi & Hn & Hmin). destruct i as [|i].
        -- cbn in Hi. congruence.
        -- exists i. split; [exact Hi|]. split; [exact Hn|].
           intros j l' Hj Hl'. apply (Hmin (S j)); [lia | exact Hl'].
Qed.

(** [find_variant] returns nothing exactly when no listed variant has the
    name. *)
Lemma find_variant_None (n : string) (vs : list loc) (σ : Store F) :
  Experiment.find_variant n vs σ = (Ok None, σ) <->
  forall l, In l vs -> name_at σ l <> n.
Proof.
  induction vs as [|l0 vs IH]; simpl; unfold ret.
  - split; [intros _ l [] | reflexivity].
  - unfold bind, load, ret. simpl. fold (name_at σ l0).
    destruct (String.eqb (name_at σ l0) n) eqn:E.
    + apply String.eqb_eq in E. split; [discriminate|].
      intros Hall. exfalso. apply (Hall l0); [left; reflexivity | exact E].
    + apply String.eqb_neq in E. rewrite IH. split.
      * intros Hall l [<- | Hin]; [exact E | apply Hall, Hin].
      * intros Hall l Hin. apply Hall. right. exact Hin.
Qed.
End Loops.

(** ** Assignment, characterised *)

Section Assignment.
Context {F : Type} `{PyNum F} {Rng : Type}.
Variable next_random : Rng -> F * Rng.
Variable hash : string -> Z.

Abbreviation assign_variant := (Experiment.assign_variant next_random hash).
Abbreviation draw := (Experiment.draw next_random hash).

Lemma selected_index_lt (r : F) (ws : list F) (i : nat) :
  selected_index r ws = Some i -> (i < length ws)%nat.
Proof.
  unfold selected_index. destruct (bucket r fzero ws) as [k|] eqn:E.
  - intros [= <-]. eapply bucket_lt, E.
  - destruct ws; [discriminate|]. intros [= <-]. simpl. lia.
Qed.

Lemma selected_index_nonempty (r : F) (ws : list F) :
  ws <> [] -> exists i, selected_index r ws = Some i.
Proof.
  intros Hne. unfold selected_index.
  destruct (bucket r fzero ws); [eauto|]. destruct ws; [congruence|eauto].
Qed.

Lemma weights_of_length (σ : Store F) (vs : list loc) :
  length (weights_of σ vs) = length vs.
Proof. apply length_map. Qed.

(** One call, as a function of the drawn value. *)
Lemma assign_variant_eq (self : Experiment.t Rng) (user_id : option string)
    (σ : Store F) :
  assign_variant self user_id σ =
    let self' := Experiment.mk (Experiment.name self)
                   (Experiment.variants self) (Experiment.created_at self)
                   (snd (draw self user_id)) in
    match selected (fst (draw self user_id)) σ (Experiment.variants self) with
    | Some l => (Ok (l, self'), alter Variant.record_exposure l σ)
    | None => (Raise (IndexError "list index out of range"), σ)
    end.
Proof.
  unfold Experiment.assign_variant.
  destruct (draw self user_id) as [r rng]. simpl.
  unfold bind at 1. rewrite pick_eq. unfold selected, selected_index.
  set (vs := Experiment.variants self).
  destruct (bucket r fzero (weights_of σ vs)) as [i|] eqn:E.
  - pose proof (bucket_lt _ _ _ _ E) as Hlt. rewrite weights_of_length in Hlt.
    destruct (lookup_lt_is_Some_2 vs i Hlt) as [l Hl]. rewrite Hl.
    reflexivity.
  - rewrite last_lookup.
    destruct vs as [|l0 vs0] eqn:Evs; [reflexivity|].
    cbn [weights_of map length pred]. rewrite length_map.
    destruct ((l0 :: vs0) !! length vs0) as [l|] eqn:El.
    + reflexivity.
    + apply lookup_ge_None in El. simpl in El. lia.
Qed.

Lemma total_lookup (σ : Store F) (l : loc) :
  σ !!! l = default inhabitant (σ !! l).
Proof. reflexivity. Qed.

(** Recording an exposure touches neither names nor weights. *)
Lemma record_exposure_name (σ : Store F) (l l' : loc) :
  name_at (alter Variant.record_exposure l σ) l' = name_at σ l'.
Proof.
  unfold name_at. rewrite lookup_total_alter. case_decide as E; [|reflexivity].
  subst l'. rewrite total_lookup. destruct (σ !! l); reflexivity.
Qed.

Lemma record_exposure_weight (σ : Store F) (l l' : loc) :
  weight_at (alter Variant.record_exposure l σ) l' = weight_at σ l'.
Proof.
  unfold weight_at. rewrite lookup_total_alter. case_decide as E; [|reflexivity].
  subst l'. rewrite total_lookup. destruct (σ !! l); reflexivity.
Qed.

Lemma record_exposure_config (σ : Store F) (l : loc) (vs : list loc) :
  config (alter Variant.record_exposure l σ) vs = config σ vs.
Proof.
  unfold config. apply map_ext. intros l'.
  rewrite record_exposure_name, record_exposure_weight. reflexivity.
Qed.

Lemma config_weights (σ : Store F) (vs : list loc) :
  weights_of σ vs = map snd (config σ vs).
Proof. unfold weights_of, config. rewrite map_map. reflexivity. Qed.

Lemma config_lookup_name (σ : Store F) (vs : list loc) (i : nat) :
  option_map (name_at σ) (vs !! i) = option_map fst (config σ vs !! i).
Proof.
  unfold config. rewrite list_lookup_fmap. destruct (vs !! i); reflexivity.
Qed.

(** The name of the selected variant is a function of the drawn value and
    of the names and weights in list order. *)
Lemma selected_name_config (r : F) (σ1 σ2 : Store F) (vs1 vs2 : list loc) :
  config σ1 vs1 = config σ2 vs2 ->
  option_map (name_at σ1) (selected r σ1 vs1) =
  option_map (name_at σ2) (selected r σ2 vs2).
Proof.
  intros Hc. unfold selected. rewrite !config_weights, Hc.
  destruct (selected_index r (map snd (config σ2 vs2))); [|reflexivity].
  rewrite !config_lookup_name, Hc. reflexivity.
Qed.
End Assignment.

(** ** Construction, characterised *)

Section Construction.
Context {F : Type} `{PyNum F} {Rng : Type}.
Variable seed_rng : option Z -> Rng.

Abbreviation init := (Experiment.__init__ (F:=F) seed_rng).

Lemma for_each_normalize_eq (t : F) (vs : list loc) (σ : Store F) :
  for_each vs (Experiment.normalize t) σ = (Ok tt, normalized_store t vs σ).
Proof.
  revert σ. induction vs as [|l vs IH]; intros σ; [reflexivity|].
  simpl. unfold bind at 1. unfold Experiment.normalize at 1.
  unfold bind, load, modify. apply IH.
Qed.

(** The constructor as a three-way case split. *)
Lemma init_eq (name : string) (vs : list loc) (seed : option Z) (now : Z)
    (σ : Store F) :
  init name vs seed now σ =
    if Z.of_nat (length vs) <? 2 then
      (Raise (ValueError "Experiment must have at least 2 variants"), σ)
    else if fle (total (weights_of σ vs)) fzero then
      (Raise (ValueError "Total weight must be positive"), σ)
    else
      (Ok (Experiment.mk name vs now (seed_rng seed)),
       normalized_store (total (weights_of σ vs)) vs σ).
Proof.
  unfold Experiment.__init__.
  destruct (Z.of_nat (length vs) <? 2); [reflexivity|].
  unfold bind at 1. rewrite sum_weights_eq. fold (total (weights_of σ vs)).
  destruct (fle (total (weights_of σ vs)) fzero); [reflexivity|].
  unfold bind. rewrite for_each_normalize_eq. reflexivity.
Qed.

Lemma normalized_store_cons (t : F) (l0 : loc) (vs : list loc) (σ : Store F) :
  normalized_store t (l0 :: vs) σ =
    normalized_store t vs
      (alter (Variant.set_weight (fdiv (weight_at σ l0) t)) l0 σ).
Proof. reflexivity. Qed.

(** Objects outside the list are not touched by the loop. *)
Lemma normalized_store_other (t : F) (vs : list loc) (σ : Store F) (l : loc) :
  ~ In l vs -> normalized_store t vs σ !! l = σ !! l.
Proof.
  revert σ. induction vs as [|l0 vs IH]; intros σ Hnin; [reflexivity|].
  rewrite normalized_store_cons.
  rewrite IH; [|intros Hin; apply Hnin; right; exact Hin].
  apply lookup_alter_ne. intros ->. apply Hnin. left. reflexivity.
Qed.

(** An object listed once has its weight divided once; nothing else about
    it changes. *)
Lemma normalized_store_listed (t : F) (vs : list loc) (σ : Store F) (l : loc) :
  NoDup vs -> In l vs ->
  normalized_store t vs σ !! l =
    Variant.set_weight (fdiv (weight_at σ l) t) <$> σ !! l.
Proof.
  revert σ. induction vs as [|l0 vs IH]; intros σ Hnd Hin; [destruct Hin|].
  apply NoDup_cons in Hnd. destruct Hnd as [Hl0 Hnd].
  rewrite list_elem_of_In in Hl0. rewrite normalized_store_cons.
  destruct Hin as [<- | Hin].
  - rewrite normalized_store_other by exact Hl0. apply lookup_alter_eq.
  - assert (l0 <> l) as Hne by (intros ->; contradiction).
    rewrite IH by assumption. rewrite lookup_alter_ne by exact Hne.
    unfold weight_at. rewrite lookup_total_alter_ne by exact Hne. reflexivity.
Qed.

(** For distinct objects, the names and weights after the loop are a function
    of the names and weights before it. *)
Lemma normalized_store_config (t : F) (vs : list loc) (σ : Store F) :
  NoDup vs -> allocated σ vs ->
  config (normalized_store t vs σ) vs
    = map (fun nw => (fst nw, fdiv (snd nw) t)) (config σ vs).
Proof.
  intros Hnd Halloc. unfold config. rewrite map_map. apply map_ext_in.
  intros l Hl. destruct (Halloc l Hl) as [v Hv].
  pose proof (normalized_store_listed t vs σ l Hnd Hl) as Hnew.
  rewrite Hv in Hnew. cbn [fmap option_fmap option_map] in Hnew.
  unfold name_at, weight_at in *.
  rewrite (lookup_total_correct _ _ _ Hv) in Hnew |- *.
  rewrite (lookup_total_correct _ _ _ Hnew). reflexivity.
Qed.

(** Two successful constructions from distinct objects with the same names
    and weights in list order leave the same names and weights. *)
Lemma init_config_deterministic (name1 name2 : string) (vs1 vs2 : list loc)
    (seed1 seed2 : option Z) (now1 now2 : Z) (σ1 σ2 σ1' σ2' : Store F)
    (self1 self2 : Experiment.t Rng) :
  NoDup vs1 -> NoDup vs2 -> allocated σ1 vs1 -> allocated σ2 vs2 ->
  config σ1 vs1 = config σ2 vs2 ->
  init name1 vs1 seed1 now1 σ1 = (Ok self1, σ1') ->
  init name2 vs2 seed2 now2 σ2 = (Ok self2, σ2') ->
  config σ1' (Experiment.variants self1) = config σ2' (Experiment.variants self2).
Proof.
  intros Hnd1 Hnd2 Ha1 Ha2 Hcfg Hrun1 Hrun2.
  assert (Hw : weights_of σ1 vs1 = weights_of σ2 vs2).
  { unfold weights_of, config in *.
    apply (f_equal (map snd)) in Hcfg. rewrite !map_map in Hcfg. exact Hcfg. }
  rewrite init_eq in Hrun1. rewrite init_eq in Hrun2.
  destruct (Z.of_nat (length vs1) <? 2); [discriminate|].
  destruct (Z.of_nat (length vs2) <? 2); [discriminate|].
  destruct (fle (total (weights_of σ1 vs1)) fzero); [discriminate|].
  destruct (fle (total (weights_of σ2 vs2)) fzero); [discriminate|].
  injection Hrun1 as <- <-. injection Hrun2 as <- <-.
  cbn [Experiment.variants].
  rewrite !normalized_store_config by assumption. rewrite Hw, Hcfg. reflexivity.
Qed.
End Construction.

(** ** The comparison laws hold in both arithmetics *)

(** Swapping the arguments of a binary64 comparison reverses its outcome. *)
Lemma SFcompare_swap (x y : spec_float) :
  SFcompare y x = option_map CompOpp (SFcompare x y).
Proof.
  destruct x as [sx | sx | | sx mx ex], y as [sy | sy | | sy my ey];
    try reflexivity;
    try (destruct sx; reflexivity);
    try (destruct sy; reflexivity);
    try (destruct sx, sy; reflexivity).
  pose proof (Pos.compare_cont_antisym mx my Eq) as Hm. cbn [CompOpp] in Hm.
  destruct sx, sy; try reflexivity; cbn [SFcompare option_map];
    rewrite (Z.compare_antisym ex ey), <- Hm;
    destruct (ex ?= ey)%Z, (Pos.compare_cont Eq mx my); reflexivity.
Qed.

Lemma binary64_ltb_strict (x y : float) :
  (x <? y)%float = true ->
  (x <=? y)%float = true /\ (x =? y)%float = false /\
  (y <? x)%float = false /\ (y <=? x)%float = false.
Proof.
  rewrite !FloatAxioms.ltb_spec, !FloatAxioms.leb_spec, FloatAxioms.eqb_spec.
  unfold SFltb, SFleb, SFeqb.
  rewrite (SFcompare_swap (Prim2SF x) (Prim2SF y)).
  destruct (SFcompare (Prim2SF x) (Prim2SF y)) as [[]|]; cbn; intros;
    repeat split; congruence.
Qed.

Lemma binary64_ltb_irrefl (x : float) : (x <? x)%float = false.
Proof.
  pose proof (binary64_ltb_strict x x) as Hs.
  destruct (x <? x)%float; [|reflexivity].
  destruct (Hs eq_refl) as (_ & _ & E & _). exact E.
Qed.

#[export] Instance binary64_laws : PyNumLaws float.
Proof.
  constructor.
  - intros x. cbn [flt fle fzero binary64]. apply binary64_ltb_strict.
  - intros x y. cbn [flt fle binary64]. apply binary64_ltb_strict.
  - reflexivity.
  - reflexivity.
Qed.

#[export] Instance exact_laws : PyNumLaws R.
Proof.
  constructor.
  - intros x. cbn [flt fle fzero exact]. unfold Rltb, Rleb.
    destruct (Rlt_dec 0 x), (Rle_dec x 0); try reflexivity; try discriminate.
    lra.
  - intros x y. cbn [flt fle exact]. unfold Rltb, Rleb.
    destruct (Rlt_dec x y), (Rle_dec x y); try reflexivity; try discriminate.
    lra.
  - cbn [fle fzero exact]. unfold Rleb. destruct (Rle_dec 0 0); [reflexivity | lra].
  - cbn [fle fone exact]. unfold Rleb. destruct (Rle_dec 1 1); [reflexivity | lra].
Qed.

(** ** Binary64 arithmetic: rounding, quotients and signs *)

Section Truncation.
Variables N D e0 : Z.
Hypothesis HD : 0 < D.

Lemma shr_1_below (mrs : shr_record) (e : Z) :
  below N D e0 mrs e -> below N D e0 (shr_1 mrs) (e + 1).
Proof using HD.
  destruct mrs as [m r s]. unfold below. cbn [shr_m].
  intros (Hm & He & Hle & Hex).
  replace (e + 1 - e0) with (Z.succ (e - e0)) by lia.
  rewrite Z.pow_succ_r by lia.
  assert (HP : 0 < 2 ^ (e - e0)) by (apply Z.pow_pos_nonneg; lia).
  set (P := 2 ^ (e - e0)) in *.
  assert (HPD : 0 < P * D) by nia.
  destruct m as [|p|p]; [| |lia].
  - cbn [shr_1 shr_m loc_of_shr_record].
    split; [lia|]. split; [lia|]. split; [lia|].
    intros H0. rewrite Z.mul_0_l in Hex, H0. specialize (Hex H0).
    destruct r, s; cbn in Hex |- *; congruence.
  - destruct p as [p|p|]; cbn [shr_1 shr_m loc_of_shr_record].
    + rewrite Pos2Z.inj_xI in Hle, Hex.
      split; [lia|]. split; [lia|]. split; [nia|].
      intros Heq. exfalso. nia.
    + rewrite Pos2Z.inj_xO in Hle, Hex.
      split; [lia|]. split; [lia|]. split; [nia|].
      intros Heq. assert (Hex' : loc_of_shr_record {| shr_m := Z.pos p~0; shr_r := r; shr_s := s |} = loc_Exact) by (apply Hex; rewrite Pos2Z.inj_xO; nia).
      destruct r, s; cbn in Hex' |- *; congruence.
    + split; [lia|]. split; [lia|]. split; [nia|].
      intros Heq. exfalso. nia.
Qed.

Lemma iter_shr_1_below (p : positive) (mrs : shr_record) (e : Z) :
  below N D e0 mrs e -> below N D e0 (SpecFloat.iter_pos shr_1 p mrs) (e + Z.pos p).
Proof using HD.
  revert mrs e. induction p as [p IH | p IH |]; intros mrs e Hb; cbn [SpecFloat.iter_pos].
  - replace (e + Z.pos p~1) with (e + 1 + Z.pos p + Z.pos p) by lia.
    apply IH, IH, shr_1_below, Hb.
  - replace (e + Z.pos p~0) with (e + Z.pos p + Z.pos p) by lia.
    apply IH, IH, Hb.
  - apply shr_1_below, Hb.
Qed.

Lemma shr_below (mrs : shr_record) (e n : Z) :
  below N D e0 mrs e ->
  below N D e0 (fst (shr mrs e n)) (snd (shr mrs e n)).
Proof using HD.
  intros Hb. destruct n as [|p|p]; cbn [shr fst snd]; try exact Hb.
  apply iter_shr_1_below, Hb.
Qed.

Lemma shr_record_of_loc_m (m : Z) (l : location) :
  shr_m (shr_record_of_loc m l) = m.
Proof. destruct l as [|[]]; reflexivity. Qed.

Lemma loc_of_shr_record_of_loc (m : Z) (l : location) :
  loc_of_shr_record (shr_record_of_loc m l) = l.
Proof. destruct l as [|[]]; reflexivity. Qed.

Lemma shr_fexp_below (m e : Z) (l : location) :
  0 <= m -> e0 <= e -> m * 2 ^ (e - e0) * D <= N ->
  (m * 2 ^ (e - e0) * D = N -> l = loc_Exact) ->
  below N D e0 (fst (shr_fexp prec emax m e l)) (snd (shr_fexp prec emax m e l)).
Proof using HD.
  intros Hm He Hle Hex. unfold shr_fexp. apply shr_below.
  unfold below. rewrite shr_record_of_loc_m, loc_of_shr_record_of_loc. auto.
Qed.
End Truncation.

Lemma digits2_pos_size (p : positive) : digits2_pos p = Pos.size p.
Proof. induction p; cbn; congruence. Qed.

Lemma digits2_pos_bounds (p : positive) :
  2 ^ (Z.pos (digits2_pos p) - 1) <= Z.pos p < 2 ^ Z.pos (digits2_pos p).
Proof.
  rewrite digits2_pos_size.
  pose proof (Pos.size_gt p) as Hgt. pose proof (Pos.size_le p) as Hle.
  apply Pos2Z.pos_lt_pos in Hgt. apply Pos2Z.pos_le_pos in Hle.
  rewrite Pos2Z.inj_pow in Hgt, Hle.
  split; [|exact Hgt].
  replace (Z.pos (Pos.size p)) with (Z.succ (Z.pos (Pos.size p) - 1)) in Hle by lia.
  rewrite Z.pow_succ_r in Hle by lia. lia.
Qed.

Lemma shr_fexp_exponent (m e : Z) (l : location) :
  snd (shr_fexp prec emax m e l) = Z.max e (fexp prec emax (Zdigits2 m + e)).
Proof.
  unfold shr_fexp, shr.
  destruct (fexp prec emax (Zdigits2 m + e) - e) as [|p|p] eqn:E; cbn [snd]; lia.
Qed.

Lemma fexp_le_0 (k : Z) : k <= 53 -> fexp prec emax k <= 0.
Proof. unfold fexp, emin, prec, emax. lia. Qed.

(** Rounding a value that is at most 1 gives at most 1. *)
Lemma binary_round_aux_le_one (N D e0 m : Z) (l : location) :
  0 < D -> 0 <= m -> e0 <= 0 ->
  m * D <= N -> (m * D = N -> l = loc_Exact) -> N <= D * 2 ^ (- e0) ->
  match binary_round_aux prec emax false m e0 l with
  | S754_zero false => True
  | S754_finite false m' e' => e0 <= e' /\ Z.pos m' * 2 ^ (e' - e0) <= 2 ^ (- e0)
  | _ => False
  end.
Proof.
  intros HD Hm He0 Hle Hex Hone.
  unfold binary_round_aux.
  pose proof (shr_fexp_below N D e0 HD m e0 l Hm (Z.le_refl _)) as B1.
  rewrite Z.sub_diag, Z.pow_0_r, Z.mul_1_r in B1. specialize (B1 Hle Hex).
  pose proof (shr_fexp_exponent m e0 l) as E1.
  destruct (shr_fexp prec emax m e0 l) as [mrs1 e1]. cbn [fst snd] in B1, E1.
  destruct B1 as (Hm1 & He1 & Hle1 & Hex1).
  assert (Hb : 0 < 2 ^ (- e0)) by (apply Z.pow_pos_nonneg; lia).
  assert (He1' : e1 <= 0).
  { assert (fexp prec emax (Zdigits2 m + e0) <= 0); [|lia].
    apply fexp_le_0. destruct m as [|p|p]; [cbn; lia | | lia].
    cbn [Zdigits2]. pose proof (digits2_pos_bounds p) as [Hd _].
    assert (Z.pos p <= 2 ^ (- e0)) by nia.
    assert (Z.pos (digits2_pos p) - 1 <= - e0).
    { apply (Z.pow_le_mono_r_iff 2); lia. }
    lia. }
  set (m1 := shr_m mrs1) in *.
  set (mr := round_nearest_even m1 (loc_of_shr_record mrs1)).
  assert (HP : 0 < 2 ^ (e1 - e0)) by (apply Z.pow_pos_nonneg; lia).
  assert (Hsplit : 2 ^ (- e0) = 2 ^ (e1 - e0) * 2 ^ (- e1)).
  { rewrite <- Z.pow_add_r by lia. f_equal. lia. }
  assert (HQ : 0 < 2 ^ (- e1)) by (apply Z.pow_pos_nonneg; lia).
  assert (Hmr : 0 <= mr /\ mr * 2 ^ (e1 - e0) <= 2 ^ (- e0)).
  { assert (Hlow : m1 * 2 ^ (e1 - e0) <= 2 ^ (- e0)) by nia.
    assert (Hup : loc_of_shr_record mrs1 <> loc_Exact ->
                  (m1 + 1) * 2 ^ (e1 - e0) <= 2 ^ (- e0)).
    { intros Hne. assert (m1 * 2 ^ (e1 - e0) * D <> N) by (intros Heq; auto).
      assert (Hlt : m1 * 2 ^ (e1 - e0) < 2 ^ (- e0)) by nia.
      rewrite Hsplit in Hlt |- *.
      assert (m1 < 2 ^ (- e1)) by nia.
      pose proof (Z.mul_le_mono_nonneg_l (m1 + 1) (2 ^ (- e1)) (2 ^ (e1 - e0))
                    ltac:(lia) ltac:(lia)) as Hmul.
      lia. }
    unfold mr, round_nearest_even.
    destruct (loc_of_shr_record mrs1) as [|[]].
    - split; [lia | exact Hlow].
    - destruct (Z.even m1); (split; [lia|]); [exact Hlow | apply Hup; discriminate].
    - split; [lia | exact Hlow].
    - split; [lia | apply Hup; discriminate]. }
  destruct Hmr as [Hmr0 Hmr1].
  pose proof (shr_fexp_below mr 1 e1 Z.lt_0_1 mr e1 loc_Exact Hmr0 (Z.le_refl _)) as B2.
  rewrite Z.sub_diag, Z.pow_0_r, !Z.mul_1_r in B2.
  specialize (B2 (Z.le_refl _) (fun _ => eq_refl)).
  destruct (shr_fexp prec emax mr e1 loc_Exact) as [mrs2 e2]. cbn [fst snd] in B2.
  destruct B2 as (Hm2 & He2 & Hle2 & _). rewrite Z.mul_1_r in Hle2.
  assert (Hfin : shr_m mrs2 * 2 ^ (e2 - e0) <= 2 ^ (- e0)).
  { replace (e2 - e0) with ((e2 - e1) + (e1 - e0)) by lia.
    rewrite Z.pow_add_r by lia.
    assert (0 < 2 ^ (e2 - e1)) by (apply Z.pow_pos_nonneg; lia). nia. }
  destruct (shr_m mrs2) as [|p|p]; [exact I | | lia].
  assert (He2' : e2 <= 0).
  { assert (2 ^ (e2 - e0) <= 2 ^ (- e0)).
    { assert (0 < 2 ^ (e2 - e0)) by (apply Z.pow_pos_nonneg; lia). nia. }
    assert (e2 - e0 <= - e0) by (apply (Z.pow_le_mono_r_iff 2); lia). lia. }
  replace (e2 <=? emax - prec) with true
    by (symmetry; apply Z.leb_le; unfold emax, prec; lia).
  split; [lia | exact Hfin].
Qed.

Lemma Prim2SF_one : Prim2SF 1%float = S754_finite false 4503599627370496 (-52).
Proof. reflexivity. Qed.

Lemma Prim2SF_zero : Prim2SF 0%float = S754_zero false.
Proof. reflexivity. Qed.

(** A valid positive float whose value is at most 1 compares [<=] to 1. *)
Lemma SFleb_one (m : positive) (e e0 : Z) :
  valid_binary (S754_finite false m e) = true ->
  e0 <= e -> e0 <= 0 -> Z.pos m * 2 ^ (e - e0) <= 2 ^ (- e0) ->
  SFleb (S754_finite false m e) (S754_finite false 4503599627370496 (-52)) = true.
Proof.
  intros Hvalid He0 He00 Hle. unfold SFleb, SFcompare.
  destruct (Z.compare_spec e (-52)) as [Heq | Hlt | Hgt].
  - subst e.
    assert (Hsplit : 2 ^ (- e0) = 4503599627370496 * 2 ^ (-52 - e0)).
    { change 4503599627370496 with (2 ^ 52). rewrite <- Z.pow_add_r by lia.
      f_equal. lia. }
    assert (0 < 2 ^ (-52 - e0)) by (apply Z.pow_pos_nonneg; lia).
    assert (Hm : Z.pos m <= 4503599627370496) by nia.
    rewrite Pos.compare_cont_spec.
    destruct (m ?= 4503599627370496)%positive eqn:Ec; try reflexivity.
    exfalso. apply Pos.compare_gt_iff in Ec. lia.
  - reflexivity.
  - exfalso. unfold SpecFloat.valid_binary, SpecFloat.bounded in Hvalid.
    apply andb_true_iff in Hvalid. destruct Hvalid as [Hcan _].
    unfold SpecFloat.canonical_mantissa in Hcan. apply Z.eqb_eq in Hcan.
    unfold fexp, emin, prec, emax in Hcan.
    assert (Hd : Z.pos (digits2_pos m) = 53).
    { clear Hle.
      destruct (Z.max_spec (Z.pos (digits2_pos m) + e - 53) (3 - 1024 - 53));
        lia. }
    pose proof (digits2_pos_bounds m) as [Hlow _]. rewrite Hd in Hlow.
    change (2 ^ (53 - 1)) with 4503599627370496 in Hlow.
    assert (Hbig : 2 ^ (- e0) < 4503599627370496 * 2 ^ (e - e0)).
    { change 4503599627370496 with (2 ^ 52). rewrite <- Z.pow_add_r by lia.
      apply Z.pow_lt_mono_r; lia. }
    assert (0 < 2 ^ (e - e0)) by (apply Z.pow_pos_nonneg; lia).
    nia.
Qed.

Lemma iter_xO_value (p k : positive) :
  Z.pos (Pos.iter xO p k) = Z.pos p * 2 ^ Z.pos k.
Proof.
  induction k as [|k IH] using Pos.peano_ind.
  - cbn. lia.
  - rewrite Pos.iter_succ, Pos2Z.inj_xO, IH, Pos2Z.inj_succ, Z.pow_succ_r by lia.
    lia.
Qed.

Lemma iter_xO_digits (p k : positive) :
  digits2_pos (Pos.iter xO p k) = (digits2_pos p + k)%positive.
Proof.
  induction k as [|k IH] using Pos.peano_ind.
  - cbn. lia.
  - rewrite Pos.iter_succ. cbn [digits2_pos]. rewrite IH. lia.
Qed.

(** A mantissa already at its canonical exponent is left as it is. *)
Lemma binary_round_aux_exact (m : positive) (e : Z) :
  fexp prec emax (Z.pos (digits2_pos m) + e) = e -> e <= emax - prec ->
  binary_round_aux prec emax false (Z.pos m) e loc_Exact = S754_finite false m e.
Proof.
  intros Hcan He. unfold binary_round_aux, shr_fexp. cbn [Zdigits2].
  rewrite Hcan, Z.sub_diag.
  cbn [shr shr_record_of_loc shr_m loc_of_shr_record round_nearest_even Zdigits2].
  rewrite Hcan, Z.sub_diag. cbn [shr shr_record_of_loc shr_m].
  apply Z.leb_le in He. rewrite He. reflexivity.
Qed.

(** Converting a positive integer below 2^53 is exact. *)
Lemma binary_normalize_small (p : positive) :
  Z.pos p < 2 ^ 53 ->
  exists m e,
    binary_normalize prec emax (Z.pos p) 0 false = S754_finite false m e /\
    valid_binary (S754_finite false m e) = true /\
    e <= 0 /\ Z.pos m = Z.pos p * 2 ^ (- e) /\
    Z.pos (digits2_pos m) + e = Z.pos (digits2_pos p).
Proof.
  intros Hp. pose proof (digits2_pos_bounds p) as [Hlow _].
  assert (Hd : Z.pos (digits2_pos p) <= 53).
  { assert (Z.pos (digits2_pos p) - 1 < 53); [|lia].
    apply (Z.pow_lt_mono_r_iff 2); lia. }
  assert (Hfexp : fexp prec emax (Z.pos (digits2_pos p) + 0)
                  = Z.pos (digits2_pos p) - 53)
    by (unfold fexp, emin, prec, emax; lia).
  cbn [binary_normalize]. unfold binary_round, shl_align. rewrite Hfexp.
  destruct (Z.pos (digits2_pos p) - 53 - 0) as [|k|k] eqn:Ek; [| lia |].
  - exists p, 0. assert (Hcan : fexp prec emax (Z.pos (digits2_pos p) + 0) = 0)
      by (rewrite Hfexp; lia).
    split; [apply binary_round_aux_exact; [exact Hcan | unfold emax, prec; lia]|].
    split.
    { unfold SpecFloat.valid_binary, SpecFloat.bounded, SpecFloat.canonical_mantissa.
      rewrite Hcan. reflexivity. }
    split; [lia|]. split; [cbn; lia | lia].
  - exists (Pos.iter xO p k), (Z.pos (digits2_pos p) - 53).
    assert (Hcan : fexp prec emax (Z.pos (digits2_pos (Pos.iter xO p k))
                                   + (Z.pos (digits2_pos p) - 53))
                   = Z.pos (digits2_pos p) - 53).
    { rewrite iter_xO_digits. unfold fexp, emin, prec, emax. lia. }
    split; [apply binary_round_aux_exact; [exact Hcan | unfold emax, prec; lia]|].
    split.
    { unfold SpecFloat.valid_binary, SpecFloat.bounded, SpecFloat.canonical_mantissa.
      rewrite Hcan, Z.eqb_refl. cbn [andb]. apply Z.leb_le.
      unfold emax, prec. lia. }
    split; [lia|]. split.
    + rewrite iter_xO_value. f_equal. f_equal. lia.
    + rewrite iter_xO_digits. lia.
Qed.

Lemma Prim2SF_float_of_Z_pos (c : Z) :
  0 < c < 2 ^ 53 ->
  exists m e,
    Prim2SF (float_of_Z c) = S754_finite false m e /\
    e <= 0 /\ Z.pos m = c * 2 ^ (- e) /\
    Z.pos (digits2_pos m) + e = Zdigits2 c.
Proof.
  intros [Hc0 Hc1]. destruct c as [|p|p]; try lia.
  destruct (binary_normalize_small p Hc1) as (m & e & Hbn & Hvalid & He & Hm & Hd).
  exists m, e. unfold float_of_Z. rewrite Hbn.
  rewrite (Prim2SF_SF2Prim _ Hvalid). cbn [Zdigits2]. auto.
Qed.

Lemma new_location_exact (nb : Z) : new_location nb 0 = loc_Exact.
Proof.
  unfold new_location, new_location_even, new_location_odd.
  destruct (Z.even nb); reflexivity.
Qed.

(** The quotient of two positive floats, the first not above the second, is
    at most 1. *)
Lemma SFdiv_le_one (mc me : positive) (ec ee c e : Z) :
  0 < c <= e -> ec <= 0 -> ee <= 0 ->
  Z.pos mc = c * 2 ^ (- ec) -> Z.pos me = e * 2 ^ (- ee) ->
  Z.pos (digits2_pos mc) + ec <= Z.pos (digits2_pos me) + ee ->
  match SFdiv prec emax (S754_finite false mc ec) (S754_finite false me ee) with
  | S754_zero false => True
  | S754_finite false m' e' =>
      exists e0, e0 <= e' /\ e0 <= 0 /\ Z.pos m' * 2 ^ (e' - e0) <= 2 ^ (- e0)
  | _ => False
  end.
Proof.
  intros [Hc Hce] Hec Hee Hmc Hme Hdig.
  cbn [SFdiv xorb]. unfold SFdiv_core_binary. cbn [Zdigits2].
  set (e0 := Z.min (fexp prec emax (Z.pos (digits2_pos mc) + ec
                                    - (Z.pos (digits2_pos me) + ee)))
                   (ec - ee)).
  assert (He0 : e0 <= 0).
  { assert (fexp prec emax (Z.pos (digits2_pos mc) + ec
                            - (Z.pos (digits2_pos me) + ee)) <= 0)
      by (apply fexp_le_0; lia).
    unfold e0. lia. }
  assert (Hs : 0 <= ec - ee - e0) by (unfold e0; lia).
  set (m' := match ec - ee - e0 with
             | 0 => Z.pos mc
             | Z.pos _ => Z.shiftl (Z.pos mc) (ec - ee - e0)
             | Z.neg _ => 0
             end).
  assert (Hm' : m' = Z.pos mc * 2 ^ (ec - ee - e0)).
  { unfold m'. destruct (ec - ee - e0) as [|s|s] eqn:Es; [|rewrite Z.shiftl_mul_pow2|]; lia. }
  pose proof (Z_div_mod m' (Z.pos me) ltac:(lia)) as Hdiv.
  destruct (Z.div_eucl m' (Z.pos me)) as [q r]. destruct Hdiv as [Hq Hr].
  assert (HP : 0 < 2 ^ (ec - ee - e0)) by (apply Z.pow_pos_nonneg; lia).
  assert (Hq0 : 0 <= q) by nia.
  assert (Hone : m' <= Z.pos me * 2 ^ (- e0)).
  { rewrite Hm', Hmc, Hme, <- !Z.mul_assoc, <- !Z.pow_add_r by lia.
    replace (- ec + (ec - ee - e0)) with (- ee + - e0) by lia.
    apply Z.mul_le_mono_nonneg_r; [|exact Hce].
    apply Z.pow_nonneg. lia. }
  pose proof (binary_round_aux_le_one m' (Z.pos me) e0 q
                (new_location (Z.pos me) r) ltac:(lia) Hq0 He0 ltac:(nia)) as Hround.
  assert (Hex : q * Z.pos me = m' -> new_location (Z.pos me) r = loc_Exact).
  { intros Heq. assert (r = 0) by lia. subst r. apply new_location_exact. }
  specialize (Hround Hex Hone).
  destruct (binary_round_aux prec emax false q e0 (new_location (Z.pos me) r))
    as [[|] | | | [|] m2 e2]; try exact Hround.
  exists e0. destruct Hround as [H1 H2]. auto.
Qed.

Lemma Zdigits2_mono (c e : Z) : 0 < c <= e -> Zdigits2 c <= Zdigits2 e.
Proof.
  intros [Hc Hce]. destruct c as [|p|p], e as [|q|q]; try lia.
  cbn [Zdigits2]. pose proof (digits2_pos_bounds p) as [Hp _].
  pose proof (digits2_pos_bounds q) as [_ Hq].
  assert (Z.pos (digits2_pos p) - 1 < Z.pos (digits2_pos q)); [|lia].
  apply (Z.pow_lt_mono_r_iff 2); lia.
Qed.

(** In binary64, the quotient of two integers [0 <= c <= e], [e] positive
    and below 2^53, lies between 0 and 1. *)
Lemma binary64_quotient_unit (c e : Z) :
  0 <= c <= e -> 0 < e < 2 ^ 53 ->
  (0 <=? float_of_Z c / float_of_Z e)%float = true /\
  (float_of_Z c / float_of_Z e <=? 1)%float = true.
Proof.
  intros [Hc Hce] He.
  pose proof (Prim2SF_valid (float_of_Z c / float_of_Z e)) as Hvalid.
  rewrite !FloatAxioms.leb_spec, Prim2SF_zero, Prim2SF_one.
  rewrite FloatAxioms.div_spec in Hvalid |- *. unfold SF64div in *.
  destruct (Prim2SF_float_of_Z_pos e He) as (me & ee & Hpe & Hee & Hme & Hde).
  rewrite Hpe in *.
  destruct (Z.eq_dec c 0) as [-> | Hc0].
  - replace (Prim2SF (float_of_Z 0)) with (S754_zero false) by reflexivity.
    split; reflexivity.
  - destruct (Prim2SF_float_of_Z_pos c ltac:(lia)) as (mc & ec & Hpc & Hec & Hmc & Hdc).
    rewrite Hpc in *.
    pose proof (Zdigits2_mono c e ltac:(lia)) as Hdig.
    pose proof (SFdiv_le_one mc me ec ee c e ltac:(lia) Hec Hee Hmc Hme ltac:(lia))
      as Hq.
    destruct (SFdiv prec emax (S754_finite false mc ec) (S754_finite false me ee))
      as [[|] | | | [|] m' e']; try contradiction.
    + split; reflexivity.
    + destruct Hq as (e0 & He0 & He00 & Hle).
      split; [reflexivity|]. eapply SFleb_one; eassumption.
Qed.

Lemma sign_clear_nonneg (x : spec_float) :
  sf_sign_clear x = true -> sf_nonneg x = true.
Proof. destruct x as [[|] | [|] | | [|] m e]; cbn; congruence. Qed.

Lemma binary_round_aux_sign_clear (m e : Z) (l : location) :
  sf_sign_clear (binary_round_aux prec emax false m e l) = true.
Proof.
  unfold binary_round_aux.
  destruct (shr_fexp prec emax m e l) as [mrs1 e1].
  destruct (shr_fexp prec emax _ e1 loc_Exact) as [mrs2 e2].
  destruct (shr_m mrs2); [reflexivity | | reflexivity].
  destruct (e2 <=? emax - prec); reflexivity.
Qed.

Lemma binary_normalize_sign_clear (n e : Z) :
  0 <= n -> sf_sign_clear (binary_normalize prec emax n e false) = true.
Proof.
  intros Hn. destruct n as [|p|p]; [reflexivity | | lia].
  cbn [binary_normalize]. unfold binary_round.
  destruct (shl_align _ _ _) as [mz ez]. apply binary_round_aux_sign_clear.
Qed.

Lemma Prim2SF_float_of_Z_sign_clear (n : Z) :
  0 <= n -> sf_sign_clear (Prim2SF (float_of_Z n)) = true.
Proof.
  intros Hn. unfold float_of_Z.
  pose proof (binary_normalize_sign_clear n 0 Hn) as Hc.
  destruct (binary_normalize prec emax n 0 false) as [[|] | [|] | | [|] m e];
    try discriminate; try reflexivity.
  cbn [SF2Prim]. rewrite Z_ldexp_spec, of_uint63_spec.
  pose proof (binary_normalize_sign_clear (Uint63.to_Z (Uint63.of_Z (Z.pos m))) 0
                ltac:(apply Uint63.to_Z_bounded)) as Hc'.
  destruct (binary_normalize prec emax _ 0 false) as [[|] | [|] | | [|] m' e'];
    try discriminate; try reflexivity.
  cbn [SFldexp]. unfold binary_round.
  destruct (shl_align _ _ _) as [mz ez]. apply binary_round_aux_sign_clear.
Qed.

Lemma SFmul_nonneg (x y : spec_float) :
  sf_nonneg x = true -> sf_nonneg y = true ->
  sf_nonneg (SFmul prec emax x y) = true.
Proof.
  destruct x as [[|] | [|] | | [|] mx ex], y as [[|] | [|] | | [|] my ey];
    cbn [sf_nonneg SFmul xorb]; try congruence; try reflexivity; intros _ _.
  apply sign_clear_nonneg, binary_round_aux_sign_clear.
Qed.

Lemma SFmul_self_nonneg (x : spec_float) :
  sf_nonneg (SFmul prec emax x x) = true.
Proof.
  destruct x as [[|] | [|] | | [|] mx ex]; cbn [sf_nonneg SFmul xorb];
    try reflexivity; apply sign_clear_nonneg, binary_round_aux_sign_clear.
Qed.

Lemma SFadd_nonneg (x y : spec_float) :
  sf_nonneg x = true -> sf_nonneg y = true ->
  sf_nonneg (SFadd prec emax x y) = true.
Proof.
  destruct x as [[|] | [|] | | [|] mx ex], y as [[|] | [|] | | [|] my ey];
    cbn [sf_nonneg SFadd]; try congruence; try reflexivity; intros _ _.
  cbn [cond_Zopp]. apply sign_clear_nonneg, binary_normalize_sign_clear. lia.
Qed.

Lemma SFdiv_nonneg (x y : spec_float) :
  sf_nonneg x = true -> sf_sign_clear y = true ->
  sf_nonneg (SFdiv prec emax x y) = true.
Proof.
  destruct x as [[|] | [|] | | [|] mx ex], y as [[|] | [|] | | [|] my ey];
    cbn [sf_nonneg sf_sign_clear SFdiv xorb]; try congruence; try reflexivity;
    intros _ _.
  destruct (SFdiv_core_binary _ _ _ _ _ _) as [[mz ez] lz].
  apply sign_clear_nonneg, binary_round_aux_sign_clear.
Qed.

Lemma ltb_zero_nonneg (x : float) :
  sf_nonneg (Prim2SF x) = true -> (x <? 0)%float = false.
Proof.
  rewrite FloatAxioms.ltb_spec, Prim2SF_zero. unfold SFltb.
  destruct (Prim2SF x) as [[|] | [|] | | [|] m e]; cbn; congruence.
Qed.

Lemma shl_align_value (mx : positive) (ex ex' : Z) :
  ex' <= ex -> Z.pos (fst (shl_align mx ex ex')) = Z.pos mx * 2 ^ (ex - ex').
Proof.
  intros Hle. unfold shl_align.
  destruct (ex' - ex) as [|d|d] eqn:Ed; cbn [fst].
  - replace (ex - ex') with 0 by lia. lia.
  - lia.
  - rewrite iter_xO_value. f_equal. f_equal. lia.
Qed.

(** [1 - p] is not negative when [0 <= p <= 1]. *)
Lemma one_minus_nonneg (p : float) :
  (0 <=? p)%float = true -> (p <=? 1)%float = true ->
  sf_nonneg (Prim2SF (1 - p)%float) = true.
Proof.
  pose proof (Prim2SF_valid p) as Hvalid.
  rewrite !FloatAxioms.leb_spec, FloatAxioms.sub_spec, Prim2SF_zero, Prim2SF_one.
  unfold SF64sub.
  destruct (Prim2SF p) as [[|] | [|] | | [|] mp ep]; cbn [SFleb SFcompare];
    try discriminate; try reflexivity.
  intros _ Hle. cbn [SFsub cond_Zopp].
  apply sign_clear_nonneg, binary_normalize_sign_clear.
  rewrite !shl_align_value by lia.
  unfold SpecFloat.valid_binary, SpecFloat.bounded in Hvalid.
  apply andb_true_iff in Hvalid. destruct Hvalid as [Hcan _].
  unfold SpecFloat.canonical_mantissa in Hcan. apply Z.eqb_eq in Hcan.
  assert (Hd : Z.pos (digits2_pos mp) <= 53)
    by (unfold fexp, emin, prec, emax in Hcan; lia).
  pose proof (digits2_pos_bounds mp) as [_ Hmp].
  assert (Hmp' : Z.pos mp < 2 ^ 53).
  { eapply Z.lt_le_trans; [exact Hmp|]. apply Z.pow_le_mono_r; lia. }
  destruct (Z.compare_spec ep (-52)) as [Heq | Hlt | Hgt]; [| |discriminate].
  - subst ep. rewrite Z.min_id, Z.sub_diag, Z.pow_0_r.
    rewrite Pos.compare_cont_spec in Hle. cbn [Pos.switch_Eq] in Hle.
    destruct (mp ?= 4503599627370496)%positive eqn:Ec; try discriminate.
    + apply Pos.compare_eq in Ec. subst mp. clear. lia.
    + apply Pos.compare_lt_iff in Ec. apply Pos2Z.pos_lt_pos in Ec.
      clear - Ec. lia.
  - replace (Z.min (-52) ep) with ep by lia.
    rewrite Z.sub_diag, Z.pow_0_r.
    assert (2 ^ 53 <= 4503599627370496 * 2 ^ (-52 - ep)).
    { change 4503599627370496 with (2 ^ 52). rewrite <- Z.pow_add_r by lia.
      apply Z.pow_le_mono_r; lia. }
    clear - H Hmp'. lia.
Qed.

Lemma leb_zero_nonneg (x : float) :
  (0 <=? x)%float = true -> sf_nonneg (Prim2SF x) = true.
Proof.
  rewrite FloatAxioms.leb_spec, Prim2SF_zero. unfold SFleb.
  destruct (Prim2SF x) as [[|] | [|] | | [|] m e]; cbn; congruence.
Qed.

Lemma mul_nonneg (x y : float) :
  sf_nonneg (Prim2SF x) = true -> sf_nonneg (Prim2SF y) = true ->
  sf_nonneg (Prim2SF (x * y)%float) = true.
Proof. rewrite FloatAxioms.mul_spec. apply SFmul_nonneg. Qed.

Lemma mul_self_nonneg (x : float) : sf_nonneg (Prim2SF (x * x)%float) = true.
Proof. rewrite FloatAxioms.mul_spec. apply SFmul_self_nonneg. Qed.

Lemma add_nonneg (x y : float) :
  sf_nonneg (Prim2SF x) = true -> sf_nonneg (Prim2SF y) = true ->
  sf_nonneg (Prim2SF (x + y)%float) = true.
Proof. rewrite FloatAxioms.add_spec. apply SFadd_nonneg. Qed.

Lemma div_int_nonneg (x : float) (n : Z) :
  sf_nonneg (Prim2SF x) = true -> 0 <= n ->
  sf_nonneg (Prim2SF (x / float_of_Z n)%float) = true.
Proof.
  intros Hx Hn. rewrite FloatAxioms.div_spec.
  apply SFdiv_nonneg; [exact Hx | apply Prim2SF_float_of_Z_sign_clear, Hn].
Qed.

Lemma float_of_Z_nonneg (n : Z) :
  0 <= n -> sf_nonneg (Prim2SF (float_of_Z n)) = true.
Proof. intros Hn. apply sign_clear_nonneg, Prim2SF_float_of_Z_sign_clear, Hn. Qed.

(** [p * (1 - p)] is not negative for a binary64 [p] between 0 and 1. *)
Lemma unit_variance_nonneg (p : float) :
  (0 <=? p)%float = true -> (p <=? 1)%float = true ->
  sf_nonneg (Prim2SF (p * (1 - p))%float) = true.
Proof.
  intros H0 H1. apply mul_nonneg; [apply leb_zero_nonneg, H0|].
  apply one_minus_nonneg; assumption.
Qed.

(** ** Sums of weights in exact arithmetic *)

Section ExactSums.
Local Open Scope R_scope.

Lemma cumulative_exact_cons (a w : R) (ws : list R) :
  cumulative a (w :: ws) = cumulative (a + w) ws.
Proof. reflexivity. Qed.



Lemma cumulative_exact_div {A} (f : A -> R) (t : R) (xs : list A) (a : R) :
  cumulative (a / t) (map (fun x => f x / t) xs)
    = cumulative a (map f xs) / t.
Proof.
  revert a. induction xs as [|x xs IH]; intros a; [reflexivity|].
  cbn [map]. rewrite !cumulative_exact_cons.
  replace (a / t + f x / t) with ((a + f x) / t) by (unfold Rdiv; ring).
  apply IH.
Qed.
End ExactSums.

(** ** Construction: the claims *)

(** C10. When the constructor raises, the store it leaves is the store it was
    given: every caller-supplied [Variant] keeps its weight, counters and
    metadata, and the exception is one of the two validation errors. *)
Theorem init_failure_leaves_variants :
  forall (F : Type) (N : PyNum F) (Rng : Type) (seed_rng : option Z -> Rng)
         (name : string) (vs : list loc) (seed : option Z) (now : Z)
         (σ σ' : Store F) (e : Exception),
    Experiment.__init__ seed_rng name vs seed now σ = (Raise e, σ') ->
    σ' = σ /\
    (e = ValueError "Experiment must have at least 2 variants" \/
     e = ValueError "Total weight must be positive").
Proof.
  intros F N Rng seed_rng name vs seed now σ σ' e Hrun.
  rewrite init_eq in Hrun.
  destruct (Z.of_nat (length vs) <? 2).
  - injection Hrun as <- <-. auto.
  - destruct (fle (total (weights_of σ vs)) fzero); [|discriminate].
    injection Hrun as <- <-. auto.
Qed.

Lemma init_failure_leaves_variants_witness :
  snd (Experiment.__init__ no_rng_seed "exp" [0%nat; 1%nat] None 0
         (two_arms 1%float (-1)%float))
    = two_arms 1%float (-1)%float /\
  (ValueError "Total weight must be positive"
     = ValueError "Experiment must have at least 2 variants" \/
   ValueError "Total weight must be positive"
     = ValueError "Total weight must be positive").
Proof.
  apply (init_failure_leaves_variants float binary64 unit no_rng_seed
           "exp" [0%nat; 1%nat] None 0 (two_arms 1%float (-1)%float)).
  vm_compute. reflexivity.
Defined.

(** C5. The constructor raises exactly when fewer than two variants are
    supplied or the sum of the supplied weights compares [<= 0]; what it
    raises is a [ValueError]; and with at least two variants and a sum that
    compares [> 0] it returns an experiment. *)
Theorem init_fails_iff :
  forall (F : Type) (N : PyNum F) (L : PyNumLaws F) (Rng : Type)
         (seed_rng : option Z -> Rng)
         (name : string) (vs : list loc) (seed : option Z) (now : Z)
         (σ : Store F),
    let run := Experiment.__init__ seed_rng name vs seed now σ in
    ((exists msg σ', run = (Raise (ValueError msg), σ')) <->
     ((length vs < 2)%nat \/ fle (total (weights_of σ vs)) fzero = true)) /\
    (forall e σ', run = (Raise e, σ') -> exists msg, e = ValueError msg) /\
    ((2 <= length vs)%nat -> flt fzero (total (weights_of σ vs)) = true ->
     exists self σ', run = (Ok self, σ')).
Proof.
  intros F N L Rng seed_rng name vs seed now σ run.
  unfold run. rewrite init_eq.
  destruct (Z.of_nat (length vs) <? 2) eqn:Elen.
  - apply Z.ltb_lt in Elen. split; [|split].
    + split; [intros _; left; lia | intros _; eauto].
    + intros e σ' [= <- _]. eauto.
    + intros Hlen. lia.
  - apply Z.ltb_ge in Elen.
    destruct (fle (total (weights_of σ vs)) fzero) eqn:Etot.
    + split; [|split].
      * split; [intros _; right; reflexivity | intros _; eauto].
      * intros e σ' [= <- _]. eauto.
      * intros _ Hpos. apply flt_zero_not_fle in Hpos. congruence.
    + split; [|split].
      * split; [intros (msg & σ' & Hr); discriminate|].
        intros [Hlen | Habs]; [lia | discriminate].
      * intros e σ' Hr. discriminate.
      * intros _ _. eauto.
Qed.

Lemma init_fails_iff_witness :
  exists self σ',
    Experiment.__init__ no_rng_seed "exp" [0%nat; 1%nat] None 0
      (two_arms 3%float 1%float) = (Ok self, σ').
Proof.
  apply (init_fails_iff float binary64 binary64_laws unit no_rng_seed
           "exp" [0%nat; 1%nat] None 0 (two_arms 3%float 1%float)).
  - simpl. lia.
  - vm_compute. reflexivity.
Defined.


(** The same [Variant] object listed twice is divided twice: weight 2.0
    ends as 0.125 at both positions, and the weights sum to 0.25. *)
Example init_divides_shared_variant_twice :
  let run := Experiment.__init__ no_rng_seed "exp" [0%nat; 0%nat] None 0
               (<[0%nat := Variant.new "control" 2%float]> ∅) in
  is_ok (fst run) = true /\
  weights_of (snd run) [0%nat; 0%nat] = [0.125%float; 0.125%float] /\
  total (weights_of (snd run) [0%nat; 0%nat]) = 0.25%float.
Proof. vm_compute. repeat split. Qed.

(** In binary64 the sum can overflow: two weights of 1e308 sum to infinity,
    which passes the check, and both weights become 0.0. *)
Example init_overflowing_sum :
  let run := Experiment.__init__ no_rng_seed "exp" [0%nat; 1%nat] None 0
               (two_arms 0x1.1ccf385ebc8a0p+1023%float
                         0x1.1ccf385ebc8a0p+1023%float) in
  is_ok (fst run) = true /\
  weights_of (snd run) [0%nat; 1%nat] = [0%float; 0%float].
Proof. vm_compute. repeat split. Qed.



(** ** Assignment and conversions: the claims *)

Section Counters.
Context {F : Type} `{PyNum F}.

Lemma recorded_exposure (σ : Store F) (l : loc) :
  is_Some (σ !! l) ->
  exposures_at (alter Variant.record_exposure l σ) l = exposures_at σ l + 1 /\
  conversions_at (alter Variant.record_exposure l σ) l = conversions_at σ l.
Proof.
  intros [v Hv]. unfold exposures_at, conversions_at.
  rewrite lookup_total_alter_eq, (lookup_total_correct _ _ _ Hv), Hv.
  split; reflexivity.
Qed.

Lemma recorded_conversion (σ : Store F) (l : loc) :
  is_Some (σ !! l) ->
  conversions_at (alter Variant.record_conversion l σ) l
    = conversions_at σ l + 1 /\
  exposures_at (alter Variant.record_conversion l σ) l = exposures_at σ l.
Proof.
  intros [v Hv]. unfold exposures_at, conversions_at.
  rewrite lookup_total_alter_eq, (lookup_total_correct _ _ _ Hv), Hv.
  split; reflexivity.
Qed.
End Counters.

(** C3. On a non-empty list of variants [assign_variant] returns, whatever
    the user id (or none) and whatever the weights: the result is a listed
    variant, its exposure counter has grown by exactly 1, its conversion
    counter and every other object are unchanged, and when no cumulative
    weight reaches the drawn value the result is the last variant. *)
Theorem assign_variant_total :
  forall (F : Type) (N : PyNum F) (Rng : Type)
         (next_random : Rng -> F * Rng) (hash : string -> Z)
         (self : Experiment.t Rng) (user_id : option string) (σ : Store F),
    Experiment.variants self <> [] ->
    allocated σ (Experiment.variants self) ->
    let vs := Experiment.variants self in
    let r := fst (Experiment.draw next_random hash self user_id) in
    exists l self' σ',
      Experiment.assign_variant next_random hash self user_id σ
        = (Ok (l, self'), σ') /\
      In l vs /\
      Experiment.variants self' = vs /\
      σ' = alter Variant.record_exposure l σ /\
      exposures_at σ' l = exposures_at σ l + 1 /\
      conversions_at σ' l = conversions_at σ l /\
      (forall l', l' <> l -> σ' !! l' = σ !! l') /\
      ((forall j, (j < length vs)%nat ->
          fle r (cumulative fzero (take (S j) (weights_of σ vs))) = false) ->
       last vs = Some l).
Proof.
  intros F N Rng next_random hash self user_id σ Hne Halloc vs r.
  rewrite assign_variant_eq. fold r. fold vs. cbv zeta.
  unfold selected.
  destruct (selected_index_nonempty r (weights_of σ vs)) as [i Hi].
  { intros Hw. apply Hne. unfold weights_of in Hw.
    apply map_eq_nil in Hw. exact Hw. }
  rewrite Hi. pose proof (selected_index_lt _ _ _ Hi) as Hlt.
  rewrite weights_of_length in Hlt.
  destruct (lookup_lt_is_Some_2 vs i Hlt) as [l Hl]. rewrite Hl.
  assert (Hin : In l vs).
  { apply list_elem_of_In. eapply list_elem_of_lookup_2, Hl. }
  destruct (recorded_exposure σ l (Halloc l Hin)) as [Hexp Hconv].
  eexists l, _, _. split; [reflexivity|].
  split; [exact Hin|]. split; [reflexivity|]. split; [reflexivity|].
  split; [exact Hexp|]. split; [exact Hconv|]. split.
  - intros l' Hl'. apply lookup_alter_ne. congruence.
  - intros Hnone.
    assert (Hb : bucket r fzero (weights_of σ vs) = None).
    { apply bucket_None. intros j Hj. apply Hnone.
      rewrite weights_of_length in Hj. exact Hj. }
    unfold selected_index in Hi. rewrite Hb in Hi.
    rewrite last_lookup. rewrite <- Hl.
    pose proof (weights_of_length σ vs) as Hlen.
    destruct (weights_of σ vs) as [|w ws]; [discriminate|].
    injection Hi as <-. rewrite <- Hlen. reflexivity.
Qed.

(** C8. [record_conversion] returns true and adds exactly 1 to the
    conversion counter of the first listed variant with the given name,
    changing nothing else, when some listed variant has that name; it returns
    false and leaves the store as it was when none has. *)
Theorem record_conversion_spec :
  forall (F : Type) (N : PyNum F) (Rng : Type)
         (self : Experiment.t Rng) (variant_name : string) (σ : Store F),
    allocated σ (Experiment.variants self) ->
    let vs := Experiment.variants self in
    ((exists l, In l vs /\ name_at σ l = variant_name) ->
     exists l σ',
       Experiment.record_conversion self variant_name σ = (Ok true, σ') /\
       In l vs /\ name_at σ l = variant_name /\
       σ' = alter Variant.record_conversion l σ /\
       conversions_at σ' l = conversions_at σ l + 1 /\
       exposures_at σ' l = exposures_at σ l /\
       (forall l', l' <> l -> σ' !! l' = σ !! l')) /\
    ((forall l, In l vs -> name_at σ l <> variant_name) ->
     Experiment.record_conversion self variant_name σ = (Ok false, σ)).
Proof.
  intros F N Rng self variant_name σ Halloc vs.
  destruct (find_variant_unchanged variant_name vs σ) as [hit Hfind].
  assert (Hrun : Experiment.record_conversion self variant_name σ =
                 match hit with
                 | Some l => (Ok true, alter Variant.record_conversion l σ)
                 | None => (Ok false, σ)
                 end).
  { unfold Experiment.record_conversion, bind at 1. fold vs. rewrite Hfind.
    destruct hit; reflexivity. }
  rewrite Hrun. split.
  - intros (l0 & Hl0 & Hname0). destruct hit as [l|].
    + apply find_variant_Some in Hfind. destruct Hfind as (i & Hi & Hname & _).
      assert (Hin : In l vs).
      { apply list_elem_of_In. eapply list_elem_of_lookup_2, Hi. }
      destruct (recorded_conversion σ l (Halloc l Hin)) as [Hconv Hexp].
      exists l, (alter Variant.record_conversion l σ).
      split; [reflexivity|]. split; [exact Hin|]. split; [exact Hname|].
      split; [reflexivity|]. split; [exact Hconv|]. split; [exact Hexp|].
      intros l' Hl'. apply lookup_alter_ne. congruence.
    + exfalso. apply (proj1 (find_variant_None _ _ _) Hfind l0 Hl0 Hname0).
  - intros Hnone. apply find_variant_None in Hnone.
    rewrite Hnone in Hfind. injection Hfind as <-. reflexivity.
Qed.

Lemma demo_allocated {F : Type} `{PyNum F} (w0 w1 : F) :
  allocated (two_arms w0 w1) [0%nat; 1%nat].
Proof. intros l [<- | [<- | []]]; eexists; reflexivity. Qed.

Lemma assign_variant_total_witness :
  exists l self' σ',
    Experiment.assign_variant no_rng_next length_hash demo_experiment
      (Some "user123") (two_arms 0.5%float 0.5%float) = (Ok (l, self'), σ') /\
    In l [0%nat; 1%nat] /\
    Experiment.variants self' = [0%nat; 1%nat] /\
    σ' = alter Variant.record_exposure l (two_arms 0.5%float 0.5%float) /\
    exposures_at σ' l = exposures_at (two_arms 0.5%float 0.5%float) l + 1 /\
    conversions_at σ' l = conversions_at (two_arms 0.5%float 0.5%float) l /\
    (forall l', l' <> l -> σ' !! l' = two_arms 0.5%float 0.5%float !! l') /\
    ((forall j, (j < 2)%nat ->
        fle (fst (Experiment.draw no_rng_next length_hash demo_experiment
                    (Some "user123")))
            (cumulative fzero
               (take (S j) (weights_of (two_arms 0.5%float 0.5%float)
                              [0%nat; 1%nat]))) = false) ->
     last [0%nat; 1%nat] = Some l).
Proof.
  apply (assign_variant_total float binary64 unit no_rng_next length_hash
           demo_experiment (Some "user123") (two_arms 0.5%float 0.5%float)).
  - discriminate.
  - apply demo_allocated.
Defined.

Lemma record_conversion_spec_witness :
  ((exists l, In l [0%nat; 1%nat] /\
      name_at (two_arms 0.5%float 0.5%float) l = "control") ->
   exists l σ',
     Experiment.record_conversion demo_experiment "control"
       (two_arms 0.5%float 0.5%float) = (Ok true, σ') /\
     In l [0%nat; 1%nat] /\
     name_at (two_arms 0.5%float 0.5%float) l = "control" /\
     σ' = alter Variant.record_conversion l (two_arms 0.5%float 0.5%float) /\
     conversions_at σ' l
       = conversions_at (two_arms 0.5%float 0.5%float) l + 1 /\
     exposures_at σ' l = exposures_at (two_arms 0.5%float 0.5%float) l /\
     (forall l', l' <> l -> σ' !! l' = two_arms 0.5%float 0.5%float !! l')) /\
  ((forall l, In l [0%nat; 1%nat] ->
      name_at (two_arms 0.5%float 0.5%float) l <> "control") ->
   Experiment.record_conversion demo_experiment "control"
     (two_arms 0.5%float 0.5%float)
     = (Ok false, two_arms 0.5%float 0.5%float)).
Proof.
  apply (record_conversion_spec float binary64 unit demo_experiment "control"
           (two_arms 0.5%float 0.5%float)).
  apply demo_allocated.
Defined.

(** The two branches of [record_conversion] on a concrete experiment. *)
Example record_conversion_runs :
  Experiment.record_conversion demo_experiment "control"
    (two_arms 0.5%float 0.5%float)
    = (Ok true,
       <[0%nat := Variant.mk "control" 0.5%float 1 0 ∅]>
         (two_arms 0.5%float 0.5%float)) /\
  Experiment.record_conversion demo_experiment "invalid"
    (two_arms 0.5%float 0.5%float)
    = (Ok false, two_arms 0.5%float 0.5%float).
Proof. split; vm_compute; reflexivity. Qed.

(** ** Conversion rate *)


(** The rate of the test suite: 25 conversions in 100 exposures is 0.25. *)
Example conversion_rate_quarter :
  Variant.conversion_rate (Variant.mk "control" 1%float 25 100 ∅) = 0.25%float.
Proof. vm_compute. reflexivity. Qed.

(** ** Significance *)

(** C9. [is_statistically_significant] is the comparison [p_value < alpha]:
    strict, so never true of equal arguments, and false at (0.05, 0.05); in
    exact arithmetic it is true exactly when [p_value < alpha]. *)
Theorem is_statistically_significant_strict :
  (forall p_value alpha : float,
      Statistics.is_statistically_significant p_value alpha = true <->
      (p_value <? alpha)%float = true) /\
  (forall p_value alpha : float,
      Statistics.is_statistically_significant p_value alpha = true ->
      (p_value =? alpha)%float = false /\
      (alpha <=? p_value)%float = false) /\
  (forall p_value : float,
      Statistics.is_statistically_significant p_value p_value = false) /\
  Statistics.is_statistically_significant
    0x1.999999999999ap-5%float 0x1.999999999999ap-5%float = false /\
  (forall p_value alpha : R,
      Statistics.is_statistically_significant p_value alpha = true <->
      (p_value < alpha)%R).
Proof.
  split; [|split; [|split; [|split]]].
  - intros p_value alpha. reflexivity.
  - intros p_value alpha Hsig. apply binary64_ltb_strict in Hsig. tauto.
  - intros p_value. apply binary64_ltb_irrefl.
  - reflexivity.
  - intros p_value alpha. unfold Statistics.is_statistically_significant.
    cbn [flt exact]. unfold Rltb.
    destruct (Rlt_dec p_value alpha); split; intros; try assumption;
      try reflexivity; try discriminate; contradiction.
Qed.

(** The two other cases of the test suite: 0.01 against 0.05, and 0.1 against
    0.05 (the literals as binary64 numbers). *)
Example is_statistically_significant_cases :
  Statistics.is_statistically_significant
    0x1.47ae147ae147bp-7%float 0x1.999999999999ap-5%float = true /\
  Statistics.is_statistically_significant
    0x1.999999999999ap-4%float 0x1.999999999999ap-5%float = false.
Proof. repeat split. Qed.

(** ** The two-proportion z-test *)

(** C7, as stated, fails: with positive exposures the function still raises
    when the pooled proportion lies outside [0, 1].
    [z_test_proportions(20, 10, 20, 10)] has pooled proportion 2.0, so
    [math.sqrt] gets the negative number 2.0 * (1 - 2.0) * (0.1 + 0.1) and
    raises [ValueError]. *)
Lemma z_test_proportions_domain_error :
  Statistics.z_test_proportions (F:=float) (fun x => x) 20 10 20 10 true
    = Raise (ValueError "math domain error").
Proof. vm_compute. reflexivity. Qed.

(** In exact arithmetic the argument of the square root is not negative when
    the pooled conversions lie between 0 and the pooled exposures. *)
Lemma pooled_variance_nonneg (c_ab e_a e_b : Z) :
  0 < e_a -> 0 < e_b -> 0 <= c_ab <= e_a + e_b ->
  (0 <= IZR c_ab / IZR (e_a + e_b) * (1 - IZR c_ab / IZR (e_a + e_b))
        * (1 / IZR e_a + 1 / IZR e_b))%R.
Proof.
  intros Ha Hb [Hc0 Hc1].
  assert (0 < IZR e_a)%R by (apply IZR_lt; lia).
  assert (0 < IZR e_b)%R by (apply IZR_lt; lia).
  assert (0 < IZR (e_a + e_b))%R by (apply IZR_lt; lia).
  assert (0 <= IZR c_ab)%R by (apply IZR_le; lia).
  assert (IZR c_ab <= IZR (e_a + e_b))%R by (apply IZR_le; lia).
  assert (Hp0 : (0 <= IZR c_ab / IZR (e_a + e_b))%R)
    by (apply Rle_mult_inv_pos; assumption).
  assert (Hp1 : (IZR c_ab / IZR (e_a + e_b) <= 1)%R).
  { apply (Rmult_le_reg_r (IZR (e_a + e_b))); [assumption|].
    unfold Rdiv. rewrite Rmult_assoc, Rinv_l by lra. lra. }
  assert (0 < 1 / IZR e_a)%R by (apply Rdiv_lt_0_compat; lra).
  assert (0 < 1 / IZR e_b)%R by (apply Rdiv_lt_0_compat; lra).
  apply Rmult_le_pos; [apply Rmult_le_pos|]; lra.
Qed.

(** In binary64, with the conversions of each variant between 0 and its
    exposures and the pooled exposures below 2^53 (so that every division of
    two [int]s is the interpreter's), the square root of the z-test gets no
    negative argument. *)
Lemma binary64_z_test_returns (norm_cdf : float -> float)
    (conversions_a exposures_a conversions_b exposures_b : Z)
    (two_tailed : bool) :
  0 < exposures_a -> 0 < exposures_b ->
  0 <= conversions_a <= exposures_a -> 0 <= conversions_b <= exposures_b ->
  exposures_a + exposures_b < 2 ^ 53 ->
  exists r,
    Statistics.z_test_proportions norm_cdf conversions_a exposures_a
      conversions_b exposures_b two_tailed = Ok r.
Proof.
  intros Ha Hb Hca Hcb Hbig.
  assert (Hc : 0 <= conversions_a + conversions_b <= exposures_a + exposures_b)
    by lia.
  unfold Statistics.z_test_proportions.
  replace ((exposures_a <=? 0) || (exposures_b <=? 0)) with false
    by (symmetry; apply orb_false_iff; split; apply Z.leb_gt; assumption).
  unfold Statistics.math_sqrt, truediv.
  cbn [flt fmul fsub fadd fdiv fone fzero of_int binary64].
  destruct (binary64_quotient_unit (conversions_a + conversions_b)
              (exposures_a + exposures_b) Hc ltac:(lia)) as [Hp0 Hp1].
  rewrite ltb_zero_nonneg.
  - destruct (feq _ _); eexists; reflexivity.
  - apply mul_nonneg; [apply unit_variance_nonneg; assumption|].
    apply add_nonneg; apply div_int_nonneg; try lia;
      apply float_of_Z_nonneg; lia.
Qed.


(** C7, amended.  [z_test_proportions] raises its validation error exactly
    when an exposure count is [<= 0].  With positive exposures, and provided
    [math.sqrt] accepts its argument, it returns (0, 1, 0) when the pooled
    standard error compares equal to 0, and otherwise the z-score, the
    p-value and the pooled standard error.  [math.sqrt] accepts its argument,
    and the function returns, in exact arithmetic whenever the pooled
    conversions lie between 0 and the pooled exposures, and in binary64
    whenever the conversions of each variant lie between 0 and its exposures
    and the pooled exposures are below 2^53. *)
Theorem z_test_proportions_spec :
  (forall (F : Type) (N : PyNum F) (norm_cdf : F -> F)
          (conversions_a exposures_a conversions_b exposures_b : Z)
          (two_tailed : bool),
      let run := Statistics.z_test_proportions norm_cdf conversions_a
                   exposures_a conversions_b exposures_b two_tailed in
      let p_a := truediv conversions_a exposures_a in
      let p_b := truediv conversions_b exposures_b in
      let p_pooled :=
        truediv (conversions_a + conversions_b) (exposures_a + exposures_b) in
      let variance :=
        fmul (fmul p_pooled (fsub fone p_pooled))
             (fadd (truediv 1 exposures_a) (truediv 1 exposures_b)) in
      let se := fsqrt variance in
      let z_score := fdiv (fsub p_a p_b) se in
      let p_value :=
        if two_tailed then fmul (of_int 2) (fsub fone (norm_cdf (fabs z_score)))
        else fsub fone (norm_cdf z_score) in
      (validation_error run <-> (exposures_a <= 0 \/ exposures_b <= 0)) /\
      (exposures_a <= 0 \/ exposures_b <= 0 ->
       run = Raise (ValueError "Exposures must be positive")) /\
      (0 < exposures_a -> 0 < exposures_b -> flt variance fzero = false ->
       run = if feq se fzero then Ok (fzero, fone, fzero)
             else Ok (z_score, p_value, se))) /\
  (forall (norm_cdf : R -> R)
          (conversions_a exposures_a conversions_b exposures_b : Z)
          (two_tailed : bool),
      0 < exposures_a -> 0 < exposures_b ->
      0 <= conversions_a + conversions_b <= exposures_a + exposures_b ->
      exists r,
        Statistics.z_test_proportions norm_cdf conversions_a exposures_a
          conversions_b exposures_b two_tailed = Ok r) /\
  (forall (norm_cdf : float -> float)
          (conversions_a exposures_a conversions_b exposures_b : Z)
          (two_tailed : bool),
      0 < exposures_a -> 0 < exposures_b ->
      0 <= conversions_a <= exposures_a -> 0 <= conversions_b <= exposures_b ->
      exposures_a + exposures_b < 2 ^ 53 ->
      exists r,
        Statistics.z_test_proportions norm_cdf conversions_a exposures_a
          conversions_b exposures_b two_tailed = Ok r).
Proof.
  split; [|split; [|exact binary64_z_test_returns]].
  - intros F N norm_cdf ca ea cb eb two_tailed run p_a p_b p_pooled variance
           se z_score p_value.
    assert (Hbad : exposures_bad ea eb = true ->
                   run = Raise (ValueError "Exposures must be positive")).
    { unfold exposures_bad, run, Statistics.z_test_proportions.
      intros ->. reflexivity. }
    assert (Hgood : exposures_bad ea eb = false ->
                    run = match Statistics.math_sqrt variance with
                          | Raise e => Raise e
                          | Ok se =>
                              if feq se fzero then Ok (fzero, fone, fzero)
                              else Ok (fdiv (fsub p_a p_b) se,
                                       (if two_tailed then
                                          fmul (of_int 2)
                                            (fsub fone
                                               (norm_cdf
                                                  (fabs (fdiv (fsub p_a p_b) se))))
                                        else
                                          fsub fone
                                            (norm_cdf (fdiv (fsub p_a p_b) se))),
                                       se)
                          end).
    { unfold exposures_bad, run, Statistics.z_test_proportions.
      intros ->. reflexivity. }
    assert (Hiff : exposures_bad ea eb = true <-> (ea <= 0 \/ eb <= 0)).
    { unfold exposures_bad. rewrite orb_true_iff, !Z.leb_le. reflexivity. }
    split; [|split].
    + split.
      * intros (msg & Hrun & Hmsg). apply Hiff.
        destruct (exposures_bad ea eb) eqn:E; [reflexivity|].
        rewrite (Hgood eq_refl) in Hrun. unfold Statistics.math_sqrt in Hrun.
        destruct (flt variance fzero).
        -- injection Hrun as <-. contradiction.
        -- destruct (feq (fsqrt variance) fzero); discriminate.
      * intros Hle. apply Hiff in Hle. rewrite (Hbad Hle).
        eexists. split; [reflexivity | discriminate].
    + intros Hle. apply Hbad, Hiff, Hle.
    + intros Ha Hb Hvar. rewrite Hgood.
      * unfold Statistics.math_sqrt. rewrite Hvar. reflexivity.
      * apply not_true_is_false. intros E. apply Hiff in E. lia.
  - intros norm_cdf ca ea cb eb two_tailed Ha Hb Hc.
    unfold Statistics.z_test_proportions.
    replace ((ea <=? 0) || (eb <=? 0)) with false
      by (symmetry; apply orb_false_iff; split; apply Z.leb_gt; assumption).
    unfold Statistics.math_sqrt, truediv. cbn [flt fmul fsub fadd fdiv fone fzero of_int exact].
    pose proof (pooled_variance_nonneg (ca + cb) ea eb Ha Hb Hc) as Hvar.
    unfold Rltb at 1.
    destruct (Rlt_dec _ 0) as [Hneg | _]; [lra|].
    destruct (feq _ _); eexists; reflexivity.
Qed.

(** ** The Wilson interval *)

(** C6, as stated, fails in binary64: the two bounds are rounded
    independently of the point estimate.  With the quantile SciPy returns
    for 0.975, [calculate_confidence_interval(0, 1000, 0.95)] has the lower
    bound 2^-62 (about 2.17e-19), above the point estimate 0/1000 = 0. *)
Lemma wilson_lower_bound_above_estimate :
  fsub fone (fdiv (fsub fone level_95) (of_int 2)) = 0x1.f333333333333p-1%float /\
  Statistics.calculate_confidence_interval norm_ppf_at_975 0 1000 level_95
    = Ok (0x1p-62%float, 0x1.f594b5171dde0p-9%float) /\
  truediv 0 1000 = 0%float /\
  fle 0x1p-62%float (truediv 0 1000) = false.
Proof. vm_compute. repeat split. Qed.

(** The upper bound can fall below the estimate in the same way:
    [calculate_confidence_interval(10, 10, 0.95)] has the upper bound
    0.9999999999999999, below 10/10 = 1. *)
Example wilson_upper_bound_below_estimate :
  Statistics.calculate_confidence_interval norm_ppf_at_975 10 10 level_95
    = Ok (0x1.71e7388a0b0c3p-1%float, 0x1.fffffffffffffp-1%float) /\
  fle (truediv 10 10) 0x1.fffffffffffffp-1%float = false.
Proof. vm_compute. repeat split. Qed.

Section Wilson.
Local Open Scope R_scope.

(** The Wilson interval around [p] with quantile [z >= 0], over the reals:
    the quantity under the square root is not negative, and the interval
    contains [p]. *)
Lemma wilson_contains (n p z : R) :
  0 < n -> 0 <= p <= 1 -> 0 <= z ->
  let d := 1 + z * z / n in
  let center := (p + z * z / (2 * n)) / d in
  let A := p * (1 - p) / n + z * z / (4 * (n * n)) in
  let margin := z * sqrt A / d in
  0 <= A /\ center - margin <= p <= center + margin.
Proof.
  intros Hn [Hp0 Hp1] Hz d center A margin.
  assert (Hzz : 0 <= z * z) by (apply Rmult_le_pos; assumption).
  assert (Hpp : 0 <= p * (1 - p)) by (apply Rmult_le_pos; lra).
  assert (Hnn : 0 < n * n) by (apply Rmult_lt_0_compat; assumption).
  assert (Hd : 0 < d).
  { unfold d. assert (0 <= z * z / n) by (apply Rle_mult_inv_pos; assumption). lra. }
  assert (HA : 0 <= A).
  { unfold A.
    assert (0 <= p * (1 - p) / n) by (apply Rle_mult_inv_pos; assumption).
    assert (0 <= z * z / (4 * (n * n))) by (apply Rle_mult_inv_pos; lra).
    lra. }
  split; [exact HA|].
  set (s := sqrt A).
  assert (Hs0 : 0 <= s) by apply sqrt_pos.
  assert (Hss : s * s = A) by (apply sqrt_sqrt; exact HA).
  set (t := z * z / n * (1 / 2 - p)).
  assert (Hct : center - p = t / d).
  { unfold center, t, d. field. split; [lra|]. 
    assert (0 <= z*z) by assumption. nra. }
  assert (Hgap : z * s * (z * s) - t * t
                 = z * z * (p * (1 - p)) / n
                   + z * z * (z * z) * (p * (1 - p)) / (n * n)).
  { replace (z * s * (z * s)) with (z * z * (s * s)) by ring.
    rewrite Hss. unfold A, t. field. lra. }
  assert (Hsq : t * t <= z * s * (z * s)).
  { assert (0 <= z * z * (p * (1 - p)) / n).
    { apply Rle_mult_inv_pos; [|assumption]. apply Rmult_le_pos; assumption. }
    assert (0 <= z * z * (z * z) * (p * (1 - p)) / (n * n)).
    { apply Rle_mult_inv_pos; [|assumption].
      apply Rmult_le_pos; [apply Rmult_le_pos|]; assumption. }
    lra. }
  assert (Hzs : 0 <= z * s) by (apply Rmult_le_pos; assumption).
  assert (Hupper : t <= z * s).
  { destruct (Rle_dec t (z * s)) as [|Hgt]; [assumption|]. exfalso. nra. }
  assert (Hlower : - (z * s) <= t).
  { destruct (Rle_dec (- (z * s)) t) as [|Hgt]; [assumption|]. exfalso. nra. }
  assert (Hm : margin = z * s / d) by reflexivity.
  assert (Hinv : 0 < / d) by (apply Rinv_0_lt_compat; exact Hd).
  split.
  - replace (center - margin) with (p + (t - z * s) * / d)
      by (rewrite Hm; unfold Rdiv in *; lra).
    assert ((t - z * s) * / d <= 0).
    { rewrite <- (Rmult_0_l (/ d)). apply Rmult_le_compat_r; lra. }
    lra.
  - replace (center + margin) with (p + (t + z * s) * / d)
      by (rewrite Hm; unfold Rdiv in *; lra).
    assert (0 <= (t + z * s) * / d) by (apply Rmult_le_pos; lra).
    lra.
Qed.
End Wilson.

Lemma clamped_lower {F : Type} `{PyNumLaws F} (x : F) :
  fle fzero (py_max fzero x) = true.
Proof.
  unfold py_max. destruct (flt fzero x) eqn:E.
  - apply flt_fle, E.
  - apply fle_zero_zero.
Qed.

Lemma clamped_upper {F : Type} `{PyNumLaws F} (y : F) :
  fle (py_min fone y) fone = true.
Proof.
  unfold py_min. destruct (flt y fone) eqn:E.
  - apply flt_fle, E.
  - apply fle_one_one.
Qed.

(** In binary64, with counts below 2^53, the square root of the interval
    gets no negative argument, whatever the quantile. *)
Lemma binary64_interval_returns (norm_ppf : float -> float)
    (conversions exposures : Z) (confidence_level : float) :
  0 < exposures < 2 ^ 53 -> 0 <= conversions <= exposures ->
  flt fzero confidence_level && flt confidence_level fone = true ->
  exists lower upper,
    Statistics.calculate_confidence_interval norm_ppf conversions exposures
      confidence_level = Ok (lower, upper) /\
    fle fzero lower = true /\ fle upper fone = true.
Proof.
  intros He Hc Hlvl. unfold Statistics.calculate_confidence_interval.
  replace (exposures <=? 0) with false by (symmetry; apply Z.leb_gt; lia).
  replace (conversions <? 0) with false by (symmetry; apply Z.ltb_ge; lia).
  replace (exposures <? conversions) with false
    by (symmetry; apply Z.ltb_ge; lia).
  rewrite Hlvl. cbn [orb negb].
  unfold Statistics.math_sqrt, truediv.
  destruct (binary64_quotient_unit conversions exposures Hc He) as [Hp0 Hp1].
  match goal with |- context [flt ?a fzero] =>
    assert (Harg : flt a fzero = false) end.
  { cbn [flt fmul fsub fadd fdiv fone fzero of_int binary64].
    apply ltb_zero_nonneg. apply add_nonneg; apply div_int_nonneg; try nia.
    - apply unit_variance_nonneg; assumption.
    - apply mul_self_nonneg. }
  rewrite Harg. eexists _, _. split; [reflexivity|].
  split; [apply clamped_lower | apply clamped_upper].
Qed.

(** C6, amended.  [calculate_confidence_interval] raises a validation error
    exactly on non-positive exposures, conversions outside [0, exposures], or
    a confidence level outside (0, 1); whenever it returns, the lower bound
    is at least 0 and the upper bound at most 1.  In binary64 it returns on
    every valid input with exposures below 2^53.  In exact arithmetic, with
    a quantile that is not negative, it returns on every valid input and
    [0 <= lower <= conversions/exposures <= upper <= 1]. *)
Theorem calculate_confidence_interval_spec :
  (forall (F : Type) (N : PyNum F) (L : PyNumLaws F) (norm_ppf : F -> F)
          (conversions exposures : Z) (confidence_level : F),
      let run := Statistics.calculate_confidence_interval norm_ppf conversions
                   exposures confidence_level in
      (validation_error run <->
       (exposures <= 0 \/ conversions < 0 \/ exposures < conversions \/
        flt fzero confidence_level && flt confidence_level fone = false)) /\
      (forall lower upper, run = Ok (lower, upper) ->
         fle fzero lower = true /\ fle upper fone = true)) /\
  (forall (norm_ppf : float -> float) (conversions exposures : Z)
          (confidence_level : float),
      0 < exposures < 2 ^ 53 -> 0 <= conversions <= exposures ->
      flt fzero confidence_level && flt confidence_level fone = true ->
      exists lower upper,
        Statistics.calculate_confidence_interval norm_ppf conversions
          exposures confidence_level = Ok (lower, upper) /\
        fle fzero lower = true /\ fle upper fone = true) /\
  (forall (norm_ppf : R -> R) (conversions exposures : Z)
          (confidence_level : R),
      0 < exposures -> 0 <= conversions <= exposures ->
      (0 < confidence_level < 1)%R ->
      (0 <= norm_ppf (1 - (1 - confidence_level) / 2))%R ->
      exists lower upper,
        Statistics.calculate_confidence_interval norm_ppf conversions
          exposures confidence_level = Ok (lower, upper) /\
        (0 <= lower <= IZR conversions / IZR exposures)%R /\
        (IZR conversions / IZR exposures <= upper <= 1)%R).
Proof.
  split; [|split; [exact binary64_interval_returns|]].
  - intros F N L norm_ppf conversions exposures confidence_level run.
    unfold run, Statistics.calculate_confidence_interval.
    destruct (Z.leb_spec exposures 0) as [He | He].
    { split.
      - split; [intros _; left; exact He|].
        intros _. eexists. split; [reflexivity | discriminate].
      - intros lower upper Hrun. discriminate. }
    destruct (Z.ltb_spec conversions 0) as [Hc0 | Hc0]; cbn [orb].
    { split.
      - split; [intros _; right; left; exact Hc0|].
        intros _. eexists. split; [reflexivity | discriminate].
      - intros lower upper Hrun. discriminate. }
    destruct (Z.ltb_spec exposures conversions) as [Hc1 | Hc1].
    { split.
      - split; [intros _; right; right; left; exact Hc1|].
        intros _. eexists. split; [reflexivity | discriminate].
      - intros lower upper Hrun. discriminate. }
    destruct (flt fzero confidence_level && flt confidence_level fone) eqn:Hlvl;
      cbn [negb].
    2:{ split.
      - split; [intros _; right; right; right; reflexivity|].
        intros _. eexists. split; [reflexivity | discriminate].
      - intros lower upper Hrun. discriminate. }
    unfold Statistics.math_sqrt.
    match goal with |- context [flt ?a fzero] => destruct (flt a fzero) end.
    + split.
      * split.
        -- intros (msg & Hrun & Hmsg). injection Hrun as <-. contradiction.
        -- intros [H | [H | [H | H]]]; first [lia | discriminate].
      * intros lower upper Hrun. discriminate.
    + split.
      * split.
        -- intros (msg & Hrun & _). discriminate.
        -- intros [H | [H | [H | H]]]; first [lia | discriminate].
      * intros lower upper [= <- <-]. split; [apply clamped_lower | apply clamped_upper].
  - intros norm_ppf conversions exposures confidence_level He [Hc0 Hc1] Hlvl Hz.
    unfold Statistics.calculate_confidence_interval.
    replace (exposures <=? 0) with false by (symmetry; apply Z.leb_gt; lia).
    replace (conversions <? 0) with false by (symmetry; apply Z.ltb_ge; lia).
    replace (exposures <? conversions) with false
      by (symmetry; apply Z.ltb_ge; lia).
    cbn [orb]. cbn [flt fzero fone exact]. unfold Rltb at 1 2.
    destruct (Rlt_dec 0 confidence_level) as [_ | Hn]; [|lra].
    destruct (Rlt_dec confidence_level 1) as [_ | Hn]; [|lra].
    cbn [andb negb].
    unfold truediv, Statistics.math_sqrt.
    cbn [flt fmul fsub fadd fdiv fsqrt fone fzero of_int exact].
    set (z := norm_ppf (1 - (1 - confidence_level) / IZR 2)%R).
    assert (Hz' : (0 <= z)%R) by exact Hz.
    set (n := IZR exposures). set (p := (IZR conversions / n)%R).
    assert (Hn : (0 < n)%R) by (apply IZR_lt; lia).
    assert (Hp : (0 <= p <= 1)%R).
    { assert (0 <= IZR conversions)%R by (apply IZR_le; lia).
      assert (IZR conversions <= n)%R by (apply IZR_le; lia).
      split.
      - apply Rle_mult_inv_pos; assumption.
      - apply (Rmult_le_reg_r n); [assumption|].
        unfold p, Rdiv. rewrite Rmult_assoc, Rinv_l by lra. lra. }
    replace (IZR (2 * exposures)) with (2 * n)%R by (rewrite mult_IZR; reflexivity).
    replace (IZR (4 * exposures ^ 2)) with (4 * (n * n))%R
      by (rewrite Z.pow_2_r, !mult_IZR; reflexivity).
    destruct (wilson_contains n p z Hn Hp Hz') as (HA & Hlow & Hup).
    unfold Rltb at 1. destruct (Rlt_dec _ 0) as [Hneg | _]; [lra|].
    eexists _, _. split; [reflexivity|].
    unfold py_max, py_min. cbn [flt fzero fone exact]. unfold Rltb.
    split.
    + destruct (Rlt_dec 0 _); lra.
    + destruct (Rlt_dec _ 1); lra.
Qed.

(** ** Deterministic assignment (binary64) *)

Lemma draw_values_in_range : forallb in_unit_interval draw_values = true.
Proof. vm_compute. reflexivity. Qed.

Lemma in_draw_values (k : Z) : 0 <= k < 10000 -> In k draw_values.
Proof.
  intros Hk. unfold draw_values. apply in_map_iff. exists (Z.to_nat k).
  split; [lia|]. apply in_seq. lia.
Qed.

Lemma truediv_10000_range (k : Z) :
  0 <= k < 10000 ->
  fle (F:=float) fzero (truediv k 10000) = true /\
  flt (F:=float) (truediv k 10000) fone = true.
Proof.
  intros Hk.
  pose proof (proj1 (forallb_forall in_unit_interval draw_values)
                draw_values_in_range k (in_draw_values k Hk)) as Hin.
  unfold in_unit_interval in Hin. apply andb_true_iff in Hin. exact Hin.
Qed.

(** C1. With a user id, [assign_variant] draws
    [(hash(user_id + name) % 10000) / 10000], a binary64 value in [0, 1),
    leaves the generator alone, and returns the first variant in list order
    whose cumulative weight reaches the value whenever one does; the name of
    the returned variant is the same for any two experiments with the same
    name and the same names and weights in list order, and a call changes
    neither, so this holds on every call.  Two experiments constructed
    separately from distinct objects with the same names and weights end with
    the same names and weights. *)
Theorem assign_variant_deterministic :
  forall (Rng : Type) (next_random : Rng -> float * Rng) (hash : string -> Z),
    let assign := Experiment.assign_variant next_random hash in
    let value (self : Experiment.t Rng) (user_id : string) : float :=
      truediv (hash (String.append user_id (Experiment.name self)) mod 10000)
              10000 in
    (forall self user_id,
        Experiment.draw next_random hash self (Some user_id)
          = (value self user_id, Experiment._random self) /\
        fle fzero (value self user_id) = true /\
        flt (value self user_id) fone = true) /\
    (forall self user_id σ l self' σ',
        assign self (Some user_id) σ = (Ok (l, self'), σ') ->
        let ws := weights_of σ (Experiment.variants self) in
        (exists k, (k < length ws)%nat /\
           fle (value self user_id) (cumulative fzero (take (S k) ws)) = true) ->
        exists i, Experiment.variants self !! i = Some l /\
          fle (value self user_id) (cumulative fzero (take (S i) ws)) = true /\
          forall j, (j < i)%nat ->
            fle (value self user_id) (cumulative fzero (take (S j) ws)) = false) /\
    (forall self1 self2 σ1 σ2 user_id,
        Experiment.name self1 = Experiment.name self2 ->
        config σ1 (Experiment.variants self1)
          = config σ2 (Experiment.variants self2) ->
        match assign self1 (Some user_id) σ1, assign self2 (Some user_id) σ2 with
        | (Ok (l1, _), σ1'), (Ok (l2, _), σ2') =>
            name_at σ1' l1 = name_at σ2' l2
        | (Raise _, _), (Raise _, _) => True
        | _, _ => False
        end) /\
    (forall self user_id σ l self' σ',
        assign self user_id σ = (Ok (l, self'), σ') ->
        Experiment.name self' = Experiment.name self /\
        Experiment.variants self' = Experiment.variants self /\
        config σ' (Experiment.variants self')
          = config σ (Experiment.variants self)) /\
    (forall (seed_rng : option Z -> Rng) name vs1 vs2 seed1 seed2 now1 now2
            (σ1 σ2 σ1' σ2' : Store float) self1 self2,
        NoDup vs1 -> NoDup vs2 -> allocated σ1 vs1 -> allocated σ2 vs2 ->
        config σ1 vs1 = config σ2 vs2 ->
        Experiment.__init__ seed_rng name vs1 seed1 now1 σ1 = (Ok self1, σ1') ->
        Experiment.__init__ seed_rng name vs2 seed2 now2 σ2 = (Ok self2, σ2') ->
        Experiment.name self1 = Experiment.name self2 /\
        config σ1' (Experiment.variants self1)
          = config σ2' (Experiment.variants self2)).
Proof.
  intros Rng next_random hash assign value.
  assert (Hdraw : forall self user_id,
             Experiment.draw next_random hash self (Some user_id)
               = (value self user_id, Experiment._random self))
    by reflexivity.
  assert (Hrun : forall self user_id σ,
             assign self user_id σ =
             match selected (fst (Experiment.draw next_random hash self user_id))
                     σ (Experiment.variants self) with
             | Some l =>
                 (Ok (l, Experiment.mk (Experiment.name self)
                           (Experiment.variants self)
                           (Experiment.created_at self)
                           (snd (Experiment.draw next_random hash self user_id))),
                  alter Variant.record_exposure l σ)
             | None => (Raise (IndexError "list index out of range"), σ)
             end)
    by (intros; apply assign_variant_eq).
  split; [|split; [|split; [|split]]].
  - intros self user_id. split; [apply Hdraw|].
    apply truediv_10000_range. apply Z.mod_pos_bound. lia.
  - intros self user_id σ l self' σ' Hok ws Hreach.
    rewrite Hrun, Hdraw in Hok. cbn [fst] in Hok.
    unfold selected, selected_index in Hok. fold ws in Hok.
    destruct (bucket (value self user_id) fzero ws) as [i|] eqn:E.
    + destruct (Experiment.variants self !! i) as [l0|] eqn:El; [|discriminate].
      injection Hok as <- _ _. apply bucket_Some in E.
      destruct E as (_ & Hi & Hmin). exists i. auto.
    + destruct Hreach as (k & Hk & Hle).
      rewrite (proj1 (bucket_None _ _ _) E k Hk) in Hle. discriminate.
  - intros self1 self2 σ1 σ2 user_id Hname Hcfg.
    rewrite !Hrun, !Hdraw. cbn [fst snd].
    assert (Hv : value self1 user_id = value self2 user_id)
      by (unfold value; rewrite Hname; reflexivity).
    rewrite Hv.
    pose proof (selected_name_config (value self2 user_id) σ1 σ2 _ _ Hcfg)
      as Hsel.
    destruct (selected _ σ1 _) as [l1|], (selected _ σ2 _) as [l2|];
      cbn [option_map] in Hsel; try discriminate; [|exact I].
    rewrite !record_exposure_name. congruence.
  - intros self user_id σ l self' σ' Hok. rewrite Hrun in Hok.
    destruct (selected _ σ _); [|discriminate]. injection Hok as _ <- <-.
    cbn [Experiment.name Experiment.variants].
    split; [reflexivity|]. split; [reflexivity|]. apply record_exposure_config.
  - intros seed_rng name vs1 vs2 seed1 seed2 now1 now2 σ1 σ2 σ1' σ2' self1 self2
           Hnd1 Hnd2 Ha1 Ha2 Hcfg Hrun1 Hrun2.
    split.
    + rewrite init_eq in Hrun1. rewrite init_eq in Hrun2.
      destruct (Z.of_nat (length vs1) <? 2); [discriminate|].
      destruct (Z.of_nat (length vs2) <? 2); [discriminate|].
      destruct (fle (total (weights_of σ1 vs1)) fzero); [discriminate|].
      destruct (fle (total (weights_of σ2 vs2)) fzero); [discriminate|].
      injection Hrun1 as <- _. injection Hrun2 as <- _. reflexivity.
    + exact (init_config_deterministic seed_rng name name vs1 vs2 seed1 seed2
               now1 now2 σ1 σ2 σ1' σ2' self1 self2
               Hnd1 Hnd2 Ha1 Ha2 Hcfg Hrun1 Hrun2).
Qed.

(** The consistency test of the suite on one user: two experiments named
    "test1", each constructed from its own pair of variants of weight 1.0,
    assign the same-named variant. *)
Example separately_constructed_agree :
  let σ1 := two_arms 1%float 1%float in
  let σ2 := <[8%nat := Variant.new "treatment" 1%float]>
              (<[7%nat := Variant.new "control" 1%float]> ∅) in
  match Experiment.__init__ no_rng_seed "test1" [0%nat; 1%nat] None 0 σ1,
        Experiment.__init__ no_rng_seed "test1" [7%nat; 8%nat] None 5 σ2 with
  | (Ok exp1, σ1'), (Ok exp2, σ2') =>
      match Experiment.assign_variant no_rng_next length_hash exp1
              (Some "user_7") σ1',
            Experiment.assign_variant no_rng_next length_hash exp2
              (Some "user_7") σ2' with
      | (Ok (v1, _), σ1''), (Ok (v2, _), σ2'') =>
          name_at σ1'' v1 = name_at σ2'' v2 /\ exposures_at σ1'' v1 = 1
      | _, _ => False
      end
  | _, _ => False
  end.
Proof. vm_compute. split; reflexivity. Qed.

(** * Further properties of the code *)

(** ** Looking variants up by name *)

Section Lookup.
Context {F : Type} `{PyNum F} {Rng : Type}.

(** [find_variant] reads nothing but the names of the listed objects. *)
Lemma find_variant_names (n : string) (vs : list loc) (σ σ' : Store F)
    (hit : option loc) :
  (forall l, In l vs -> name_at σ' l = name_at σ l) ->
  Experiment.find_variant n vs σ = (Ok hit, σ) ->
  Experiment.find_variant n vs σ' = (Ok hit, σ').
Proof.
  induction vs as [|l0 vs IH]; cbn [Experiment.find_variant]; unfold ret.
  - intros _ [= <-]. reflexivity.
  - intros Hnames. unfold bind, load. cbn [fst snd].
    fold (name_at σ l0) (name_at σ' l0).
    rewrite (Hnames l0 (or_introl eq_refl)).
    destruct (String.eqb (name_at σ l0) n).
    + unfold ret. intros [= <-]. reflexivity.
    + apply IH. intros l Hl. apply Hnames. right. exact Hl.
Qed.

Lemma record_conversion_name (σ : Store F) (l l' : loc) :
  name_at (alter Variant.record_conversion l σ) l' = name_at σ l'.
Proof.
  unfold name_at. rewrite lookup_total_alter. case_decide as E; [|reflexivity].
  subst l'. rewrite total_lookup. destruct (σ !! l); reflexivity.
Qed.

Lemma record_conversion_weight (σ : Store F) (l l' : loc) :
  weight_at (alter Variant.record_conversion l σ) l' = weight_at σ l'.
Proof.
  unfold weight_at. rewrite lookup_total_alter. case_decide as E; [|reflexivity].
  subst l'. rewrite total_lookup. destruct (σ !! l); reflexivity.
Qed.

(** What [record_conversion] does, given what the search finds. *)
Lemma record_conversion_eq (self : Experiment.t Rng) (n : string)
    (σ : Store F) (hit : option loc) :
  Experiment.find_variant n (Experiment.variants self) σ = (Ok hit, σ) ->
  Experiment.record_conversion self n σ =
    match hit with
    | Some l => (Ok true, alter Variant.record_conversion l σ)
    | None => (Ok false, σ)
    end.
Proof.
  intros Hfind. unfold Experiment.record_conversion, bind at 1.
  rewrite Hfind. destruct hit; reflexivity.
Qed.

(** With pairwise distinct names, the search for the name of a listed
    variant ends at that variant. *)
Lemma find_variant_own_name (vs : list loc) (σ : Store F) (l : loc) :
  NoDup (map (name_at σ) vs) -> In l vs ->
  Experiment.find_variant (name_at σ l) vs σ = (Ok (Some l), σ).
Proof.
  intros Hnd Hin. apply find_variant_Some.
  apply list_elem_of_In, list_elem_of_lookup_1 in Hin. destruct Hin as [i Hi].
  exists i. split; [exact Hi|]. split; [reflexivity|].
  intros j l' Hj Hl' Heq.
  assert (Hi' : map (name_at σ) vs !! i = Some (name_at σ l))
    by (change (map (name_at σ) vs) with (name_at σ <$> vs);
        rewrite list_lookup_fmap, Hi; reflexivity).
  assert (Hj' : map (name_at σ) vs !! j = Some (name_at σ l))
    by (change (map (name_at σ) vs) with (name_at σ <$> vs);
        rewrite list_lookup_fmap, Hl'; cbn; congruence).
  pose proof (NoDup_lookup _ _ _ _ Hnd Hi' Hj'). lia.
Qed.

Lemma NoDup_names_locs (vs : list loc) (σ : Store F) :
  NoDup (map (name_at σ) vs) -> NoDup vs.
Proof. apply (NoDup_fmap_1 (name_at σ)). Qed.
End Lookup.

(** X1. [get_variant] returns the first listed variant that bears the name,
    and [None] exactly when no listed variant bears it; it changes
    nothing. *)
Theorem get_variant_first_match :
  forall (F : Type) (N : PyNum F) (Rng : Type)
         (self : Experiment.t Rng) (variant_name : string) (σ : Store F),
    let vs := Experiment.variants self in
    exists hit,
      Experiment.get_variant self variant_name σ = (Ok hit, σ) /\
      match hit with
      | Some l =>
          exists i, vs !! i = Some l /\ name_at σ l = variant_name /\
            forall j l', (j < i)%nat -> vs !! j = Some l' ->
              name_at σ l' <> variant_name
      | None => forall l, In l vs -> name_at σ l <> variant_name
      end.
Proof.
  intros F N Rng self variant_name σ vs. unfold Experiment.get_variant. fold vs.
  destruct (find_variant_unchanged variant_name vs σ) as [hit Hfind].
  exists hit. split; [exact Hfind|]. destruct hit as [l|].
  - apply find_variant_Some, Hfind.
  - apply find_variant_None, Hfind.
Qed.

(** X2. [record_conversion] and [get_variant] agree: the call returns true
    exactly when [get_variant] finds a variant, the variant credited is the
    one [get_variant] returns, and afterwards [get_variant] returns the same
    variant with one conversion more. *)
Theorem record_conversion_credits_get_variant :
  forall (F : Type) (N : PyNum F) (Rng : Type)
         (self : Experiment.t Rng) (variant_name : string) (σ : Store F),
    allocated σ (Experiment.variants self) ->
    exists hit σ',
      Experiment.get_variant self variant_name σ = (Ok hit, σ) /\
      Experiment.record_conversion self variant_name σ
        = (Ok (bool_decide (is_Some hit)), σ') /\
      Experiment.get_variant self variant_name σ' = (Ok hit, σ') /\
      match hit with
      | Some l =>
          σ' = alter Variant.record_conversion l σ /\
          conversions_at σ' l = conversions_at σ l + 1
      | None => σ' = σ
      end.
Proof.
  intros F N Rng self variant_name σ Halloc.
  unfold Experiment.get_variant.
  destruct (find_variant_unchanged variant_name (Experiment.variants self) σ)
    as [hit Hfind].
  rewrite (record_conversion_eq self variant_name σ hit Hfind).
  destruct hit as [l|].
  - exists (Some l), (alter Variant.record_conversion l σ).
    split; [exact Hfind|]. split; [reflexivity|]. split.
    + apply (find_variant_names variant_name _ σ); [|exact Hfind].
      intros l' _. apply record_conversion_name.
    + split; [reflexivity|].
      apply recorded_conversion, Halloc.
      apply find_variant_Some in Hfind. destruct Hfind as (i & Hi & _).
      apply list_elem_of_In. eapply list_elem_of_lookup_2, Hi.
  - exists None, σ. auto.
Qed.

Lemma record_conversion_credits_get_variant_witness :
  exists hit σ',
    Experiment.get_variant demo_experiment "control"
      (two_arms 0.5%float 0.5%float) = (Ok hit, two_arms 0.5%float 0.5%float) /\
    Experiment.record_conversion demo_experiment "control"
      (two_arms 0.5%float 0.5%float) = (Ok (bool_decide (is_Some hit)), σ') /\
    Experiment.get_variant demo_experiment "control" σ' = (Ok hit, σ') /\
    match hit with
    | Some l =>
        σ' = alter Variant.record_conversion l (two_arms 0.5%float 0.5%float) /\
        conversions_at σ' l
          = conversions_at (two_arms 0.5%float 0.5%float) l + 1
    | None => σ' = two_arms 0.5%float 0.5%float
    end.
Proof.
  apply (record_conversion_credits_get_variant float binary64 unit
           demo_experiment "control" (two_arms 0.5%float 0.5%float)).
  apply demo_allocated.
Defined.

(** X3. Lookup by name is a round trip exactly when names are distinct: for
    distinct objects, every listed variant is the one [get_variant] returns
    for its own name if and only if no two listed variants share a name. *)
Theorem get_variant_round_trip :
  forall (F : Type) (N : PyNum F) (Rng : Type)
         (self : Experiment.t Rng) (σ : Store F),
    NoDup (Experiment.variants self) ->
    (NoDup (map (name_at σ) (Experiment.variants self)) <->
     forall l, In l (Experiment.variants self) ->
       Experiment.get_variant self (name_at σ l) σ = (Ok (Some l), σ)).
Proof.
  intros F N Rng self σ Hnd. unfold Experiment.get_variant.
  set (vs := Experiment.variants self) in *. split.
  - intros Hnames l Hl. apply find_variant_own_name; assumption.
  - intros Hall. change (map (name_at σ) vs) with (name_at σ <$> vs).
    apply NoDup_fmap_2_strong; [|exact Hnd].
    intros l1 l2 Hl1 Hl2 Heq.
    apply list_elem_of_In in Hl1, Hl2.
    pose proof (Hall l1 Hl1) as H1. pose proof (Hall l2 Hl2) as H2.
    rewrite Heq in H1. rewrite H1 in H2. congruence.
Qed.

Lemma get_variant_round_trip_witness :
  NoDup (map (name_at (two_arms 0.5%float 0.5%float)) [0%nat; 1%nat]) <->
  forall l, In l [0%nat; 1%nat] ->
    Experiment.get_variant demo_experiment
      (name_at (two_arms 0.5%float 0.5%float) l) (two_arms 0.5%float 0.5%float)
      = (Ok (Some l), two_arms 0.5%float 0.5%float).
Proof.
  apply (get_variant_round_trip float binary64 unit demo_experiment
           (two_arms 0.5%float 0.5%float)).
  apply (bool_decide_unpack _). vm_compute. exact I.
Defined.

(** ** Dictionaries *)

Section Dict.
Context {V : Type}.

Lemma dict_get_set_eq (k : string) (v : V) (d : dict V) :
  dict_get k (dict_set k v d) = Some v.
Proof.
  induction d as [|[k' v'] d IH]; cbn [dict_set dict_get].
  - rewrite String.eqb_refl. reflexivity.
  - destruct (String.eqb k' k) eqn:E; cbn [dict_get]; rewrite E;
      [reflexivity | exact IH].
Qed.

Lemma dict_get_set_ne (k k0 : string) (v : V) (d : dict V) :
  k <> k0 -> dict_get k0 (dict_set k v d) = dict_get k0 d.
Proof.
  intros Hne. induction d as [|[k' v'] d IH]; cbn [dict_set dict_get].
  - apply String.eqb_neq in Hne. rewrite Hne. reflexivity.
  - destruct (String.eqb k' k) eqn:E; cbn [dict_get].
    + apply String.eqb_eq in E. subst k'.
      apply String.eqb_neq in Hne. rewrite Hne. reflexivity.
    + rewrite IH. reflexivity.
Qed.

Lemma dict_keys_set_in (k : string) (v : V) (d : dict V) :
  In k (dict_keys d) -> dict_keys (dict_set k v d) = dict_keys d.
Proof.
  induction d as [|[k' v'] d IH]; cbn [dict_set dict_keys map fst In];
    [intros []|].
  destruct (String.eqb k' k) eqn:E; [reflexivity|].
  apply String.eqb_neq in E. intros [? | Hin]; [congruence|].
  cbn [map fst]. f_equal. apply IH, Hin.
Qed.

Lemma dict_keys_set_notin (k : string) (v : V) (d : dict V) :
  ~ In k (dict_keys d) -> dict_keys (dict_set k v d) = dict_keys d ++ [k].
Proof.
  induction d as [|[k' v'] d IH]; cbn [dict_set dict_keys map fst In];
    [reflexivity|].
  intros Hnin. destruct (String.eqb k' k) eqn:E.
  - apply String.eqb_eq in E. exfalso. apply Hnin. left. exact E.
  - cbn [map fst app]. f_equal. apply IH. intros Hin. apply Hnin. right. exact Hin.
Qed.

Lemma In_keys_dec (k : string) (d : dict V) :
  {In k (dict_keys d)} + {~ In k (dict_keys d)}.
Proof. apply in_dec, string_dec. Qed.

Lemma dict_get_keys (k : string) (d : dict V) :
  is_Some (dict_get k d) <-> In k (dict_keys d).
Proof.
  induction d as [|[k' v'] d IH]; cbn [dict_get dict_keys map fst In].
  - split; [intros [? [=]] | intros []].
  - destruct (String.eqb k' k) eqn:E.
    + apply String.eqb_eq in E. split; [left; exact E | eauto].
    + apply String.eqb_neq in E. rewrite IH. fold (dict_keys d).
      split; [right; assumption | intros [? | ?]; [congruence | assumption]].
Qed.
End Dict.

(** ** The results dictionary *)

Section Results.
Context {F : Type} `{PyNum F} {Rng : Type}.

(** The dict [get_results] builds: one assignment per listed variant, in
    list order. *)
Lemma collect_results_eq (vs : list loc) (results : dict (VariantStats.t F))
    (σ : Store F) :
  Experiment.collect_results results vs σ =
    (Ok (fold_left
           (fun d l => dict_set (name_at σ l) (Experiment.stats_of (σ !!! l)) d)
           vs results), σ).
Proof.
  revert results. induction vs as [|l vs IH]; intros results; [reflexivity|].
  cbn [Experiment.collect_results fold_left]. unfold bind, load. apply IH.
Qed.

Lemma results_of_snoc (σ : Store F) (vs : list loc) (l : loc) :
  results_of σ (vs ++ [l]) =
    dict_set (name_at σ l) (Experiment.stats_of (σ !!! l)) (results_of σ vs).
Proof. unfold results_of. rewrite fold_left_app. reflexivity. Qed.

Lemma results_of_keys_In (σ : Store F) (vs : list loc) (n : string) :
  In n (dict_keys (results_of σ vs)) <-> exists l, In l vs /\ name_at σ l = n.
Proof.
  induction vs as [|l vs IH] using rev_ind.
  - cbn. split; [intros [] | intros (l & [] & _)].
  - rewrite results_of_snoc.
    assert (Hsplit : (exists l0, In l0 (vs ++ [l]) /\ name_at σ l0 = n) <->
                     (exists l0, In l0 vs /\ name_at σ l0 = n) \/ name_at σ l = n).
    { split.
      - intros (l0 & Hin & Hn). apply in_app_or in Hin.
        destruct Hin as [Hin | [<- | []]]; [left; eauto | right; exact Hn].
      - intros [(l0 & Hin & Hn) | Hn].
        + exists l0. split; [apply in_or_app; left; exact Hin | exact Hn].
        + exists l. split; [apply in_or_app; right; left; reflexivity | exact Hn]. }
    rewrite Hsplit, <- IH.
    destruct (In_keys_dec (name_at σ l) (results_of σ vs)) as [E | E].
    + rewrite dict_keys_set_in by exact E.
      split; [left; assumption | intros [? | <-]; assumption].
    + rewrite dict_keys_set_notin by exact E. split.
      * intros Hin. apply in_app_or in Hin.
        destruct Hin as [? | [<- | []]]; [left; assumption | right; reflexivity].
      * intros [? | <-]; apply in_or_app; [left; assumption | right; left; reflexivity].
Qed.

Lemma results_of_keys_NoDup (σ : Store F) (vs : list loc) :
  NoDup (dict_keys (results_of σ vs)).
Proof.
  induction vs as [|l vs IH] using rev_ind; [constructor|].
  rewrite results_of_snoc.
  destruct (In_keys_dec (name_at σ l) (results_of σ vs)) as [E | E];
    [rewrite dict_keys_set_in by exact E; exact IH|].
  rewrite dict_keys_set_notin by exact E.
  apply NoDup_app. split; [exact IH|]. split.
  - intros x Hx Hx'. apply list_elem_of_In in Hx. apply list_elem_of_In in Hx'.
    destruct Hx' as [<- | []]. contradiction.
  - apply NoDup_singleton.
Qed.

Lemma results_of_keys_distinct (σ : Store F) (vs : list loc) :
  NoDup (map (name_at σ) vs) ->
  dict_keys (results_of σ vs) = map (name_at σ) vs.
Proof.
  induction vs as [|l vs IH] using rev_ind; [reflexivity|].
  rewrite map_app. cbn [map]. intros Hnd.
  apply NoDup_app in Hnd. destruct Hnd as (Hnd & Hdisj & _).
  rewrite results_of_snoc, dict_keys_set_notin; rewrite IH by exact Hnd;
    [reflexivity|].
  intros Hin. apply (Hdisj (name_at σ l)).
  - apply list_elem_of_In, Hin.
  - apply list_elem_of_In. left. reflexivity.
Qed.

Lemma results_of_length (σ : Store F) (vs : list loc) :
  (length (results_of σ vs) <= length vs)%nat.
Proof.
  induction vs as [|l vs IH] using rev_ind; [reflexivity|].
  rewrite results_of_snoc, length_app. cbn [length].
  rewrite <- (length_map fst (dict_set _ _ _)). fold (dict_keys (dict_set (name_at σ l) (Experiment.stats_of (σ !!! l)) (results_of σ vs))).
  destruct (In_keys_dec (name_at σ l) (results_of σ vs)) as [E | E].
  - rewrite dict_keys_set_in by exact E. unfold dict_keys.
    rewrite length_map. lia.
  - rewrite dict_keys_set_notin by exact E. rewrite length_app. unfold dict_keys.
    rewrite length_map. cbn [length]. lia.
Qed.

(** The entry under a name is that of the last listed variant with the
    name. *)
Lemma results_of_get (σ : Store F) (vs : list loc) (n : string)
    (row : VariantStats.t F) :
  dict_get n (results_of σ vs) = Some row <->
  exists i l, vs !! i = Some l /\ name_at σ l = n /\
    row = Experiment.stats_of (σ !!! l) /\
    forall j l', (i < j)%nat -> vs !! j = Some l' -> name_at σ l' <> n.
Proof.
  revert row. induction vs as [|l vs IH] using rev_ind; intros row.
  - cbn. split; [discriminate | intros (i & l & Hi & _); destruct i; discriminate].
  - rewrite results_of_snoc.
    destruct (String.eqb (name_at σ l) n) eqn:E.
    + apply String.eqb_eq in E. rewrite <- E, dict_get_set_eq. split.
      * intros [= <-]. exists (length vs), l.
        split; [apply list_lookup_middle; reflexivity|].
        split; [reflexivity|]. split; [reflexivity|].
        intros j l' Hj Hl'. apply lookup_lt_Some in Hl'.
        rewrite length_app in Hl'. cbn in Hl'. lia.
      * intros (i & l0 & Hi & Hn & -> & Hlast).
        destruct (decide (i = length vs)) as [-> | Hne].
        -- rewrite list_lookup_middle in Hi by reflexivity. congruence.
        -- exfalso. pose proof (lookup_lt_Some _ _ _ Hi) as Hlt.
           rewrite length_app in Hlt. cbn in Hlt.
           apply (Hlast (length vs) l); [lia | | congruence].
           apply list_lookup_middle. reflexivity.
    + apply String.eqb_neq in E. rewrite dict_get_set_ne by exact E.
      rewrite IH. split.
      * intros (i & l0 & Hi & Hn & Hrow & Hlast). exists i, l0.
        split; [apply lookup_app_l_Some; exact Hi|].
        split; [exact Hn|]. split; [exact Hrow|].
        intros j l' Hj Hl'.
        destruct (decide (j < length vs)%nat) as [Hlt | Hge].
        -- rewrite lookup_app_l in Hl' by exact Hlt. eapply Hlast; eassumption.
        -- rewrite lookup_app_r in Hl' by lia.
           destruct (j - length vs)%nat; [|destruct n0; discriminate].
           cbn in Hl'. congruence.
      * intros (i & l0 & Hi & Hn & Hrow & Hlast).
        destruct (decide (i < length vs)%nat) as [Hlt | Hge].
        -- rewrite lookup_app_l in Hi by exact Hlt. exists i, l0.
           split; [exact Hi|]. split; [exact Hn|]. split; [exact Hrow|].
           intros j l' Hj Hl'. apply (Hlast j l' Hj).
           apply lookup_app_l_Some. exact Hl'.
        -- exfalso. rewrite lookup_app_r in Hi by lia.
           destruct (i - length vs)%nat; [|destruct n0; discriminate].
           cbn in Hi. congruence.
Qed.
End Results.

(** X4. [get_results] changes nothing and returns a dict whose keys are the
    names of the listed variants, each once; the entry under a name holds
    the counters, rate and weight of the last listed variant with that name;
    with pairwise distinct names the keys are the names in list order. *)
Theorem get_results_spec :
  forall (F : Type) (N : PyNum F) (Rng : Type)
         (self : Experiment.t Rng) (σ : Store F),
    let vs := Experiment.variants self in
    exists results,
      Experiment.get_results self σ = (Ok results, σ) /\
      NoDup (dict_keys results) /\
      (forall n, In n (dict_keys results) <->
                 exists l, In l vs /\ name_at σ l = n) /\
      (forall n row,
         dict_get n results = Some row <->
         exists i l, vs !! i = Some l /\ name_at σ l = n /\
           row = Experiment.stats_of (σ !!! l) /\
           forall j l', (i < j)%nat -> vs !! j = Some l' ->
             name_at σ l' <> n) /\
      (length results <= length vs)%nat /\
      (NoDup (map (name_at σ) vs) -> dict_keys results = map (name_at σ) vs).
Proof.
  intros F N Rng self σ vs. exists (results_of σ vs).
  split; [apply collect_results_eq|].
  split; [apply results_of_keys_NoDup|].
  split; [apply results_of_keys_In|].
  split; [apply results_of_get|].
  split; [apply results_of_length | apply results_of_keys_distinct].
Qed.

(** X5. With pairwise distinct names, [get_results] and [get_variant] tell
    the same story: the entry under a name is the report of the variant
    [get_variant] returns for it, and the name is absent exactly when
    [get_variant] returns [None]. *)
Theorem get_results_agrees_with_get_variant :
  forall (F : Type) (N : PyNum F) (Rng : Type)
         (self : Experiment.t Rng) (σ : Store F) (variant_name : string),
    NoDup (map (name_at σ) (Experiment.variants self)) ->
    exists results hit,
      Experiment.get_results self σ = (Ok results, σ) /\
      Experiment.get_variant self variant_name σ = (Ok hit, σ) /\
      dict_get variant_name results =
        (fun l => Experiment.stats_of (σ !!! l)) <$> hit.
Proof.
  intros F N Rng self σ n Hnd. set (vs := Experiment.variants self) in *.
  exists (results_of σ vs).
  destruct (find_variant_unchanged n vs σ) as [hit Hfind].
  exists hit. split; [apply collect_results_eq|]. split; [exact Hfind|].
  destruct hit as [l|]; cbn [fmap option_fmap option_map].
  - apply find_variant_Some in Hfind. destruct Hfind as (i & Hi & Hn & _).
    apply results_of_get. exists i, l.
    split; [exact Hi|]. split; [exact Hn|]. split; [reflexivity|].
    intros j l' Hj Hl' Hn'.
    assert (Hi' : map (name_at σ) vs !! i = Some n)
      by (change (map (name_at σ) vs) with (name_at σ <$> vs);
          rewrite list_lookup_fmap, Hi; cbn; congruence).
    assert (Hj' : map (name_at σ) vs !! j = Some n)
      by (change (map (name_at σ) vs) with (name_at σ <$> vs);
          rewrite list_lookup_fmap, Hl'; cbn; congruence).
    pose proof (NoDup_lookup _ _ _ _ Hnd Hi' Hj'). lia.
  - pose proof (proj1 (find_variant_None _ _ _) Hfind) as Hnone.
    destruct (dict_get n (results_of σ vs)) as [row|] eqn:E; [|reflexivity].
    exfalso. apply results_of_get in E. destruct E as (i & l & Hi & Hn & _).
    apply (Hnone l); [|exact Hn].
    apply list_elem_of_In. eapply list_elem_of_lookup_2, Hi.
Qed.

Lemma get_results_agrees_with_get_variant_witness :
  exists results hit,
    Experiment.get_results demo_experiment (two_arms 0.5%float 0.5%float)
      = (Ok results, two_arms 0.5%float 0.5%float) /\
    Experiment.get_variant demo_experiment "treatment"
      (two_arms 0.5%float 0.5%float)
      = (Ok hit, two_arms 0.5%float 0.5%float) /\
    dict_get "treatment" results =
      (fun l => Experiment.stats_of (two_arms 0.5%float 0.5%float !!! l)) <$> hit.
Proof.
  apply (get_results_agrees_with_get_variant float binary64 unit
           demo_experiment (two_arms 0.5%float 0.5%float) "treatment").
  apply (bool_decide_unpack _). vm_compute. exact I.
Defined.

(** ** Counters over the whole experiment *)

Section Totals.
Context {F : Type} `{PyNum F}.

(** Changing one counter of one listed object changes the sum by as much. *)
Lemma sum_one_changed (f g : loc -> Z) (vs : list loc) (l : loc) (d : Z) :
  NoDup vs -> In l vs -> g l = f l + d ->
  (forall l', l' <> l -> g l' = f l') ->
  foldr Z.add 0 (map g vs) = foldr Z.add 0 (map f vs) + d.
Proof.
  intros Hnd Hin Hl Hother. induction vs as [|l0 vs IH]; [destruct Hin|].
  apply NoDup_cons in Hnd. destruct Hnd as [Hl0 Hnd].
  rewrite list_elem_of_In in Hl0. cbn [map foldr].
  destruct (decide (l0 = l)) as [-> | Hne].
  - rewrite Hl. replace (map g vs) with (map f vs); [lia|].
    apply map_ext_in. intros l' Hl'. symmetry. apply Hother.
    intros ->. contradiction.
  - destruct Hin as [? | Hin]; [contradiction|].
    rewrite (Hother l0 Hne), (IH Hnd Hin). lia.
Qed.

Lemma sum_unchanged (f g : loc -> Z) (vs : list loc) :
  (forall l, g l = f l) -> foldr Z.add 0 (map g vs) = foldr Z.add 0 (map f vs).
Proof. intros Hext. f_equal. apply map_ext. exact Hext. Qed.

Lemma exposures_other (g : Variant.t F -> Variant.t F) (σ : Store F)
    (l l' : loc) :
  l' <> l -> exposures_at (alter g l σ) l' = exposures_at σ l'.
Proof.
  intros Hne. unfold exposures_at. rewrite lookup_total_alter_ne by congruence.
  reflexivity.
Qed.

Lemma conversions_other (g : Variant.t F -> Variant.t F) (σ : Store F)
    (l l' : loc) :
  l' <> l -> conversions_at (alter g l σ) l' = conversions_at σ l'.
Proof.
  intros Hne. unfold conversions_at. rewrite lookup_total_alter_ne by congruence.
  reflexivity.
Qed.

Lemma allocated_alter (g : Variant.t F -> Variant.t F) (σ : Store F)
    (l : loc) (vs : list loc) :
  allocated σ vs -> allocated (alter g l σ) vs.
Proof.
  intros Halloc l' Hl'. destruct (Halloc l' Hl') as [v Hv].
  destruct (decide (l' = l)) as [-> | Hne].
  - rewrite lookup_alter_eq, Hv. eexists. reflexivity.
  - rewrite lookup_alter_ne by congruence. eauto.
Qed.
End Totals.

(** ** One visitor *)

Section Visit.
Context {F : Type} `{PyNum F} {Rng : Type}.
Variable next_random : Rng -> F * Rng.
Variable hash : string -> Z.
Variable converts : Z -> bool.

Abbreviation visit := (Traffic.visit next_random hash converts).
Abbreviation visits := (Traffic.visits next_random hash converts).

(** With distinct names, a visit exposes one listed variant and, if the
    visitor converts, credits the conversion to the same variant. *)
Lemma visit_eq (self : Experiment.t Rng) (i : Z) (σ : Store F) :
  Experiment.variants self <> [] ->
  NoDup (map (name_at σ) (Experiment.variants self)) ->
  exists l,
    In l (Experiment.variants self) /\
    visit self i σ =
      (Ok (Experiment.mk (Experiment.name self) (Experiment.variants self)
             (Experiment.created_at self) (Experiment._random self)),
       visited converts i l σ).
Proof.
  intros Hne Hnames. set (vs := Experiment.variants self) in *.
  unfold Traffic.visit, bind at 1. rewrite assign_variant_eq. fold vs.
  cbn [Experiment.draw fst snd]. unfold selected.
  set (r := truediv _ _).
  destruct (selected_index_nonempty r (weights_of σ vs)) as [k Hk].
  { intros Hw. apply Hne. unfold weights_of in Hw.
    apply map_eq_nil in Hw. exact Hw. }
  rewrite Hk. pose proof (selected_index_lt _ _ _ Hk) as Hlt.
  rewrite weights_of_length in Hlt.
  destruct (lookup_lt_is_Some_2 vs k Hlt) as [l Hl]. rewrite Hl.
  assert (Hin : In l vs).
  { apply list_elem_of_In. eapply list_elem_of_lookup_2, Hl. }
  exists l. split; [exact Hin|]. unfold visited.
  destruct (converts i); [|reflexivity].
  unfold bind at 1, load. cbn [fst snd].
  set (σ1 := alter Variant.record_exposure l σ).
  fold (name_at σ1 l). unfold bind at 1.
  assert (Hfind : Experiment.find_variant (name_at σ1 l) vs σ1 = (Ok (Some l), σ1)).
  { apply find_variant_own_name; [|exact Hin].
    replace (map (name_at σ1) vs) with (map (name_at σ) vs); [exact Hnames|].
    apply map_ext. intros l'. unfold σ1. symmetry. apply record_exposure_name. }
  rewrite (record_conversion_eq _ _ σ1 (Some l)) by exact Hfind.
  reflexivity.
Qed.

Lemma visited_name (i : Z) (l l' : loc) (σ : Store F) :
  name_at (visited converts i l σ) l' = name_at σ l'.
Proof.
  unfold visited. destruct (converts i);
    rewrite ?record_conversion_name, record_exposure_name; reflexivity.
Qed.

Lemma visited_weight (i : Z) (l l' : loc) (σ : Store F) :
  weight_at (visited converts i l σ) l' = weight_at σ l'.
Proof.
  unfold visited. destruct (converts i);
    rewrite ?record_conversion_weight, record_exposure_weight; reflexivity.
Qed.

Lemma visited_allocated (i : Z) (l : loc) (σ : Store F) (vs : list loc) :
  allocated σ vs -> allocated (visited converts i l σ) vs.
Proof.
  intros Halloc. unfold visited.
  destruct (converts i); repeat apply allocated_alter; exact Halloc.
Qed.

Lemma visited_counters (i : Z) (l : loc) (σ : Store F) :
  is_Some (σ !! l) ->
  exposures_at (visited converts i l σ) l = exposures_at σ l + 1 /\
  conversions_at (visited converts i l σ) l
    = conversions_at σ l + (if converts i then 1 else 0) /\
  forall l', l' <> l ->
    exposures_at (visited converts i l σ) l' = exposures_at σ l' /\
    conversions_at (visited converts i l σ) l' = conversions_at σ l'.
Proof.
  intros Hl. destruct (recorded_exposure σ l Hl) as [He Hc].
  unfold visited. destruct (converts i).
  - assert (Hl1 : is_Some (alter Variant.record_exposure l σ !! l)).
    { destruct Hl as [v Hv]. rewrite lookup_alter_eq, Hv. eexists. reflexivity. }
    destruct (recorded_conversion _ l Hl1) as [Hc' He'].
    split; [lia|]. split; [lia|]. intros l' Hne.
    rewrite !exposures_other, !conversions_other by exact Hne. auto.
  - split; [exact He|]. split; [lia|]. intros l' Hne.
    rewrite exposures_other, conversions_other by exact Hne. auto.
Qed.

(** The counters after a run of visitors. *)
Lemma visits_counts (users : list Z) (self : Experiment.t Rng) (σ : Store F) :
  let vs := Experiment.variants self in
  vs <> [] -> allocated σ vs -> NoDup (map (name_at σ) vs) ->
  exists self' σ',
    visits self users σ = (Ok self', σ') /\
    Experiment.variants self' = vs /\
    Experiment.name self' = Experiment.name self /\
    config σ' vs = config σ vs /\
    allocated σ' vs /\
    total_exposures σ' vs = total_exposures σ vs + Z.of_nat (length users) /\
    total_conversions σ' vs
      = total_conversions σ vs
        + Z.of_nat (length (List.filter converts users)) /\
    forall l, In l vs ->
      exposures_at σ l <= exposures_at σ' l /\
      conversions_at σ l <= conversions_at σ' l /\
      conversions_at σ' l - conversions_at σ l
        <= exposures_at σ' l - exposures_at σ l.
Proof.
  cbv zeta. revert self σ.
  induction users as [|i users IH]; intros self σ Hne Halloc Hnames.
  - exists self, σ. cbn [Traffic.visits length List.filter]. unfold ret.
    repeat split; try reflexivity; try assumption; try lia.
  - cbn [Traffic.visits]. unfold bind at 1.
    destruct (visit_eq self i σ Hne Hnames) as (l & Hin & Hvisit).
    rewrite Hvisit.
    set (self1 := Experiment.mk _ _ _ _).
    set (vs := Experiment.variants self) in *.
    assert (Hnames1 : map (name_at (visited converts i l σ)) vs = map (name_at σ) vs).
    { apply map_ext. intros l'. apply visited_name. }
    destruct (IH self1 (visited converts i l σ)) as
      (self' & σ' & Hrun & Hvs & Hname & Hcfg & Halloc' & Hexp & Hconv & Hmono).
    { exact Hne. }
    { apply visited_allocated, Halloc. }
    { cbn [Experiment.variants self1]. fold vs. rewrite Hnames1. exact Hnames. }
    cbn [Experiment.variants Experiment.name self1] in *. fold vs in Hvs, Hcfg, Halloc', Hexp, Hconv, Hmono.
    destruct (visited_counters i l σ (Halloc l Hin)) as (He1 & Hc1 & Hoth).
    pose proof (NoDup_names_locs vs σ Hnames) as Hnd.
    exists self', σ'. split; [exact Hrun|]. split; [exact Hvs|].
    split; [exact Hname|]. split.
    { rewrite Hcfg. unfold config. apply map_ext. intros l'.
      rewrite visited_name, visited_weight. reflexivity. }
    split; [exact Halloc'|]. split.
    { rewrite Hexp. unfold total_exposures.
      rewrite (sum_one_changed (exposures_at σ) (exposures_at (visited converts i l σ))
                 vs l 1 Hnd Hin He1 (fun l' Hl' => proj1 (Hoth l' Hl'))).
      cbn [length]. lia. }
    split.
    { rewrite Hconv. unfold total_conversions.
      rewrite (sum_one_changed (conversions_at σ)
                 (conversions_at (visited converts i l σ)) vs l
                 (if converts i then 1 else 0) Hnd Hin Hc1
                 (fun l' Hl' => proj2 (Hoth l' Hl'))).
      cbn [List.filter]. destruct (converts i); cbn [length]; lia. }
    intros l' Hl'. specialize (Hmono l' Hl').
    destruct (decide (l' = l)) as [-> | Hne'].
    + destruct (converts i); lia.
    + destruct (Hoth l' Hne') as [He' Hc']. lia.
Qed.
End Visit.

(** X6. The traffic loop of the tests and examples, run for [n] visitors on
    an experiment whose variants bear pairwise distinct names: it ends
    without an exception, every visitor is counted as one exposure and every
    converting visitor as one conversion, names and weights stay as they
    were, and no variant gains more conversions than exposures. *)
Theorem simulate_counts :
  forall (F : Type) (N : PyNum F) (Rng : Type)
         (next_random : Rng -> F * Rng) (hash : string -> Z)
         (converts : Z -> bool) (self : Experiment.t Rng) (n : nat)
         (σ : Store F),
    Experiment.variants self <> [] ->
    allocated σ (Experiment.variants self) ->
    NoDup (map (name_at σ) (Experiment.variants self)) ->
    let vs := Experiment.variants self in
    exists self' σ',
      Traffic.simulate next_random hash converts self n σ = (Ok self', σ') /\
      Experiment.variants self' = vs /\
      config σ' vs = config σ vs /\
      total_exposures σ' vs = total_exposures σ vs + Z.of_nat n /\
      total_conversions σ' vs
        = total_conversions σ vs
          + Z.of_nat (length (List.filter converts (map Z.of_nat (seq 0 n)))) /\
      forall l, In l vs ->
        exposures_at σ l <= exposures_at σ' l /\
        conversions_at σ l <= conversions_at σ' l /\
        conversions_at σ' l - conversions_at σ l
          <= exposures_at σ' l - exposures_at σ l.
Proof.
  intros F N Rng next_random hash converts self n σ Hne Halloc Hnames vs.
  destruct (visits_counts next_random hash converts
              (map Z.of_nat (seq 0 n)) self σ Hne Halloc Hnames)
    as (self' & σ' & Hrun & Hvs & _ & Hcfg & _ & Hexp & Hconv & Hmono).
  rewrite length_map, length_seq in Hexp.
  exists self', σ'. unfold Traffic.simulate. auto 10.
Qed.

(** ** Construction followed by assignment, in exact arithmetic *)

Section ExactConstruction.
Context {Rng : Type}.
Variable seed_rng : option Z -> Rng.

(** Dividing the weights of distinct objects by [t] divides their sum. *)
Lemma normalized_exact_total (t : R) (vs : list loc) (σ : Store R) :
  NoDup vs -> allocated σ vs ->
  total (weights_of (normalized_store t vs σ) vs)
    = (total (weights_of σ vs) / t)%R.
Proof.
  intros Hnd Halloc. unfold weights_of.
  rewrite (map_ext_in (weight_at (normalized_store t vs σ))
             (fun l => (weight_at σ l / t)%R) vs).
  - unfold total. change (@fzero R exact) with 0%R.
    replace 0%R with (0 / t)%R at 1 by (unfold Rdiv; ring).
    apply cumulative_exact_div.
  - intros l Hl. destruct (Halloc l Hl) as [v Hv]. unfold weight_at at 1.
    erewrite lookup_total_correct;
      [|rewrite normalized_store_listed by assumption; rewrite Hv; reflexivity].
    reflexivity.
Qed.

(** A successful construction, unfolded. *)
Lemma init_ok_inv (name : string) (vs : list loc) (seed : option Z) (now : Z)
    (σ σ' : Store R) (self : Experiment.t Rng) :
  Experiment.__init__ seed_rng name vs seed now σ = (Ok self, σ') ->
  (2 <= length vs)%nat /\
  (0 < total (weights_of σ vs))%R /\
  self = Experiment.mk name vs now (seed_rng seed) /\
  σ' = normalized_store (total (weights_of σ vs)) vs σ.
Proof.
  rewrite init_eq. destruct (Z.ltb_spec (Z.of_nat (length vs)) 2); [discriminate|].
  destruct (fle (total (weights_of σ vs)) fzero) eqn:E; [discriminate|].
  intros [= <- <-]. split; [lia|]. split; [|auto].
  cbn [fle exact fzero] in E. unfold Rleb in E.
  destruct (Rle_dec (total (weights_of σ vs)) 0); [discriminate | lra].
Qed.
End ExactConstruction.

Lemma two_arms_weights {F : Type} `{PyNum F} (w0 w1 : F) :
  weights_of (two_arms w0 w1) [0%nat; 1%nat] = [w0; w1].
Proof. reflexivity. Qed.

(** The construction the witnesses below start from. *)
Lemma demo_init_exact :
  Experiment.__init__ no_rng_seed "exp" [0%nat; 1%nat] None 0 (two_arms 3%R 1%R)
  = (Ok (Experiment.mk "exp" [0%nat; 1%nat] 0 tt),
     snd (Experiment.__init__ no_rng_seed "exp" [0%nat; 1%nat] None 0
            (two_arms 3%R 1%R))).
Proof.
  rewrite init_eq, two_arms_weights.
  replace (Z.of_nat (length [0%nat; 1%nat]) <? 2) with false by reflexivity.
  replace (fle (total [3%R; 1%R]) fzero) with false; [reflexivity|].
  symmetry. unfold total, cumulative. cbn [fold_left fle fadd fzero exact].
  unfold Rleb. destruct (Rle_dec _ _); [lra | reflexivity].
Qed.

(** X7. "Shouldn't reach here with proper weights": in exact arithmetic, after
    a successful construction over distinct objects the weights sum to 1, so
    for every drawn value up to 1 the loop of [assign_variant] returns a
    variant and the fallback is not reached. *)
Theorem fallback_unreachable_exact :
  forall (Rng : Type) (seed_rng : option Z -> Rng)
         (name : string) (vs : list loc) (seed : option Z) (now : Z)
         (σ σ' : Store R) (self : Experiment.t Rng) (rand_val : R),
    NoDup vs -> allocated σ vs ->
    Experiment.__init__ seed_rng name vs seed now σ = (Ok self, σ') ->
    (rand_val <= 1)%R ->
    total (weights_of σ' vs) = 1%R /\
    exists l, In l vs /\ Experiment.pick rand_val 0%R vs σ' = (Ok (Some l), σ').
Proof.
  intros Rng seed_rng name vs seed now σ σ' self r Hnd Halloc Hinit Hr.
  destruct (init_ok_inv seed_rng _ _ _ _ _ _ _ Hinit) as (Hlen & Ht & _ & ->).
  assert (Htotal : total (weights_of (normalized_store (total (weights_of σ vs)) vs σ) vs) = 1%R).
  { rewrite normalized_exact_total by assumption. apply Rdiv_diag. lra. }
  split; [exact Htotal|].
  set (σ' := normalized_store _ vs σ) in *.
  change (@fzero R exact) with 0%R in *.
  rewrite (pick_eq r vs 0%R σ').
  destruct (bucket r 0%R (weights_of σ' vs)) as [i|] eqn:E.
  - pose proof (bucket_lt _ _ _ _ E) as Hlt. rewrite weights_of_length in Hlt.
    destruct (lookup_lt_is_Some_2 vs i Hlt) as [l Hl]. exists l. rewrite Hl.
    split; [|reflexivity]. apply list_elem_of_In. eapply list_elem_of_lookup_2, Hl.
  - exfalso. pose proof (proj1 (bucket_None _ _ _) E (pred (length vs))) as Hlast.
    rewrite weights_of_length in Hlast. specialize (Hlast ltac:(lia)).
    rewrite firstn_all2 in Hlast by (rewrite weights_of_length; lia).
    change (cumulative 0%R (weights_of σ' vs)) with (total (weights_of σ' vs)) in Hlast.
    rewrite Htotal in Hlast. cbn [fle exact] in Hlast. unfold Rleb in Hlast.
    destruct (Rle_dec r 1); [discriminate | contradiction].
Qed.

Lemma fallback_unreachable_exact_witness :
  total (weights_of
           (snd (Experiment.__init__ no_rng_seed "exp" [0%nat; 1%nat] None 0
                   (two_arms 3%R 1%R))) [0%nat; 1%nat]) = 1%R /\
  exists l, In l [0%nat; 1%nat] /\
    Experiment.pick (1 / 2)%R 0%R [0%nat; 1%nat]
      (snd (Experiment.__init__ no_rng_seed "exp" [0%nat; 1%nat] None 0
              (two_arms 3%R 1%R)))
    = (Ok (Some l),
       snd (Experiment.__init__ no_rng_seed "exp" [0%nat; 1%nat] None 0
              (two_arms 3%R 1%R))).
Proof.
  apply (fallback_unreachable_exact unit no_rng_seed "exp" [0%nat; 1%nat] None 0
           (two_arms 3%R 1%R) _ (Experiment.mk "exp" [0%nat; 1%nat] 0 tt)
           (1 / 2)%R).
  - apply (bool_decide_unpack _). vm_compute. exact I.
  - apply demo_allocated.
  - apply demo_init_exact.
  - lra.
Defined.

(** X8. Constructing a second experiment over variants that a first
    construction has normalised changes nothing, in exact arithmetic: the
    second constructor succeeds and leaves every variant as it found it. *)
Theorem init_twice_exact :
  forall (Rng : Type) (seed_rng : option Z -> Rng)
         (name name2 : string) (vs : list loc) (seed seed2 : option Z)
         (now now2 : Z) (σ σ' : Store R) (self : Experiment.t Rng),
    NoDup vs -> allocated σ vs ->
    Experiment.__init__ seed_rng name vs seed now σ = (Ok self, σ') ->
    Experiment.__init__ seed_rng name2 vs seed2 now2 σ'
      = (Ok (Experiment.mk name2 vs now2 (seed_rng seed2)), σ').
Proof.
  intros Rng seed_rng name name2 vs seed seed2 now now2 σ σ' self Hnd Halloc Hinit.
  destruct (init_ok_inv seed_rng _ _ _ _ _ _ _ Hinit) as (Hlen & Ht & _ & ->).
  set (σ' := normalized_store _ vs σ).
  assert (Htotal : total (weights_of σ' vs) = 1%R).
  { unfold σ'. rewrite normalized_exact_total by assumption. apply Rdiv_diag. lra. }
  rewrite init_eq, Htotal.
  replace (Z.of_nat (length vs) <? 2) with false by (symmetry; apply Z.ltb_ge; lia).
  replace (fle (F:=R) 1%R fzero) with false.
  2:{ symmetry. cbn. unfold Rleb. destruct (Rle_dec 1 0); [lra | reflexivity]. }
  f_equal. clear Htotal. generalize σ'. clear.
  induction vs as [|l vs IH]; intros σ; [reflexivity|].
  rewrite normalized_store_cons.
  replace (alter (Variant.set_weight (fdiv (weight_at σ l) 1%R)) l σ) with σ;
    [apply IH|].
  symmetry. apply alter_id. intros v Hv. unfold weight_at.
  rewrite (lookup_total_correct _ _ _ Hv). destruct v as [n w c e m].
  unfold Variant.set_weight. cbn. f_equal. apply Rdiv_1_r.
Qed.

Lemma init_twice_exact_witness :
  Experiment.__init__ no_rng_seed "again" [0%nat; 1%nat] None 1
    (snd (Experiment.__init__ no_rng_seed "exp" [0%nat; 1%nat] None 0
            (two_arms 3%R 1%R)))
  = (Ok (Experiment.mk "again" [0%nat; 1%nat] 1 (no_rng_seed None)),
     snd (Experiment.__init__ no_rng_seed "exp" [0%nat; 1%nat] None 0
            (two_arms 3%R 1%R))).
Proof.
  apply (init_twice_exact unit no_rng_seed "exp" "again" [0%nat; 1%nat] None None
           0 1 (two_arms 3%R 1%R) _ (Experiment.mk "exp" [0%nat; 1%nat] 0 tt)).
  - apply (bool_decide_unpack _). vm_compute. exact I.
  - apply demo_allocated.
  - apply demo_init_exact.
Defined.

(** In binary64 the fallback is reached: seven equal weights are normalised
    to 1/7 each and sum to 0.9999999999999998, below the largest value the
    generator can draw; the loop then finds no variant and the last one is
    returned. *)
Example fallback_reached_binary64 :
  let run := Experiment.__init__ no_rng_seed "exp" seven None 0 seven_arms in
  let self := Experiment.mk "exp" seven 0 tt in
  fst run = Ok self /\
  total (weights_of (snd run) seven) = 0x1.ffffffffffffep-1%float /\
  fst (Experiment.pick 0x1.fffffffffffffp-1%float 0%float seven (snd run))
    = Ok None /\
  fst (Experiment.assign_variant top_rng_next length_hash self None (snd run))
    = Ok (6%nat, self).
Proof. vm_compute. repeat split. Qed.

(** In binary64 a second construction over the same variants does change the
    weights: the seven weights no longer sum to 1, and each is divided
    again. *)
Example init_twice_binary64 :
  let first := Experiment.__init__ no_rng_seed "exp" seven None 0 seven_arms in
  let second := Experiment.__init__ no_rng_seed "again" seven None 1 (snd first) in
  is_ok (fst second) = true /\
  weight_at (snd first) 0%nat = 0x1.2492492492492p-3%float /\
  weight_at (snd second) 0%nat = 0x1.2492492492493p-3%float.
Proof. vm_compute. repeat split. Qed.

Lemma append_cons (x : ascii) (a b : string) :
  (String x a ++ b = String x (a ++ b))%string.
Proof. reflexivity. Qed.

Lemma append_nil_l (a : string) : ("" ++ a = a)%string.
Proof. reflexivity. Qed.

Lemma append_assoc (a b c : string) :
  ((a ++ b) ++ c = a ++ (b ++ c))%string.
Proof.
  induction a as [|x a IH]; [reflexivity|].
  rewrite !append_cons, IH. reflexivity.
Qed.

Lemma append_nil_r (a : string) : (a ++ "" = a)%string.
Proof.
  induction a as [|x a IH]; [reflexivity|]. rewrite append_cons, IH. reflexivity.
Qed.

Lemma occurs_in_refl (s : string) : occurs_in s s.
Proof.
  exists ""%string, ""%string. rewrite append_nil_l, append_nil_r. reflexivity.
Qed.

Lemma occurs_in_app (sub s pre post : string) :
  occurs_in sub s -> occurs_in sub (pre ++ s ++ post).
Proof.
  intros (a & b & ->). exists (pre ++ a)%string, (b ++ post)%string.
  rewrite !append_assoc. reflexivity.
Qed.

Lemma occurs_in_join (sep line : string) (lines : list string) :
  In line lines -> occurs_in line (join sep lines).
Proof.
  unfold join. induction lines as [|x lines IH]; [intros []|].
  intros [-> | Hin].
  - destruct lines as [|y lines]; [apply occurs_in_refl|].
    change (String.concat sep (line :: y :: lines))
      with (line ++ sep ++ String.concat sep (y :: lines))%string.
    exists ""%string, (sep ++ String.concat sep (y :: lines))%string.
    reflexivity.
  - destruct lines as [|y lines]; [destruct Hin|].
    change (String.concat sep (x :: y :: lines))
      with (x ++ sep ++ String.concat sep (y :: lines))%string.
    destruct (IH Hin) as (pre & post & ->).
    exists (x ++ sep ++ pre)%string, post. rewrite !append_assoc. reflexivity.
Qed.

Section Summary.
Context {F : Type} `{PyNum F} {Rng : Type}.
Variable strftime : Z -> string.
Variable format_percent : F -> string.

Abbreviation summary_block := (Experiment.summary_block format_percent).

Lemma collect_summary_eq (vs : list loc) (summary : list string) (σ : Store F) :
  Experiment.collect_summary format_percent summary vs σ =
    (Ok (summary ++ concat (map (fun l => summary_block (σ !!! l)) vs)), σ).
Proof.
  revert summary. induction vs as [|l vs IH]; intros summary.
  - cbn. rewrite app_nil_r. reflexivity.
  - cbn [Experiment.collect_summary map concat]. unfold bind, load.
    cbn [fst snd]. rewrite IH, <- app_assoc. reflexivity.
Qed.

(** The blocks have five lines each, so block [i] starts at line [5 * i]. *)
Lemma blocks_lookup (σ : Store F) (vs : list loc) (i k : nat) (l : loc) :
  vs !! i = Some l -> (k < 5)%nat ->
  concat (map (fun l => summary_block (σ !!! l)) vs) !! (5 * i + k)%nat
    = summary_block (σ !!! l) !! k.
Proof.
  revert i. induction vs as [|l0 vs IH]; intros i Hi Hk; [destruct i; discriminate|].
  cbn [map concat]. destruct i as [|i].
  - cbn in Hi. injection Hi as ->. rewrite lookup_app_l by (cbn; lia).
    reflexivity.
  - cbn in Hi. rewrite lookup_app_r by (cbn; lia).
    replace (5 * S i + k - length (summary_block (σ !!! l0)))%nat
      with (5 * i + k)%nat by (cbn; lia).
    apply IH; assumption.
Qed.

Lemma blocks_length (σ : Store F) (vs : list loc) :
  length (concat (map (fun l => summary_block (σ !!! l)) vs))
    = (5 * length vs)%nat.
Proof.
  induction vs as [|l vs IH]; [reflexivity|].
  cbn [map concat]. rewrite length_app, IH. cbn. lia.
Qed.
End Summary.

(** X9. [get_summary] changes nothing and returns the lines joined by line
    feeds: four header lines, the first naming the experiment and the third
    counting the variants, then for each variant, in list order, a block of
    five lines with its name, exposures, conversions and conversion rate.
    The experiment's name and every variant's name occur in the summary. *)
Theorem get_summary_layout :
  forall (F : Type) (N : PyNum F) (Rng : Type)
         (strftime : Z -> string) (format_percent : F -> string)
         (self : Experiment.t Rng) (σ : Store F),
    let vs := Experiment.variants self in
    exists lines,
      Experiment.get_summary strftime format_percent self σ
        = (Ok (join newline lines), σ) /\
      length lines = (4 + 5 * length vs)%nat /\
      lines !! 0%nat = Some ("Experiment: " ++ Experiment.name self)%string /\
      lines !! 1%nat
        = Some ("Created: " ++ strftime (Experiment.created_at self))%string /\
      lines !! 2%nat
        = Some ("Variants: " ++ str_of_int (Z.of_nat (length vs)))%string /\
      lines !! 3%nat = Some ""%string /\
      (forall i l, vs !! i = Some l ->
         lines !! (4 + 5 * i)%nat = Some ("  " ++ name_at σ l ++ ":")%string /\
         lines !! (5 + 5 * i)%nat
           = Some ("    Exposures: " ++ str_of_int (exposures_at σ l))%string /\
         lines !! (6 + 5 * i)%nat
           = Some ("    Conversions: " ++ str_of_int (conversions_at σ l))%string /\
         lines !! (7 + 5 * i)%nat
           = Some ("    Conversion Rate: "
                   ++ format_percent (Variant.conversion_rate (σ !!! l)))%string /\
         lines !! (8 + 5 * i)%nat = Some ""%string) /\
      occurs_in (Experiment.name self) (join newline lines) /\
      (forall l, In l vs -> occurs_in (name_at σ l) (join newline lines)).
Proof.
  intros F N Rng strftime format_percent self σ vs.
  unfold Experiment.get_summary, bind. fold vs. rewrite collect_summary_eq.
  set (header := [_; _; _; _]).
  set (blocks := concat _).
  exists (header ++ blocks). split; [reflexivity|].
  assert (Hblock : forall i l k, vs !! i = Some l -> (k < 5)%nat ->
            (header ++ blocks) !! (4 + 5 * i + k)%nat
              = Experiment.summary_block format_percent (σ !!! l) !! k).
  { intros i l k Hi Hk. rewrite lookup_app_r by (cbn; lia).
    replace (4 + 5 * i + k - length header)%nat with (5 * i + k)%nat by (cbn; lia).
    apply blocks_lookup; assumption. }
  split; [rewrite length_app; unfold blocks; rewrite blocks_length; reflexivity|].
  split; [reflexivity|]. split; [reflexivity|]. split; [reflexivity|].
  split; [reflexivity|]. split; [|split].
  - intros i l Hi.
    pose proof (Hblock i l 0%nat Hi ltac:(lia)) as H0.
    pose proof (Hblock i l 1%nat Hi ltac:(lia)) as H1.
    pose proof (Hblock i l 2%nat Hi ltac:(lia)) as H2.
    pose proof (Hblock i l 3%nat Hi ltac:(lia)) as H3.
    pose proof (Hblock i l 4%nat Hi ltac:(lia)) as H4.
    replace (4 + 5 * i + 0)%nat with (4 + 5 * i)%nat in H0 by lia.
    replace (4 + 5 * i + 1)%nat with (5 + 5 * i)%nat in H1 by lia.
    replace (4 + 5 * i + 2)%nat with (6 + 5 * i)%nat in H2 by lia.
    replace (4 + 5 * i + 3)%nat with (7 + 5 * i)%nat in H3 by lia.
    replace (4 + 5 * i + 4)%nat with (8 + 5 * i)%nat in H4 by lia.
    rewrite H0, H1, H2, H3, H4. repeat split; reflexivity.
  - assert (Hline : occurs_in ("Experiment: " ++ Experiment.name self)%string
                      (join newline (header ++ blocks))).
    { apply occurs_in_join. left. reflexivity. }
    destruct Hline as (pre & post & ->).
    exists (pre ++ "Experiment: ")%string, post.
    rewrite !append_assoc. reflexivity.
  - intros l Hl. apply list_elem_of_In, list_elem_of_lookup_1 in Hl.
    destruct Hl as [i Hi].
    assert (Hline : occurs_in ("  " ++ name_at σ l ++ ":")%string
                      (join newline (header ++ blocks))).
    { apply occurs_in_join, list_elem_of_In.
      apply (list_elem_of_lookup_2 _ (4 + 5 * i + 0)%nat).
      rewrite (Hblock i l 0%nat Hi ltac:(lia)). reflexivity. }
    destruct Hline as (pre & post & ->).
    exists (pre ++ "  ")%string, (":" ++ post)%string.
    rewrite !append_assoc. reflexivity.
Qed.

(** ** Comparisons in exact arithmetic *)

Lemma Rltb_true (x y : R) : (x < y)%R -> Rltb x y = true.
Proof. intros Hlt. unfold Rltb. destruct (Rlt_dec x y); [reflexivity | contradiction]. Qed.

Lemma Rltb_false (x y : R) : (y <= x)%R -> Rltb x y = false.
Proof. intros Hle. unfold Rltb. destruct (Rlt_dec x y); [lra | reflexivity]. Qed.

Lemma Rleb_true (x y : R) : (x <= y)%R -> Rleb x y = true.
Proof. intros Hle. unfold Rleb. destruct (Rle_dec x y); [reflexivity | contradiction]. Qed.

Lemma Rleb_false (x y : R) : (y < x)%R -> Rleb x y = false.
Proof. intros Hlt. unfold Rleb. destruct (Rle_dec x y); [lra | reflexivity]. Qed.

Lemma Reqb_true (x y : R) : x = y -> Reqb x y = true.
Proof. intros ->. unfold Reqb. destruct (Req_dec_T y y); [reflexivity | contradiction]. Qed.

Lemma Reqb_false (x y : R) : x <> y -> Reqb x y = false.
Proof. intros Hne. unfold Reqb. destruct (Req_dec_T x y); [contradiction | reflexivity]. Qed.

Lemma math_sqrt_exact (x : R) :
  (0 <= x)%R -> Statistics.math_sqrt x = Ok (sqrt x).
Proof.
  intros Hx. unfold Statistics.math_sqrt. cbn [flt fzero fsqrt exact].
  rewrite Rltb_false by exact Hx. reflexivity.
Qed.

(** ** Relative uplift *)

Lemma eqb_zero_iff (x : float) :
  (x =? 0)%float = true <-> x = 0%float \/ x = (-0)%float.
Proof.
  rewrite FloatAxioms.eqb_spec, Prim2SF_zero. split.
  - intros Heq.
    destruct (Prim2SF x) as [[|] | [|] | | [|] m e] eqn:E;
      try discriminate.
    + right. apply Prim2SF_inj. rewrite E. reflexivity.
    + left. apply Prim2SF_inj. rewrite E. reflexivity.
  - intros [-> | ->]; reflexivity.
Qed.

(** X10. In binary64, [calculate_relative_uplift] raises its [ValueError]
    exactly when the control rate is a zero of either sign; for every other
    control rate, NaN included, it returns
    [(treatment_rate - control_rate) / control_rate]. *)
Theorem relative_uplift_zero_control :
  forall control_rate treatment_rate : float,
    let run :=
      Statistics.calculate_relative_uplift control_rate treatment_rate in
    (run = Raise (ValueError "Control rate cannot be zero") <->
     control_rate = 0%float \/ control_rate = (-0)%float) /\
    (run = Ok ((treatment_rate - control_rate) / control_rate)%float <->
     control_rate <> 0%float /\ control_rate <> (-0)%float).
Proof.
  intros c t run. unfold run, Statistics.calculate_relative_uplift.
  cbn [feq fzero fsub fdiv binary64].
  pose proof (eqb_zero_iff c) as Hz.
  destruct (c =? 0)%float.
  - destruct Hz as [Hz _]. specialize (Hz eq_refl). split.
    + split; auto.
    + split; [discriminate | intros [H0 H1]; destruct Hz; contradiction].
  - split.
    + split; [discriminate|]. intros Hc. apply Hz in Hc. discriminate.
    + split; [|reflexivity]. intros _.
      split; intros Hc; [assert (false = true) by (apply Hz; left; exact Hc)
                        |assert (false = true) by (apply Hz; right; exact Hc)];
        discriminate.
Qed.

(** X11. In exact arithmetic the relative uplift inverts the treatment rate of
    [calculate_sample_size]: for a non-zero control rate the result [u]
    satisfies [treatment_rate = control_rate * (1 + u)], the uplift of
    [control_rate * (1 + u)] is [u], and for a positive control rate the
    uplift is positive exactly when the treatment rate is the larger. *)
Theorem relative_uplift_exact :
  forall control_rate treatment_rate : R,
    control_rate <> 0%R ->
    exists u,
      Statistics.calculate_relative_uplift control_rate treatment_rate = Ok u /\
      treatment_rate = (control_rate * (1 + u))%R /\
      (forall u',
         Statistics.calculate_relative_uplift control_rate
           (control_rate * (1 + u'))%R = Ok u') /\
      ((0 < control_rate)%R ->
       ((0 < u)%R <-> (control_rate < treatment_rate)%R) /\
       (u = 0%R <-> treatment_rate = control_rate)).
Proof.
  intros c t Hc. unfold Statistics.calculate_relative_uplift.
  cbn [feq fzero fsub fdiv exact]. rewrite Reqb_false by exact Hc.
  exists ((t - c) / c)%R. split; [reflexivity|].
  split; [field; exact Hc|]. split.
  - intros u'. f_equal. field. exact Hc.
  - intros Hpos. split.
    + split.
      * intros Hu. apply (Rmult_lt_compat_r c) in Hu; [|exact Hpos].
        unfold Rdiv in Hu. rewrite Rmult_assoc, Rinv_l in Hu by exact Hc. lra.
      * intros Hlt. apply Rdiv_lt_0_compat; lra.
    + split.
      * intros Hu. apply (f_equal (fun x => (x * c)%R)) in Hu.
        unfold Rdiv in Hu. rewrite Rmult_assoc, Rinv_l in Hu by exact Hc. lra.
      * intros ->. unfold Rdiv. ring.
Qed.

Lemma relative_uplift_exact_witness :
  exists u,
    Statistics.calculate_relative_uplift (1 / 10)%R (12 / 100)%R = Ok u /\
    (12 / 100)%R = (1 / 10 * (1 + u))%R /\
    (forall u',
       Statistics.calculate_relative_uplift (1 / 10)%R (1 / 10 * (1 + u'))%R
         = Ok u') /\
    ((0 < 1 / 10)%R ->
     ((0 < u)%R <-> (1 / 10 < 12 / 100)%R) /\
     (u = 0%R <-> (12 / 100)%R = (1 / 10)%R)).
Proof.
  apply (relative_uplift_exact (1 / 10)%R (12 / 100)%R). lra.
Defined.

(** ** Sample size *)

Lemma lift_sqrt_not_rejection {F : Type} `{PyNum F} (x : F) (e : Exception) :
  Statistics.math_sqrt x = Raise e -> ~ sample_size_rejection (Throw (Builtin e)).
Proof.
  unfold Statistics.math_sqrt. destruct (flt x fzero); [|discriminate].
  intros [= <-] (msg & [= <-] & Hin). cbn in Hin.
  repeat (destruct Hin as [Hin | Hin]; [discriminate|]). exact Hin.
Qed.

(** The failures of [math.ceil] are not among the rejections. *)
#[export] Instance binary64_ceil_laws : PyCeilLaws float.
Proof.
  constructor. intros x (msg & Heq & Hin). cbn [math_ceil binary64_ceil] in Heq.
  unfold float_ceil in Heq.
  destruct (Prim2SF x) as [s | s | | s m e]; try discriminate.
  injection Heq as <-. cbn in Hin.
  repeat (destruct Hin as [Hin | Hin]; [discriminate|]). exact Hin.
Qed.

#[export] Instance exact_ceil_laws : PyCeilLaws R.
Proof. constructor. intros x (msg & Heq & _). discriminate. Qed.

(** Settles the case of a check that fails: the outcome is a literal. *)
Ltac split_checks :=
  repeat match goal with
         | |- _ /\ _ => split
         | |- _ <-> _ => split
         end.

Ltac rejected :=
  split_checks; intros Hx; try reflexivity; try discriminate Hx;
  try (decompose [and] Hx; discriminate);
  try (repeat split; reflexivity);
  try (eexists; split; [reflexivity | cbn; tauto]).

(** X12. The checks of [calculate_sample_size] in the order the code makes
    them: each message is raised exactly when its check is the first to
    fail, and when every check passes the outcome is none of the five
    rejections. *)
Theorem sample_size_validation :
  forall (F : Type) (N : PyNum F) (C : PyCeil F) (L : PyCeilLaws F)
         (norm_ppf : F -> F)
         (baseline_rate minimum_detectable_effect alpha power : F)
         (two_tailed : bool),
    let run := Statistics.calculate_sample_size norm_ppf baseline_rate
                 minimum_detectable_effect alpha power two_tailed in
    let ok_baseline := flt fzero baseline_rate && flt baseline_rate fone in
    let ok_effect := negb (fle minimum_detectable_effect fzero) in
    let ok_alpha := flt fzero alpha && flt alpha fone in
    let ok_power := flt fzero power && flt power fone in
    let ok_treatment :=
      negb (fle fone
              (fmul baseline_rate (fadd fone minimum_detectable_effect))) in
    (run = Throw (Builtin (ValueError "Baseline rate must be between 0 and 1"))
       <-> ok_baseline = false) /\
    (run = Throw (Builtin
                    (ValueError "Minimum detectable effect must be positive"))
       <-> ok_baseline = true /\ ok_effect = false) /\
    (run = Throw (Builtin (ValueError "Alpha must be between 0 and 1"))
       <-> ok_baseline = true /\ ok_effect = true /\ ok_alpha = false) /\
    (run = Throw (Builtin (ValueError "Power must be between 0 and 1"))
       <-> ok_baseline = true /\ ok_effect = true /\ ok_alpha = true /\
           ok_power = false) /\
    (run = Throw (Builtin (ValueError "Treatment rate would exceed 1"))
       <-> ok_baseline = true /\ ok_effect = true /\ ok_alpha = true /\
           ok_power = true /\ ok_treatment = false) /\
    (sample_size_rejection run
       <-> ok_baseline && ok_effect && ok_alpha && ok_power && ok_treatment
           = false).
Proof.
  intros F N C L norm_ppf b mde alpha power two_tailed run
         ok_baseline ok_effect ok_alpha ok_power ok_treatment.
  subst run ok_baseline ok_effect ok_alpha ok_power ok_treatment.
  unfold Statistics.calculate_sample_size.
  destruct (flt fzero b && flt b fone); cbn [negb andb]; [|rejected].
  destruct (fle mde fzero); cbn [negb andb]; [rejected|].
  destruct (flt fzero alpha && flt alpha fone); cbn [negb andb]; [|rejected].
  destruct (flt fzero power && flt power fone); cbn [negb andb]; [|rejected].
  destruct (fle fone _); cbn [negb andb]; [rejected|].
  match goal with |- context [?r = Throw _ <-> _] => set (run := r) end.
  assert (Hpass : ~ sample_size_rejection run).
  { unfold run.
    destruct (Statistics.math_sqrt _) as [root_avg | e] eqn:E1;
      [|apply (lift_sqrt_not_rejection _ _ E1)].
    destruct (Statistics.math_sqrt (fadd _ _)) as [root_sum | e] eqn:E2;
      [|apply (lift_sqrt_not_rejection _ _ E2)].
    apply ceil_not_rejection. }
  split_checks; intros Hx; try discriminate Hx;
    try (decompose [and] Hx; discriminate);
    exfalso; apply Hpass; try exact Hx;
    (eexists; split; [exact Hx | cbn; tauto]).
Qed.

Lemma sample_size_validation_witness :
  let run := Statistics.calculate_sample_size norm_ppf_at_975
               0x1.999999999999ap-4%float 0x1.999999999999ap-3%float
               0x1.999999999999ap-5%float 0x1.999999999999ap-1%float true in
  sample_size_rejection run <-> true = false.
Proof.
  pose proof (sample_size_validation float binary64 binary64_ceil
                binary64_ceil_laws norm_ppf_at_975
                0x1.999999999999ap-4%float 0x1.999999999999ap-3%float
                0x1.999999999999ap-5%float 0x1.999999999999ap-1%float true)
    as (_ & _ & _ & _ & _ & H).
  exact H.
Defined.

(** ** Sample size in exact arithmetic *)

(** [1 - up (- x)] is the ceiling of [x]. *)
Lemma exact_ceil_spec (x : R) :
  (IZR (1 - up (- x)) - 1 < x <= IZR (1 - up (- x)))%R.
Proof.
  destruct (archimed (- x)) as [Hgt Hle].
  rewrite minus_IZR. lra.
Qed.

(** X13. In exact arithmetic [calculate_sample_size] returns on every input
    that passes its checks: the result is the least integer [n] with
    [n >= numerator / denominator], it is not negative, and it is at least 1
    unless the bracket of the formula is 0. *)
Theorem sample_size_exact :
  forall (norm_ppf : R -> R)
         (baseline_rate minimum_detectable_effect alpha power : R)
         (two_tailed : bool),
    (0 < baseline_rate < 1)%R -> (0 < minimum_detectable_effect)%R ->
    (0 < alpha < 1)%R -> (0 < power < 1)%R ->
    (baseline_rate * (1 + minimum_detectable_effect) < 1)%R ->
    let p1 := baseline_rate in
    let p2 := (baseline_rate * (1 + minimum_detectable_effect))%R in
    let z_alpha :=
      if two_tailed then norm_ppf (1 - alpha / 2)%R
      else norm_ppf (1 - alpha)%R in
    let z_beta := norm_ppf power in
    let p_avg := ((p1 + p2) / 2)%R in
    let bracket :=
      (z_alpha * sqrt (2 * p_avg * (1 - p_avg))
       + z_beta * sqrt (p1 * (1 - p1) + p2 * (1 - p2)))%R in
    let required := (bracket * bracket / ((p2 - p1) * (p2 - p1)))%R in
    exists n,
      Statistics.calculate_sample_size norm_ppf baseline_rate
        minimum_detectable_effect alpha power two_tailed = Return n /\
      (IZR n - 1 < required <= IZR n)%R /\
      0 <= n /\
      (bracket <> 0%R -> 1 <= n).
Proof.
  intros norm_ppf b mde alpha power two_tailed Hb Hmde Halpha Hpower Htr
         p1 p2 z_alpha z_beta p_avg bracket required.
  assert (Hp2 : (b < p2 < 1)%R) by (unfold p2; nra).
  assert (Havg : (0 < p_avg < 1)%R) by (unfold p_avg, p1; lra).
  assert (Hroot1 : (0 <= 2 * p_avg * (1 - p_avg))%R) by nra.
  assert (Hroot2 : (0 <= p1 * (1 - p1) + p2 * (1 - p2))%R) by (unfold p1; nra).
  assert (Hden : (0 < (p2 - p1) * (p2 - p1))%R) by (unfold p1; nra).
  assert (Hreq : (0 <= required)%R).
  { unfold required. apply Rmult_le_pos; [nra|].
    apply Rlt_le, Rinv_0_lt_compat, Hden. }
  exists (1 - up (- required)).
  pose proof (exact_ceil_spec required) as Hceil.
  split; [|split; [exact Hceil|split]].
  - unfold Statistics.calculate_sample_size.
    cbn [flt fle fzero fone fadd fsub fmul fdiv of_int exact].
    rewrite (Rltb_true 0 b), (Rltb_true b 1) by lra.
    rewrite (Rleb_false mde 0) by lra.
    rewrite (Rltb_true 0 alpha), (Rltb_true alpha 1) by lra.
    rewrite (Rltb_true 0 power), (Rltb_true power 1) by lra.
    fold p2. rewrite (Rleb_false 1 p2) by lra. cbn [negb andb].
    fold p1. fold p_avg.
    rewrite (math_sqrt_exact _ Hroot1), (math_sqrt_exact _ Hroot2).
    fold z_alpha z_beta. reflexivity.
  - apply le_IZR. lra.
  - intros Hne. assert (Hpos : (0 < required)%R).
    { unfold required. apply Rmult_lt_0_compat; [nra|].
      apply Rinv_0_lt_compat, Hden. }
    assert (Hn : (0 < IZR (1 - up (- required)))%R) by lra.
    apply lt_IZR in Hn. lia.
Qed.

Lemma sample_size_exact_witness :
  exists n,
    Statistics.calculate_sample_size (fun q => q) (1 / 10)%R (2 / 10)%R
      (5 / 100)%R (8 / 10)%R true = Return n /\
    (IZR n - 1 <
       ((1 - 5 / 100 / 2)
          * sqrt (2 * ((1 / 10 + 1 / 10 * (1 + 2 / 10)) / 2)
                  * (1 - (1 / 10 + 1 / 10 * (1 + 2 / 10)) / 2))
        + 8 / 10
          * sqrt (1 / 10 * (1 - 1 / 10)
                  + 1 / 10 * (1 + 2 / 10) * (1 - 1 / 10 * (1 + 2 / 10))))
       * ((1 - 5 / 100 / 2)
          * sqrt (2 * ((1 / 10 + 1 / 10 * (1 + 2 / 10)) / 2)
                  * (1 - (1 / 10 + 1 / 10 * (1 + 2 / 10)) / 2))
        + 8 / 10
          * sqrt (1 / 10 * (1 - 1 / 10)
                  + 1 / 10 * (1 + 2 / 10) * (1 - 1 / 10 * (1 + 2 / 10))))
       / ((1 / 10 * (1 + 2 / 10) - 1 / 10) * (1 / 10 * (1 + 2 / 10) - 1 / 10))
     <= IZR n)%R /\
    0 <= n /\
    ((((1 - 5 / 100 / 2)
        * sqrt (2 * ((1 / 10 + 1 / 10 * (1 + 2 / 10)) / 2)
                * (1 - (1 / 10 + 1 / 10 * (1 + 2 / 10)) / 2))
      + 8 / 10
        * sqrt (1 / 10 * (1 - 1 / 10)
                + 1 / 10 * (1 + 2 / 10) * (1 - 1 / 10 * (1 + 2 / 10))))%R
     <> 0%R) -> 1 <= n).
Proof.
  apply (sample_size_exact (fun q => q) (1 / 10)%R (2 / 10)%R (5 / 100)%R
           (8 / 10)%R true); lra.
Defined.

(** ** The z-test in exact arithmetic *)

Section ExactZTest.
Variable norm_cdf : R -> R.
Local Open Scope R_scope.

Abbreviation z_test := (Statistics.z_test_proportions (F:=R) norm_cdf).


(** The z-test for positive exposures, as a function of the variance. *)
Lemma z_test_exact_eq (ca ea cb eb : Z) (two_tailed : bool) :
  (0 < ea)%Z -> (0 < eb)%Z ->
  z_test ca ea cb eb two_tailed =
    if Rltb (pooled_variance ca ea cb eb) 0 then
      Raise (ValueError "math domain error")
    else
      let se := sqrt (pooled_variance ca ea cb eb) in
      if Reqb se 0 then Ok (0, 1, 0)
      else
        let z_score := (IZR ca / IZR ea - IZR cb / IZR eb) / se in
        Ok (z_score,
            (if two_tailed then 2 * (1 - norm_cdf (Rabs z_score))
             else 1 - norm_cdf z_score),
            se).
Proof.
  intros Ha Hb. unfold Statistics.z_test_proportions.
  replace ((ea <=? 0)%Z || (eb <=? 0)%Z) with false
    by (symmetry; apply orb_false_iff; split; apply Z.leb_gt; assumption).
  unfold Statistics.math_sqrt, truediv.
  cbn [flt feq fle fzero fone fadd fsub fmul fdiv fsqrt fabs of_int exact].
  fold (pooled_variance ca ea cb eb).
  destruct (Rltb (pooled_variance ca ea cb eb) 0); reflexivity.
Qed.

End ExactZTest.


(** X15. In exact arithmetic, for positive exposures and pooled conversions
    between 0 and the pooled exposures, the z-test returns (0, 1, 0) exactly
    when nobody converted or everybody did. *)
Theorem z_test_degenerate_exact :
  forall (norm_cdf : R -> R)
         (conversions_a exposures_a conversions_b exposures_b : Z)
         (two_tailed : bool),
    0 < exposures_a -> 0 < exposures_b ->
    0 <= conversions_a + conversions_b <= exposures_a + exposures_b ->
    (Statistics.z_test_proportions norm_cdf conversions_a exposures_a
       conversions_b exposures_b two_tailed = Ok (0%R, 1%R, 0%R) <->
     conversions_a + conversions_b = 0 \/
     conversions_a + conversions_b = exposures_a + exposures_b).
Proof.
  intros norm_cdf ca ea cb eb two_tailed Ha Hb Hc.
  rewrite z_test_exact_eq by assumption.
  pose proof (pooled_variance_nonneg (ca + cb) ea eb Ha Hb Hc) as Hvar.
  fold (pooled_variance ca ea cb eb) in Hvar.
  rewrite Rltb_false by exact Hvar. cbv zeta.
  assert (Hea : (0 < IZR ea)%R) by (apply IZR_lt; lia).
  assert (Heb : (0 < IZR eb)%R) by (apply IZR_lt; lia).
  assert (Hsum : (0 < IZR (ea + eb))%R) by (apply IZR_lt; lia).
  assert (Hinv : (0 < 1 / IZR ea + 1 / IZR eb)%R).
  { assert (0 < 1 / IZR ea)%R by (apply Rdiv_lt_0_compat; lra).
    assert (0 < 1 / IZR eb)%R by (apply Rdiv_lt_0_compat; lra). lra. }
  set (p := (IZR (ca + cb) / IZR (ea + eb))%R).
  assert (Hp0 : p = 0%R <-> ca + cb = 0).
  { unfold p. split.
    - intros Hp. apply (f_equal (fun x => (x * IZR (ea + eb))%R)) in Hp.
      unfold Rdiv in Hp. rewrite Rmult_assoc, Rinv_l, Rmult_1_r, Rmult_0_l in Hp
        by lra.
      apply eq_IZR in Hp. exact Hp.
    - intros ->. unfold Rdiv. ring. }
  assert (Hp1 : p = 1%R <-> ca + cb = ea + eb).
  { unfold p. split.
    - intros Hp. apply (f_equal (fun x => (x * IZR (ea + eb))%R)) in Hp.
      unfold Rdiv in Hp. rewrite Rmult_assoc, Rinv_l, Rmult_1_r, Rmult_1_l in Hp
        by lra.
      apply eq_IZR in Hp. exact Hp.
    - intros ->. apply Rdiv_diag. lra. }
  assert (Hzero : pooled_variance ca ea cb eb = 0%R <-> p = 0%R \/ p = 1%R).
  { unfold pooled_variance. fold p. split.
    - intros Hv. apply Rmult_integral in Hv. destruct Hv as [Hv | Hv]; [|lra].
      apply Rmult_integral in Hv. destruct Hv as [Hv | Hv]; [left | right]; lra.
    - intros [-> | ->]; ring. }
  destruct (Req_dec_T (pooled_variance ca ea cb eb) 0) as [Hv | Hv].
  - rewrite Hv, sqrt_0, Reqb_true by reflexivity.
    split; [intros _ | reflexivity].
    apply Hzero in Hv. destruct Hv as [Hv | Hv]; [left; apply Hp0 | right; apply Hp1];
      exact Hv.
  - assert (Hse : sqrt (pooled_variance ca ea cb eb) <> 0%R).
    { intros Hs. apply sqrt_eq_0 in Hs; [contradiction | exact Hvar]. }
    rewrite Reqb_false by exact Hse. split.
    + intros [= _ _ Hs]. contradiction.
    + intros Hc'. exfalso. apply Hv, Hzero.
      destruct Hc' as [Hc' | Hc']; [left; apply Hp0 | right; apply Hp1]; exact Hc'.
Qed.

Lemma z_test_degenerate_exact_witness :
  Statistics.z_test_proportions (fun x : R => x) 0 10 0 20 true
    = Ok (0%R, 1%R, 0%R) <->
  0 + 0 = 0 \/ 0 + 0 = 10 + 20.
Proof.
  apply (z_test_degenerate_exact (fun x : R => x) 0 10 0 20 true); lia.
Defined.



(** ** The Wilson interval in exact arithmetic *)




(** ** The report of [perform_t_test] *)

(** X17. [perform_t_test] never prints its "Fail to Reject" conclusion: the
    branch that prints it repeats the test of the branch it sits in.  When
    the p-value is not below [alpha] the two lines of statistics are all
    that is printed. *)
Theorem perform_t_test_never_fails_to_reject :
  forall (F : Type) (N : PyNum F)
         (ttest_ind : list F -> list F -> bool -> Result (F * F))
         (np_mean : list F -> F)
         (format_3f format_2f str_of_float : F -> string)
         (A B : list F) (alpha : F) (equal_var : bool),
    let run := Script.perform_t_test ttest_ind np_mean format_3f format_2f
                 str_of_float A B alpha equal_var in
    (forall line, In line (fst run) ->
       String.prefix (newline ++ "Conclusion: Fail") line = false) /\
    (forall t_stat p_value,
       ttest_ind A B equal_var = Ok (t_stat, p_value) ->
       flt p_value alpha = false ->
       run = ([ "Pooled t-test t-statistic: " ++ format_3f t_stat;
                "Pooled t-test p-value: " ++ format_3f p_value ]%string,
              Ok tt)) /\
    (forall e, ttest_ind A B equal_var = Raise e -> run = ([], Raise e)).
Proof.
  intros F N ttest_ind np_mean format_3f format_2f str_of_float A B alpha
         equal_var run.
  unfold run, Script.perform_t_test.
  destruct (ttest_ind A B equal_var) as [[t p] | e].
  - split; [|split].
    + destruct (flt p alpha); cbn [fst app In]; intros line Hin;
        repeat (destruct Hin as [<- | Hin]; [reflexivity|]); destruct Hin.
    + intros t' p' [= <- <-] ->. reflexivity.
    + discriminate.
  - split; [|split].
    + intros line [].
    + discriminate.
    + intros e' [= <-]. reflexivity.
Qed.

(** ** The guards in front of SciPy *)

(** X18. [t_test_means] raises its [ValueError] exactly when a sample has
    fewer than two values, whatever SciPy would have answered; otherwise its
    outcome is SciPy's. *)
Theorem t_test_means_guard :
  forall (F : Type) (N : PyNum F)
         (ttest_ind : list F -> list F -> bool -> Result (F * F))
         (values_a values_b : list F) (equal_var : bool),
    let run := Statistics.t_test_means ttest_ind values_a values_b equal_var in
    ((length values_a < 2)%nat \/ (length values_b < 2)%nat ->
     run = Raise (ValueError "Each sample must have at least 2 values")) /\
    ((2 <= length values_a)%nat -> (2 <= length values_b)%nat ->
     run = ttest_ind values_a values_b equal_var).
Proof.
  intros F N ttest_ind a b equal_var run. unfold run, Statistics.t_test_means.
  split.
  - intros Hshort.
    replace ((Z.of_nat (length a) <? 2) || (Z.of_nat (length b) <? 2)) with true;
      [reflexivity|].
    symmetry. apply orb_true_iff.
    destruct Hshort; [left | right]; apply Z.ltb_lt; lia.
  - intros Ha Hb.
    replace ((Z.of_nat (length a) <? 2) || (Z.of_nat (length b) <? 2)) with false
      by (symmetry; apply orb_false_iff; split; apply Z.ltb_ge; lia).
    destruct (ttest_ind a b equal_var) as [[t p] | e]; reflexivity.
Qed.

(** X19. [chi_square_test] raises its [ValueError] when the table has fewer
    than two rows (the empty table included: the first row is not read
    then) or its first row has fewer than two cells; it never raises
    [IndexError] itself; the later rows are not checked, and a table that
    passes is handed to SciPy as it is. *)
Theorem chi_square_test_guard :
  forall (F : Type) (N : PyNum F)
         (chi2_contingency :
            list (list Z) -> Result (F * F * Z * list (list F)))
         (contingency_table : list (list Z)),
    let run := Statistics.chi_square_test chi2_contingency contingency_table in
    let rejected :=
      Raise (ValueError "Contingency table must be at least 2x2") in
    ((length contingency_table < 2)%nat -> run = rejected) /\
    (forall row rest, contingency_table = row :: rest ->
       (length row < 2)%nat -> run = rejected) /\
    (forall row rest, contingency_table = row :: rest ->
       (1 <= length rest)%nat -> (2 <= length row)%nat ->
       run = match chi2_contingency contingency_table with
             | Ok (chi2, p_value, dof, expected) => Ok (chi2, p_value, dof)
             | Raise e => Raise e
             end).
Proof.
  intros F N chi2_contingency table run rejected.
  unfold run, rejected, Statistics.chi_square_test. split; [|split].
  - intros Hshort.
    replace (Z.of_nat (length table) <? 2) with true
      by (symmetry; apply Z.ltb_lt; lia). reflexivity.
  - intros row rest -> Hrow. cbn [length lookup list_lookup].
    destruct (Z.of_nat (S (length rest)) <? 2); [reflexivity|].
    replace (Z.of_nat (length row) <? 2) with true
      by (symmetry; apply Z.ltb_lt; lia). reflexivity.
  - intros row rest -> Hrest Hrow. cbn [length lookup list_lookup].
    replace (Z.of_nat (S (length rest)) <? 2) with false
      by (symmetry; apply Z.ltb_ge; lia).
    replace (Z.of_nat (length row) <? 2) with false
      by (symmetry; apply Z.ltb_ge; lia).
    destruct (chi2_contingency (row :: rest)) as [[[[chi2 p] dof] ex] | e];
      reflexivity.
Qed.

(** ** The guarded uplift of the case study *)

Lemma binary64_eqb_sym (x y : float) : (x =? y)%float = (y =? x)%float.
Proof.
  rewrite !FloatAxioms.eqb_spec. unfold SFeqb.
  rewrite (SFcompare_swap (Prim2SF x) (Prim2SF y)).
  destruct (SFcompare (Prim2SF x) (Prim2SF y)) as [[]|]; reflexivity.
Qed.

(** X20. Guarded as in the case study, by [control.conversion_rate > 0],
    [calculate_relative_uplift] does not raise, in binary64 as in exact
    arithmetic; and without exposures of the control variant the call is
    not made. *)
Theorem guarded_uplift_never_raises :
  (forall (control treatment : Variant.t float) (e : Exception),
      Traffic.guarded_uplift control treatment <> Some (Raise e)) /\
  (forall (control treatment : Variant.t R) (e : Exception),
      Traffic.guarded_uplift control treatment <> Some (Raise e)) /\
  (forall (control treatment : Variant.t float),
      Variant.exposures control = 0 ->
      Traffic.guarded_uplift control treatment = None) /\
  (forall (control treatment : Variant.t R),
      Variant.exposures control = 0 ->
      Traffic.guarded_uplift control treatment = None).
Proof.
  split; [|split; [|split]].
  - intros control treatment e. unfold Traffic.guarded_uplift.
    destruct (flt fzero (Variant.conversion_rate control)) eqn:E; [|discriminate].
    unfold Statistics.calculate_relative_uplift.
    cbn [flt feq fzero binary64] in E |- *.
    destruct (binary64_ltb_strict _ _ E) as (_ & Hne & _).
    rewrite binary64_eqb_sym, Hne. discriminate.
  - intros control treatment e. unfold Traffic.guarded_uplift.
    destruct (flt fzero (Variant.conversion_rate control)) eqn:E; [|discriminate].
    unfold Statistics.calculate_relative_uplift.
    cbn [flt feq fzero exact] in E |- *. unfold Rltb in E.
    destruct (Rlt_dec 0 (Variant.conversion_rate control)); [|discriminate].
    rewrite Reqb_false by lra. discriminate.
  - intros control treatment He. unfold Traffic.guarded_uplift.
    unfold Variant.conversion_rate. rewrite He. reflexivity.
  - intros control treatment He. unfold Traffic.guarded_uplift.
    unfold Variant.conversion_rate. rewrite He. cbn [Z.eqb].
    cbn [flt fzero exact]. rewrite Rltb_false by lra. reflexivity.
Qed.

(** ** Confidence intervals after traffic *)

Lemma sum_bounds (f : loc -> Z) (vs : list loc) (l : loc) :
  (forall l', In l' vs -> 0 <= f l') -> In l vs ->
  f l <= foldr Z.add 0 (map f vs).
Proof.
  induction vs as [|l0 vs IH]; intros Hpos Hin; [destruct Hin|].
  cbn [map foldr].
  assert (Hrest : 0 <= foldr Z.add 0 (map f vs)).
  { clear IH Hin. induction vs as [|l1 vs IH]; cbn [map foldr]; [lia|].
    assert (0 <= f l1) by (apply Hpos; right; left; reflexivity).
    assert (0 <= foldr Z.add 0 (map f vs)); [|lia].
    apply IH. intros l' [<- | Hl']; apply Hpos; [left | right; right]; auto. }
  assert (H0 : 0 <= f l0) by (apply Hpos; left; reflexivity).
  destruct Hin as [<- | Hin]; [lia|].
  assert (f l <= foldr Z.add 0 (map f vs)); [|lia].
  apply IH; [|exact Hin]. intros l' Hl'. apply Hpos. right. exact Hl'.
Qed.

Lemma sum_zero (f : loc -> Z) (vs : list loc) :
  (forall l, In l vs -> f l = 0) -> foldr Z.add 0 (map f vs) = 0.
Proof.
  induction vs as [|l vs IH]; intros Hz; [reflexivity|]. cbn [map foldr].
  rewrite (Hz l (or_introl eq_refl)), IH; [reflexivity|].
  intros l' Hl'. apply Hz. right. exact Hl'.
Qed.

(** X21. The intervals of [examples/confidence_intervals.py]: after the
    traffic loop has run on fresh variants with distinct names,
    [calculate_confidence_interval(variant.conversions, variant.exposures,
    level)] returns bounds within [0, 1] for every variant that got traffic,
    and raises "Exposures must be positive" for a variant that got none; it
    never rejects the conversions. *)
Theorem intervals_after_traffic :
  forall (Rng : Type) (next_random : Rng -> float * Rng) (hash : string -> Z)
         (converts : Z -> bool) (norm_ppf : float -> float)
         (self : Experiment.t Rng) (n : nat) (σ : Store float)
         (confidence_level : float),
    Experiment.variants self <> [] ->
    allocated σ (Experiment.variants self) ->
    NoDup (map (name_at σ) (Experiment.variants self)) ->
    (forall l, In l (Experiment.variants self) ->
       exposures_at σ l = 0 /\ conversions_at σ l = 0) ->
    Z.of_nat n < 2 ^ 53 ->
    flt fzero confidence_level && flt confidence_level fone = true ->
    exists self' σ',
      Traffic.simulate next_random hash converts self n σ = (Ok self', σ') /\
      forall l, In l (Experiment.variants self) ->
        let interval :=
          Statistics.calculate_confidence_interval norm_ppf
            (conversions_at σ' l) (exposures_at σ' l) confidence_level in
        (exposures_at σ' l = 0 ->
         interval = Raise (ValueError "Exposures must be positive")) /\
        (exposures_at σ' l <> 0 ->
         exists lower upper,
           interval = Ok (lower, upper) /\
           fle fzero lower = true /\ fle upper fone = true).
Proof.
  intros Rng next_random hash converts norm_ppf self n σ level
         Hne Halloc Hnames Hfresh Hn Hlevel.
  set (vs := Experiment.variants self) in *.
  destruct (visits_counts next_random hash converts (map Z.of_nat (seq 0 n))
              self σ Hne Halloc Hnames)
    as (self' & σ' & Hrun & _ & _ & _ & _ & Hexp & _ & Hmono).
  fold vs in Hexp, Hmono.
  rewrite length_map, length_seq in Hexp.
  assert (Hzero : total_exposures σ vs = 0).
  { apply sum_zero. intros l Hl. apply Hfresh, Hl. }
  exists self', σ'. split; [exact Hrun|]. intros l Hl interval.
  destruct (Hfresh l Hl) as [He0 Hc0]. destruct (Hmono l Hl) as (He & Hc & Hd).
  assert (Hle : exposures_at σ' l <= Z.of_nat n).
  { rewrite <- (Z.add_0_l (Z.of_nat n)), <- Hzero, <- Hexp.
    apply (sum_bounds (exposures_at σ') vs l); [|exact Hl].
    intros l' Hl'. destruct (Hfresh l' Hl') as [He0' _].
    destruct (Hmono l' Hl') as (He' & _). lia. }
  split.
  - intros Hz. unfold interval, Statistics.calculate_confidence_interval.
    rewrite Hz. reflexivity.
  - intros Hnz. apply binary64_interval_returns; [lia | lia | exact Hlevel].
Qed.

(** ** Binary64 arithmetic: bounds by powers of two *)

(** Rounding a value that is at most [2^k] gives at most [2^k]. *)
Lemma binary_round_aux_le_pow2 (k N D e0 m : Z) (l : location) :
  0 < D -> 0 <= m -> e0 <= k -> -1074 <= k <= 971 ->
  m * D <= N -> (m * D = N -> l = loc_Exact) -> N <= D * 2 ^ (k - e0) ->
  match binary_round_aux prec emax false m e0 l with
  | S754_zero false => True
  | S754_finite false m' e' =>
      e0 <= e' /\ e' <= k /\ Z.pos m' * 2 ^ (e' - e0) <= 2 ^ (k - e0)
  | _ => False
  end.
Proof.
  intros HD Hm He0 Hk Hle Hex Hone.
  unfold binary_round_aux.
  pose proof (shr_fexp_below N D e0 HD m e0 l Hm (Z.le_refl _)) as B1.
  rewrite Z.sub_diag, Z.pow_0_r, Z.mul_1_r in B1. specialize (B1 Hle Hex).
  pose proof (shr_fexp_exponent m e0 l) as E1.
  destruct (shr_fexp prec emax m e0 l) as [mrs1 e1]. cbn [fst snd] in B1, E1.
  destruct B1 as (Hm1 & He1 & Hle1 & Hex1).
  assert (Hb : 0 < 2 ^ (k - e0)) by (apply Z.pow_pos_nonneg; lia).
  assert (He1' : e1 <= k).
  { assert (fexp prec emax (Zdigits2 m + e0) <= k); [|lia].
    assert (Zdigits2 m + e0 <= k + 1); [|unfold fexp, emin, prec, emax; lia].
    destruct m as [|p|p]; [cbn; lia | | lia].
    cbn [Zdigits2]. pose proof (digits2_pos_bounds p) as [Hd _].
    assert (Z.pos p <= 2 ^ (k - e0)) by nia.
    assert (Z.pos (digits2_pos p) - 1 <= k - e0).
    { apply (Z.pow_le_mono_r_iff 2); lia. }
    lia. }
  set (m1 := shr_m mrs1) in *.
  set (mr := round_nearest_even m1 (loc_of_shr_record mrs1)).
  assert (HP : 0 < 2 ^ (e1 - e0)) by (apply Z.pow_pos_nonneg; lia).
  assert (Hsplit : 2 ^ (k - e0) = 2 ^ (e1 - e0) * 2 ^ (k - e1)).
  { rewrite <- Z.pow_add_r by lia. f_equal. lia. }
  assert (HQ : 0 < 2 ^ (k - e1)) by (apply Z.pow_pos_nonneg; lia).
  assert (Hmr : 0 <= mr /\ mr * 2 ^ (e1 - e0) <= 2 ^ (k - e0)).
  { assert (Hlow : m1 * 2 ^ (e1 - e0) <= 2 ^ (k - e0)) by nia.
    assert (Hup : loc_of_shr_record mrs1 <> loc_Exact ->
                  (m1 + 1) * 2 ^ (e1 - e0) <= 2 ^ (k - e0)).
    { intros Hne. assert (m1 * 2 ^ (e1 - e0) * D <> N) by (intros Heq; auto).
      assert (Hlt : m1 * 2 ^ (e1 - e0) < 2 ^ (k - e0)) by nia.
      rewrite Hsplit in Hlt |- *.
      assert (m1 < 2 ^ (k - e1)) by nia.
      pose proof (Z.mul_le_mono_nonneg_l (m1 + 1) (2 ^ (k - e1)) (2 ^ (e1 - e0))
                    ltac:(lia) ltac:(lia)) as Hmul.
      lia. }
    unfold mr, round_nearest_even.
    destruct (loc_of_shr_record mrs1) as [|[]].
    - split; [lia | exact Hlow].
    - destruct (Z.even m1); (split; [lia|]); [exact Hlow | apply Hup; discriminate].
    - split; [lia | exact Hlow].
    - split; [lia | apply Hup; discriminate]. }
  destruct Hmr as [Hmr0 Hmr1].
  pose proof (shr_fexp_below mr 1 e1 Z.lt_0_1 mr e1 loc_Exact Hmr0 (Z.le_refl _)) as B2.
  rewrite Z.sub_diag, Z.pow_0_r, !Z.mul_1_r in B2.
  specialize (B2 (Z.le_refl _) (fun _ => eq_refl)).
  destruct (shr_fexp prec emax mr e1 loc_Exact) as [mrs2 e2]. cbn [fst snd] in B2.
  destruct B2 as (Hm2 & He2 & Hle2 & _). rewrite Z.mul_1_r in Hle2.
  assert (Hfin : shr_m mrs2 * 2 ^ (e2 - e0) <= 2 ^ (k - e0)).
  { replace (e2 - e0) with ((e2 - e1) + (e1 - e0)) by lia.
    rewrite Z.pow_add_r by lia.
    assert (0 < 2 ^ (e2 - e1)) by (apply Z.pow_pos_nonneg; lia). nia. }
  destruct (shr_m mrs2) as [|p|p]; [exact I | | lia].
  assert (He2' : e2 <= k).
  { assert (2 ^ (e2 - e0) <= 2 ^ (k - e0)).
    { assert (0 < 2 ^ (e2 - e0)) by (apply Z.pow_pos_nonneg; lia). nia. }
    assert (e2 - e0 <= k - e0) by (apply (Z.pow_le_mono_r_iff 2); lia). lia. }
  replace (e2 <=? emax - prec) with true
    by (symmetry; apply Z.leb_le; unfold emax, prec; lia).
  split; [lia|]. split; [exact He2' | exact Hfin].
Qed.

(** The canonical mantissa of a valid float has at most 53 bits; with fewer
    the exponent is the least one. *)
Lemma valid_digits (m : positive) (e : Z) :
  valid_binary (S754_finite false m e) = true ->
  Z.pos (digits2_pos m) <= 53 /\ -1074 <= e <= 971 /\
  (-1074 < e -> Z.pos (digits2_pos m) = 53).
Proof.
  unfold SpecFloat.valid_binary, SpecFloat.bounded. intros Hvalid.
  apply andb_true_iff in Hvalid. destruct Hvalid as [Hcan Hb].
  unfold SpecFloat.canonical_mantissa in Hcan. apply Z.eqb_eq in Hcan.
  apply Z.leb_le in Hb.
  unfold fexp, emin, prec, emax in Hcan, Hb. lia.
Qed.

(** A valid positive float whose value is at most [2^k] compares [<=] to
    the float [2^k]. *)
Lemma SFleb_pow2 (k : Z) (m : positive) (e e0 : Z) :
  -1022 <= k ->
  valid_binary (S754_finite false m e) = true ->
  e0 <= e -> e0 <= k -> Z.pos m * 2 ^ (e - e0) <= 2 ^ (k - e0) ->
  SFleb (S754_finite false m e) (S754_finite false 4503599627370496 (k - 52))
    = true.
Proof.
  intros Hk Hvalid He0 He0k Hle. unfold SFleb, SFcompare.
  destruct (valid_digits m e Hvalid) as (Hd & He & Hnormal).
  destruct (Z.compare_spec e (k - 52)) as [Heq | Hlt | Hgt].
  - subst e.
    assert (Hsplit : 2 ^ (k - e0) = 4503599627370496 * 2 ^ (k - 52 - e0)).
    { change 4503599627370496 with (2 ^ 52). rewrite <- Z.pow_add_r by lia.
      f_equal. lia. }
    assert (0 < 2 ^ (k - 52 - e0)) by (apply Z.pow_pos_nonneg; lia).
    assert (Hm : Z.pos m <= 4503599627370496) by nia.
    rewrite Pos.compare_cont_spec.
    destruct (m ?= 4503599627370496)%positive eqn:Ec; try reflexivity.
    exfalso. apply Pos.compare_gt_iff in Ec. lia.
  - reflexivity.
  - exfalso. specialize (Hnormal ltac:(lia)).
    pose proof (digits2_pos_bounds m) as [Hlow _]. rewrite Hnormal in Hlow.
    change (2 ^ (53 - 1)) with 4503599627370496 in Hlow.
    assert (Hbig : 2 ^ (k - e0) < 4503599627370496 * 2 ^ (e - e0)).
    { change 4503599627370496 with (2 ^ 52). rewrite <- Z.pow_add_r by lia.
      apply Z.pow_lt_mono_r; lia. }
    assert (0 < 2 ^ (e - e0)) by (apply Z.pow_pos_nonneg; lia).
    nia.
Qed.

(** Conversely, a valid positive float that compares [<=] to 1 has a value
    of at most 1. *)
Lemma SFleb_one_inv (m : positive) (e : Z) :
  valid_binary (S754_finite false m e) = true ->
  SFleb (S754_finite false m e) (S754_finite false 4503599627370496 (-52))
    = true ->
  e <= 0 /\ Z.pos m <= 2 ^ (- e).
Proof.
  intros Hvalid. destruct (valid_digits m e Hvalid) as (Hd & He & _).
  pose proof (digits2_pos_bounds m) as [_ Hm].
  assert (Hm53 : Z.pos m < 2 ^ 53).
  { eapply Z.lt_le_trans; [exact Hm|]. apply Z.pow_le_mono_r; lia. }
  unfold SFleb, SFcompare.
  destruct (Z.compare_spec e (-52)) as [Heq | Hlt | Hgt].
  - subst e. rewrite Pos.compare_cont_spec. cbn [Pos.switch_Eq].
    destruct (m ?= 4503599627370496)%positive eqn:Ec; try discriminate; intros _.
    + apply Pos.compare_eq in Ec. subst m. split; [lia|]. cbn. lia.
    + apply Pos.compare_lt_iff in Ec. apply Pos2Z.pos_lt_pos in Ec.
      split; [lia|]. change (2 ^ (- -52)) with 4503599627370496. lia.
  - intros _. split; [lia|].
    assert (2 ^ 53 <= 2 ^ (- e)) by (apply Z.pow_le_mono_r; lia). lia.
  - discriminate.
Qed.

Lemma shl_align_spec (mx : positive) (ex ex' : Z) :
  snd (shl_align mx ex ex') <= ex /\
  Z.pos (fst (shl_align mx ex ex'))
    = Z.pos mx * 2 ^ (ex - snd (shl_align mx ex ex')).
Proof.
  unfold shl_align. destruct (ex' - ex) as [|d|d] eqn:Ed; cbn [fst snd].
  - rewrite Z.sub_diag. lia.
  - rewrite Z.sub_diag. lia.
  - split; [lia|]. rewrite iter_xO_value. f_equal. f_equal. lia.
Qed.

(** The sum of two positive floats, each at most 1, is at most 2. *)
Lemma SFadd_le_two (mx my : positive) (ex ey : Z) :
  ex <= 0 -> Z.pos mx <= 2 ^ (- ex) -> ey <= 0 -> Z.pos my <= 2 ^ (- ey) ->
  match SFadd prec emax (S754_finite false mx ex) (S754_finite false my ey) with
  | S754_zero false => True
  | S754_finite false m' e' =>
      exists e0, e0 <= e' /\ e0 <= 1 /\ Z.pos m' * 2 ^ (e' - e0) <= 2 ^ (1 - e0)
  | _ => False
  end.
Proof.
  intros Hex Hmx Hey Hmy. cbn [SFadd cond_Zopp].
  set (ez := Z.min ex ey).
  rewrite (shl_align_value mx ex ez), (shl_align_value my ey ez) by (unfold ez; lia).
  assert (Hsum : 0 < Z.pos mx * 2 ^ (ex - ez) + Z.pos my * 2 ^ (ey - ez)).
  { assert (0 < 2 ^ (ex - ez)) by (apply Z.pow_pos_nonneg; unfold ez; lia).
    assert (0 < 2 ^ (ey - ez)) by (apply Z.pow_pos_nonneg; unfold ez; lia).
    nia. }
  destruct (Z.pos mx * 2 ^ (ex - ez) + Z.pos my * 2 ^ (ey - ez)) as [|M|M] eqn:EM;
    try lia.
  cbn [binary_normalize]. unfold binary_round.
  destruct (shl_align_spec M ez (fexp prec emax (Z.pos (digits2_pos M) + ez)))
    as [Hez Hval].
  destruct (shl_align M ez _) as [mz e_z]. cbn [fst snd] in Hez, Hval.
  assert (Hbound : Z.pos mz <= 2 ^ (1 - e_z)).
  { rewrite Hval, <- EM, Z.mul_add_distr_r, <- !Z.mul_assoc, <- !Z.pow_add_r
      by (unfold ez in *; lia).
    replace (ex - ez + (ez - e_z)) with (ex - e_z) by lia.
    replace (ey - ez + (ez - e_z)) with (ey - e_z) by lia.
    assert (H1 : Z.pos mx * 2 ^ (ex - e_z) <= 2 ^ (- e_z)).
    { replace (- e_z) with (- ex + (ex - e_z)) by lia.
      rewrite Z.pow_add_r by (unfold ez in *; lia).
      apply Z.mul_le_mono_nonneg_r; [apply Z.pow_nonneg; lia | exact Hmx]. }
    assert (H2 : Z.pos my * 2 ^ (ey - e_z) <= 2 ^ (- e_z)).
    { replace (- e_z) with (- ey + (ey - e_z)) by lia.
      rewrite Z.pow_add_r by (unfold ez in *; lia).
      apply Z.mul_le_mono_nonneg_r; [apply Z.pow_nonneg; lia | exact Hmy]. }
    replace (1 - e_z) with (Z.succ (- e_z)) by lia.
    rewrite Z.pow_succ_r by (unfold ez in *; lia). lia. }
  pose proof (binary_round_aux_le_pow2 1 (Z.pos mz) 1 e_z (Z.pos mz) loc_Exact
                Z.lt_0_1 ltac:(lia) ltac:(unfold ez in *; lia) ltac:(lia)
                ltac:(lia) (fun _ => eq_refl) ltac:(lia)) as Hround.
  destruct (binary_round_aux prec emax false (Z.pos mz) e_z loc_Exact)
    as [[|] | | | [|] m2 e2]; try exact Hround.
  exists e_z. destruct Hround as (H1 & H2 & H3).
  split; [exact H1|]. split; [unfold ez in *; lia | exact H3].
Qed.

(** The quotient of two positive floats, the first not above the second, is
    at most 1. *)
Lemma SFdiv_le_one_gen (mc me : positive) (ec ee c : Z) :
  c <= ec -> c <= ee ->
  Z.pos mc * 2 ^ (ec - c) <= Z.pos me * 2 ^ (ee - c) ->
  match SFdiv prec emax (S754_finite false mc ec) (S754_finite false me ee) with
  | S754_zero false => True
  | S754_finite false m' e' =>
      exists e0, e0 <= e' /\ e0 <= 0 /\ Z.pos m' * 2 ^ (e' - e0) <= 2 ^ (- e0)
  | _ => False
  end.
Proof.
  intros Hcc Hce Hval.
  cbn [SFdiv xorb]. unfold SFdiv_core_binary. cbn [Zdigits2].
  assert (Hdig : Z.pos (digits2_pos mc) + ec <= Z.pos (digits2_pos me) + ee).
  { pose proof (digits2_pos_bounds mc) as [Hlow _].
    pose proof (digits2_pos_bounds me) as [_ Hup].
    assert (H1 : 0 < 2 ^ (ec - c)) by (apply Z.pow_pos_nonneg; lia).
    assert (H2 : 0 < 2 ^ (ee - c)) by (apply Z.pow_pos_nonneg; lia).
    assert (Hlt : 2 ^ (Z.pos (digits2_pos mc) - 1) * 2 ^ (ec - c)
                  < 2 ^ Z.pos (digits2_pos me) * 2 ^ (ee - c)) by nia.
    rewrite <- !Z.pow_add_r in Hlt by lia.
    apply Z.pow_lt_mono_r_iff in Hlt; lia. }
  set (e0 := Z.min (fexp prec emax (Z.pos (digits2_pos mc) + ec
                                    - (Z.pos (digits2_pos me) + ee)))
                   (ec - ee)).
  assert (He0 : e0 <= 0).
  { assert (fexp prec emax (Z.pos (digits2_pos mc) + ec
                            - (Z.pos (digits2_pos me) + ee)) <= 0)
      by (apply fexp_le_0; lia).
    unfold e0. lia. }
  assert (Hs : 0 <= ec - ee - e0) by (unfold e0; lia).
  set (m' := match ec - ee - e0 with
             | 0 => Z.pos mc
             | Z.pos _ => Z.shiftl (Z.pos mc) (ec - ee - e0)
             | Z.neg _ => 0
             end).
  assert (Hm' : m' = Z.pos mc * 2 ^ (ec - ee - e0)).
  { unfold m'. destruct (ec - ee - e0) as [|s|s] eqn:Es; [|rewrite Z.shiftl_mul_pow2|]; lia. }
  pose proof (Z_div_mod m' (Z.pos me) ltac:(lia)) as Hdiv.
  destruct (Z.div_eucl m' (Z.pos me)) as [q r]. destruct Hdiv as [Hq Hr].
  assert (HP : 0 < 2 ^ (ec - ee - e0)) by (apply Z.pow_pos_nonneg; lia).
  assert (Hq0 : 0 <= q) by nia.
  assert (Hone : m' <= Z.pos me * 2 ^ (- e0)).
  { rewrite Hm'.
    assert (Hc : 0 < 2 ^ (ee - c)) by (apply Z.pow_pos_nonneg; lia).
    apply (Z.mul_le_mono_pos_r _ _ (2 ^ (ee - c)) Hc).
    rewrite <- !Z.mul_assoc, <- !Z.pow_add_r by lia.
    replace (ec - ee - e0 + (ee - c)) with ((ec - c) + - e0) by lia.
    replace (- e0 + (ee - c)) with ((ee - c) + - e0) by lia.
    rewrite !Z.pow_add_r, !Z.mul_assoc by lia.
    apply Z.mul_le_mono_nonneg_r; [apply Z.pow_nonneg; lia | exact Hval]. }
  pose proof (binary_round_aux_le_one m' (Z.pos me) e0 q
                (new_location (Z.pos me) r) ltac:(lia) Hq0 He0 ltac:(nia)) as Hround.
  assert (Hex : q * Z.pos me = m' -> new_location (Z.pos me) r = loc_Exact).
  { intros Heq. assert (r = 0) by lia. subst r. apply new_location_exact. }
  specialize (Hround Hex Hone).
  destruct (binary_round_aux prec emax false q e0 (new_location (Z.pos me) r))
    as [[|] | | | [|] m2 e2]; try exact Hround.
  exists e0. destruct Hround as [H1 H2]. auto.
Qed.

Lemma Prim2SF_two :
  Prim2SF (float_of_Z 2) = S754_finite false 4503599627370496 (-51).
Proof. reflexivity. Qed.

(** The bound [m * 2^e <= 2^k], written at any exponent [c] below both. *)
Lemma pow2_rebase (m e k e0 c : Z) :
  0 < m -> e0 <= e -> e0 <= k -> c <= e -> c <= k ->
  m * 2 ^ (e - e0) <= 2 ^ (k - e0) -> m * 2 ^ (e - c) <= 2 ^ (k - c).
Proof.
  intros Hm He0 Hk0 Hce Hck Hle.
  set (d := Z.min e0 c).
  assert (Hd : m * 2 ^ (e - d) <= 2 ^ (k - d)).
  { replace (e - d) with ((e - e0) + (e0 - d)) by lia.
    replace (k - d) with ((k - e0) + (e0 - d)) by lia.
    rewrite !Z.pow_add_r, Z.mul_assoc by (unfold d; lia).
    apply Z.mul_le_mono_nonneg_r; [apply Z.pow_nonneg; lia | exact Hle]. }
  assert (Hpos : 0 < 2 ^ (c - d)) by (apply Z.pow_pos_nonneg; unfold d; lia).
  apply (Z.mul_le_mono_pos_r _ _ (2 ^ (c - d)) Hpos).
  rewrite <- Z.mul_assoc, <- !Z.pow_add_r by (unfold d; lia).
  replace (e - c + (c - d)) with (e - d) by lia.
  replace (k - c + (c - d)) with (k - d) by lia.
  exact Hd.
Qed.

Lemma sf_at_most_of_leb (x : float) :
  (0 <=? x)%float = true -> (x <=? 1)%float = true ->
  sf_at_most 0 (Prim2SF x).
Proof.
  pose proof (Prim2SF_valid x) as Hvalid.
  rewrite !FloatAxioms.leb_spec, Prim2SF_zero, Prim2SF_one.
  destruct (Prim2SF x) as [[|] | [|] | | [|] m e]; cbn [sf_at_most];
    try (intros; exact I); try discriminate.
  intros _ Hle. destruct (SFleb_one_inv m e Hvalid Hle) as [He Hm].
  exists e. rewrite Z.sub_diag, Z.pow_0_r, Z.sub_0_l. split; [lia|].
  split; [exact He | lia].
Qed.

Lemma sf_at_most_leb (x : float) :
  sf_at_most 0 (Prim2SF x) ->
  (0 <=? x)%float = true /\ (x <=? 1)%float = true.
Proof.
  pose proof (Prim2SF_valid x) as Hvalid.
  rewrite !FloatAxioms.leb_spec, Prim2SF_zero, Prim2SF_one.
  destruct (Prim2SF x) as [[|] | [|] | | [|] m e]; cbn [sf_at_most];
    try contradiction; try (intros _; split; reflexivity).
  intros (e0 & He0 & Hk & Hle). split; [reflexivity|].
  apply (SFleb_one m e e0 Hvalid He0 Hk Hle).
Qed.

Lemma sf_at_most_weaken (x : spec_float) : sf_at_most 0 x -> sf_at_most 1 x.
Proof.
  destruct x as [s | s | | [|] m e]; cbn [sf_at_most]; try tauto.
  intros (e0 & He0 & Hk & Hle). exists e0. split; [exact He0|]. split; [lia|].
  assert (2 ^ (0 - e0) <= 2 ^ (1 - e0)) by (apply Z.pow_le_mono_r; lia). lia.
Qed.

Lemma SFadd_at_most (x y : spec_float) :
  sf_at_most 0 x -> sf_at_most 0 y -> sf_at_most 1 (SFadd prec emax x y).
Proof.
  destruct x as [sx | sx | | [|] mx ex]; cbn [sf_at_most]; try contradiction;
    destruct y as [sy | sy | | [|] my ey]; cbn [sf_at_most]; try contradiction.
  - intros _ _. destruct sx, sy; exact I.
  - intros _ Hy. apply (sf_at_most_weaken (S754_finite false my ey)), Hy.
  - intros Hx _. apply (sf_at_most_weaken (S754_finite false mx ex)), Hx.
  - intros (e0 & He0 & Hk & Hle) (e0' & He0' & Hk' & Hle').
    assert (Hex : ex <= 0).
    { assert (0 < 2 ^ (ex - e0)) by (apply Z.pow_pos_nonneg; lia).
      assert (2 ^ (ex - e0) <= 2 ^ (0 - e0)) by nia.
      apply Z.pow_le_mono_r_iff in H0; lia. }
    assert (Hey : ey <= 0).
    { assert (0 < 2 ^ (ey - e0')) by (apply Z.pow_pos_nonneg; lia).
      assert (2 ^ (ey - e0') <= 2 ^ (0 - e0')) by nia.
      apply Z.pow_le_mono_r_iff in H0; lia. }
    pose proof (pow2_rebase (Z.pos mx) ex 0 e0 ex ltac:(lia) He0 Hk
                  (Z.le_refl _) Hex Hle) as Hx.
    pose proof (pow2_rebase (Z.pos my) ey 0 e0' ey ltac:(lia) He0' Hk'
                  (Z.le_refl _) Hey Hle') as Hy.
    rewrite Z.sub_diag, Z.pow_0_r, Z.mul_1_r in Hx, Hy. cbn [Z.sub Z.opp Z.add] in Hx, Hy.
    pose proof (SFadd_le_two mx my ex ey Hex Hx Hey Hy) as Hsum.
    destruct (SFadd prec emax _ _) as [[|] | | | [|] m' e']; try contradiction;
      cbn [sf_at_most]; [exact I | exact Hsum].
Qed.

Lemma SFdiv_two_at_most (x : spec_float) :
  sf_at_most 1 x ->
  sf_at_most 0
    (SFdiv prec emax x (S754_finite false 4503599627370496 (-51))).
Proof.
  destruct x as [sx | sx | | [|] mx ex]; cbn [sf_at_most]; try contradiction.
  - intros _. exact I.
  - intros (e0 & He0 & Hk & Hle).
    set (c := Z.min ex (-51)).
    pose proof (pow2_rebase (Z.pos mx) ex 1 e0 c ltac:(lia) He0 Hk
                  ltac:(unfold c; lia) ltac:(unfold c; lia) Hle) as Hx.
    pose proof (SFdiv_le_one_gen mx 4503599627370496 ex (-51) c
                  ltac:(unfold c; lia) ltac:(unfold c; lia)) as Hq.
    assert (Hval : Z.pos mx * 2 ^ (ex - c) <= 4503599627370496 * 2 ^ (-51 - c)).
    { change 4503599627370496 with (2 ^ 52).
      rewrite <- Z.pow_add_r by (unfold c; lia).
      replace (52 + (-51 - c)) with (1 - c) by lia. exact Hx. }
    specialize (Hq Hval).
    destruct (SFdiv prec emax _ _) as [[|] | | | [|] m' e']; try contradiction;
      cbn [sf_at_most]; [exact I|].
    destruct Hq as (e1 & H1 & H2 & H3). exists e1.
    split; [exact H1|]. split; [exact H2 | exact H3].
Qed.

(** The mean of two binary64 numbers of [0, 1] lies in [0, 1]. *)
Lemma half_sum_unit (p1 p2 : float) :
  (0 <=? p1)%float = true -> (p1 <=? 1)%float = true ->
  (0 <=? p2)%float = true -> (p2 <=? 1)%float = true ->
  (0 <=? (p1 + p2) / float_of_Z 2)%float = true /\
  ((p1 + p2) / float_of_Z 2 <=? 1)%float = true.
Proof.
  intros H1 H2 H3 H4. apply sf_at_most_leb.
  rewrite FloatAxioms.div_spec, FloatAxioms.add_spec, Prim2SF_two.
  apply SFdiv_two_at_most, SFadd_at_most; apply sf_at_most_of_leb; assumption.
Qed.

(** ** Binary64 arithmetic: multiplying by 1, subtracting from itself *)

Lemma iter_pos_eq {A : Type} (f : A -> A) (k : positive) (x : A) :
  SpecFloat.iter_pos f k x = Pos.iter f x k.
Proof.
  revert x. induction k as [k IH | k IH |]; intros x; cbn [SpecFloat.iter_pos Pos.iter].
  - rewrite !IH, !Pos.iter_swap. reflexivity.
  - rewrite !IH. reflexivity.
  - reflexivity.
Qed.

(** Shifting right what was shifted left loses nothing. *)
Lemma iter_shr_1_xO (m k : positive) :
  SpecFloat.iter_pos shr_1 k
    {| shr_m := Z.pos (Pos.iter xO m k); shr_r := false; shr_s := false |}
  = {| shr_m := Z.pos m; shr_r := false; shr_s := false |}.
Proof.
  rewrite iter_pos_eq. induction k as [|k IH] using Pos.peano_ind.
  - reflexivity.
  - rewrite (Pos.iter_succ_r k shr_record shr_1), (Pos.iter_succ k positive xO).
    cbn [shr_1 orb]. exact IH.
Qed.

(** A canonical mantissa shifted left by [k] bits rounds back to itself. *)
Lemma binary_round_aux_shifted (s : bool) (m k : positive) (e : Z) :
  fexp prec emax (Z.pos (digits2_pos m) + e) = e -> e <= emax - prec ->
  binary_round_aux prec emax s (Z.pos (Pos.iter xO m k)) (e - Z.pos k) loc_Exact
  = S754_finite s m e.
Proof.
  intros Hcan He. unfold binary_round_aux, shr_fexp. cbn [Zdigits2].
  rewrite iter_xO_digits.
  replace (Z.pos (digits2_pos m + k) + (e - Z.pos k))
    with (Z.pos (digits2_pos m) + e) by lia.
  rewrite Hcan.
  replace (e - (e - Z.pos k)) with (Z.pos k) by lia.
  cbn [shr shr_record_of_loc]. rewrite iter_shr_1_xO.
  cbn [shr_m loc_of_shr_record round_nearest_even Zdigits2].
  replace (e - Z.pos k + Z.pos k) with e by lia.
  rewrite Hcan, Z.sub_diag. cbn [shr shr_record_of_loc shr_m].
  apply Z.leb_le in He. rewrite He. reflexivity.
Qed.

Lemma valid_canonical (s : bool) (m : positive) (e : Z) :
  valid_binary (S754_finite s m e) = true ->
  fexp prec emax (Z.pos (digits2_pos m) + e) = e /\ e <= emax - prec.
Proof.
  unfold SpecFloat.valid_binary, SpecFloat.bounded. intros Hvalid.
  apply andb_true_iff in Hvalid. destruct Hvalid as [Hcan Hb].
  unfold SpecFloat.canonical_mantissa in Hcan. apply Z.eqb_eq in Hcan.
  apply Z.leb_le in Hb. auto.
Qed.

(** [x * 1.0] is [x], for every binary64 [x]. *)
Lemma mul_one_r (x : float) : (x * 1)%float = x.
Proof.
  apply Prim2SF_inj. rewrite FloatAxioms.mul_spec, Prim2SF_one.
  pose proof (Prim2SF_valid x) as Hvalid.
  destruct (Prim2SF x) as [[|] | [|] | | s m e]; try reflexivity.
  cbn [SF64mul SFmul]. rewrite xorb_false_r.
  destruct (valid_canonical s m e Hvalid) as [Hcan He].
  replace (m * 4503599627370496)%positive with (Pos.iter xO m 52).
  - replace (e + -52) with (e - 52) by lia.
    apply binary_round_aux_shifted; assumption.
  - apply Pos2Z.inj. rewrite iter_xO_value, Pos2Z.inj_mul. reflexivity.
Qed.

(** [x - x] is [+0.0] for a finite [x]. *)
Lemma sub_diag_finite (x : float) (s : bool) (m : positive) (e : Z) :
  Prim2SF x = S754_finite s m e -> Prim2SF (x - x)%float = S754_zero false.
Proof.
  intros Hx. rewrite FloatAxioms.sub_spec, Hx. cbn [SF64sub SFsub].
  rewrite Z.sub_diag. reflexivity.
Qed.

(** Dividing by [+0.0] gives an infinity or NaN. *)
Lemma div_zero_not_finite (x y : float) :
  Prim2SF y = S754_zero false ->
  Prim2SF (x / y)%float = S754_nan \/
  exists s, Prim2SF (x / y)%float = S754_infinity s.
Proof.
  intros Hy. rewrite FloatAxioms.div_spec, Hy. cbn [SF64div].
  destruct (Prim2SF x) as [sx | sx | | sx m e]; cbn [SFdiv]; eauto.
Qed.

(** ** Sample size in binary64 *)

Lemma nan_nonneg (x : float) :
  Prim2SF x = S754_nan -> sf_nonneg (Prim2SF x) = true.
Proof. intros ->. reflexivity. Qed.

Lemma leb_zero_false_nonneg (x : float) :
  (x <=? 0)%float = false -> sf_nonneg (Prim2SF x) = true.
Proof.
  rewrite FloatAxioms.leb_spec, Prim2SF_zero. unfold SFleb.
  destruct (Prim2SF x) as [[|] | [|] | | [|] m e]; cbn; congruence.
Qed.

(** A number that is not negative and not [>= 1] is NaN or lies in
    [0, 1]. *)
Lemma SF_below_one_unit (x : spec_float) :
  sf_nonneg x = true ->
  SFleb (S754_finite false 4503599627370496 (-52)) x = false ->
  x = S754_nan \/
  (SFleb (S754_zero false) x = true /\
   SFleb x (S754_finite false 4503599627370496 (-52)) = true).
Proof.
  destruct x as [[|] | [|] | | [|] m e]; cbn [sf_nonneg]; try discriminate;
    intros _ Hle.
  - right. split; reflexivity.
  - right. split; reflexivity.
  - left. reflexivity.
  - right. split; [reflexivity|]. unfold SFleb in Hle |- *.
    rewrite (SFcompare_swap (S754_finite false m e)) in Hle.
    destruct (SFcompare (S754_finite false m e)
                (S754_finite false 4503599627370496 (-52))) as [[]|] eqn:E;
      cbn [option_map CompOpp] in Hle; try discriminate; reflexivity.
Qed.

Lemma below_one_unit (x : float) :
  sf_nonneg (Prim2SF x) = true -> (1 <=? x)%float = false ->
  Prim2SF x = S754_nan \/
  ((0 <=? x)%float = true /\ (x <=? 1)%float = true).
Proof.
  rewrite !FloatAxioms.leb_spec, Prim2SF_zero, Prim2SF_one.
  apply SF_below_one_unit.
Qed.

(** NaN operands give NaN results. *)
Lemma add_nan_r (x y : float) :
  Prim2SF y = S754_nan -> Prim2SF (x + y)%float = S754_nan.
Proof.
  intros Hy. rewrite FloatAxioms.add_spec, Hy.
  destruct (Prim2SF x) as [[|] | [|] | | [|] m e]; reflexivity.
Qed.

Lemma div_nan_l (x y : float) :
  Prim2SF x = S754_nan -> Prim2SF (x / y)%float = S754_nan.
Proof. intros Hx. rewrite FloatAxioms.div_spec, Hx. reflexivity. Qed.

Lemma mul_nan_l (x y : float) :
  Prim2SF x = S754_nan -> Prim2SF (x * y)%float = S754_nan.
Proof. intros Hx. rewrite FloatAxioms.mul_spec, Hx. reflexivity. Qed.

Lemma mul_nan_r (x y : float) :
  Prim2SF y = S754_nan -> Prim2SF (x * y)%float = S754_nan.
Proof.
  intros Hy. rewrite FloatAxioms.mul_spec, Hy.
  destruct (Prim2SF x) as [[|] | [|] | | [|] m e]; reflexivity.
Qed.

(** [p * (1 - p)] is not negative for [p] in [0, 1] or NaN. *)
Lemma variance_term_nonneg (p : float) :
  Prim2SF p = S754_nan \/
  ((0 <=? p)%float = true /\ (p <=? 1)%float = true) ->
  sf_nonneg (Prim2SF (p * (1 - p))%float) = true.
Proof.
  intros [Hnan | [H0 H1]].
  - apply nan_nonneg, mul_nan_l, Hnan.
  - apply unit_variance_nonneg; assumption.
Qed.

(** The rates of [calculate_sample_size] after its checks: the baseline rate
    lies in [0, 1], and the treatment rate does too unless it is NaN. *)
Lemma baseline_unit (baseline_rate : float) :
  (0 <? baseline_rate)%float && (baseline_rate <? 1)%float = true ->
  (0 <=? baseline_rate)%float = true /\ (baseline_rate <=? 1)%float = true.
Proof.
  intros Hb. apply andb_true_iff in Hb. destruct Hb as [H0 H1].
  split; [apply (binary64_ltb_strict _ _ H0) | apply (binary64_ltb_strict _ _ H1)].
Qed.

Lemma treatment_unit (baseline_rate minimum_detectable_effect : float) :
  (0 <? baseline_rate)%float && (baseline_rate <? 1)%float = true ->
  (minimum_detectable_effect <=? 0)%float = false ->
  (1 <=? baseline_rate * (1 + minimum_detectable_effect))%float = false ->
  Prim2SF (baseline_rate * (1 + minimum_detectable_effect))%float = S754_nan \/
  ((0 <=? baseline_rate * (1 + minimum_detectable_effect))%float = true /\
   (baseline_rate * (1 + minimum_detectable_effect) <=? 1)%float = true).
Proof.
  intros Hb He Ht. apply below_one_unit; [|exact Ht].
  apply mul_nonneg; [apply leb_zero_nonneg, baseline_unit, Hb|].
  apply add_nonneg; [reflexivity | apply leb_zero_false_nonneg, He].
Qed.

(** The argument of the first square root is not negative. *)
Lemma root_avg_nonneg (p1 p2 : float) :
  (0 <=? p1)%float = true /\ (p1 <=? 1)%float = true ->
  Prim2SF p2 = S754_nan \/
  ((0 <=? p2)%float = true /\ (p2 <=? 1)%float = true) ->
  sf_nonneg
    (Prim2SF (float_of_Z 2 * ((p1 + p2) / float_of_Z 2)
              * (1 - (p1 + p2) / float_of_Z 2))%float) = true.
Proof.
  intros [H0 H1] [Hnan | [H2 H3]].
  - apply nan_nonneg, mul_nan_l, mul_nan_r, div_nan_l, add_nan_r, Hnan.
  - destruct (half_sum_unit p1 p2 H0 H1 H2 H3) as [Ha0 Ha1].
    apply mul_nonneg; [|apply one_minus_nonneg; assumption].
    apply mul_nonneg; [reflexivity | apply leb_zero_nonneg, Ha0].
Qed.

(** The argument of the second square root is not negative. *)
Lemma root_sum_nonneg (p1 p2 : float) :
  (0 <=? p1)%float = true /\ (p1 <=? 1)%float = true ->
  Prim2SF p2 = S754_nan \/
  ((0 <=? p2)%float = true /\ (p2 <=? 1)%float = true) ->
  sf_nonneg (Prim2SF (p1 * (1 - p1) + p2 * (1 - p2))%float) = true.
Proof.
  intros H1 H2. apply add_nonneg; apply variance_term_nonneg;
    [right; exact H1 | exact H2].
Qed.

(** The outcome on inputs that pass the five checks. *)
Lemma sample_size_binary64_eq (norm_ppf : float -> float)
    (baseline_rate minimum_detectable_effect alpha power : float)
    (two_tailed : bool) :
  (0 <? baseline_rate)%float && (baseline_rate <? 1)%float = true ->
  (minimum_detectable_effect <=? 0)%float = false ->
  (0 <? alpha)%float && (alpha <? 1)%float = true ->
  (0 <? power)%float && (power <? 1)%float = true ->
  (1 <=? baseline_rate * (1 + minimum_detectable_effect))%float = false ->
  let p1 := baseline_rate in
  let p2 := (baseline_rate * (1 + minimum_detectable_effect))%float in
  let z_alpha :=
    if two_tailed then norm_ppf (1 - alpha / float_of_Z 2)%float
    else norm_ppf (1 - alpha)%float in
  let z_beta := norm_ppf power in
  let p_avg := ((p1 + p2) / float_of_Z 2)%float in
  let bracket :=
    (z_alpha * PrimFloat.sqrt (float_of_Z 2 * p_avg * (1 - p_avg))
     + z_beta * PrimFloat.sqrt (p1 * (1 - p1) + p2 * (1 - p2)))%float in
  Statistics.calculate_sample_size norm_ppf baseline_rate
    minimum_detectable_effect alpha power two_tailed
  = float_ceil (bracket * bracket / ((p2 - p1) * (p2 - p1)))%float.
Proof.
  intros Hb He Ha Hp Ht p1 p2 z_alpha z_beta p_avg bracket.
  unfold Statistics.calculate_sample_size.
  cbn [flt fle fzero fone fadd fsub fmul fdiv fsqrt of_int binary64].
  rewrite Hb, He, Ha, Hp. cbn [negb]. rewrite Ht.
  unfold Statistics.math_sqrt.
  cbn [flt fle fzero fone fadd fsub fmul fdiv fsqrt of_int binary64].
  pose proof (baseline_unit baseline_rate Hb) as Hp1.
  pose proof (treatment_unit baseline_rate minimum_detectable_effect Hb He Ht)
    as Hp2.
  rewrite (ltb_zero_nonneg _ (root_avg_nonneg _ _ Hp1 Hp2)).
  rewrite (ltb_zero_nonneg _ (root_sum_nonneg _ _ Hp1 Hp2)).
  reflexivity.
Qed.



(** X23. An effect so small that [1 + effect] rounds to 1 passes the checks
    of [calculate_sample_size] in binary64, but the treatment rate then
    equals the baseline rate, the denominator is 0.0, and the call ends in
    [math.ceil] with [OverflowError] or with [ValueError] (NaN): no sample
    size is returned. *)
Theorem sample_size_vanishing_effect :
  forall (norm_ppf : float -> float)
         (baseline_rate minimum_detectable_effect alpha power : float)
         (two_tailed : bool),
    (0 <? baseline_rate)%float && (baseline_rate <? 1)%float = true ->
    (minimum_detectable_effect <=? 0)%float = false ->
    (0 <? alpha)%float && (alpha <? 1)%float = true ->
    (0 <? power)%float && (power <? 1)%float = true ->
    (1 + minimum_detectable_effect)%float = 1%float ->
    let run := Statistics.calculate_sample_size norm_ppf baseline_rate
                 minimum_detectable_effect alpha power two_tailed in
    run = Throw (OverflowError "cannot convert float infinity to integer") \/
    run = Throw (Builtin (ValueError "cannot convert float NaN to integer")).
Proof.
  intros norm_ppf b mde alpha power two_tailed Hb He Ha Hp Hone run.
  assert (Hb' := Hb). apply andb_true_iff in Hb'. destruct Hb' as [Hb0 Hb1].
  assert (Ht : (1 <=? b * (1 + mde))%float = false).
  { rewrite Hone, mul_one_r. apply (binary64_ltb_strict _ _ Hb1). }
  unfold run. rewrite sample_size_binary64_eq by assumption.
  rewrite Hone, mul_one_r.
  assert (Hfin : exists s m e, Prim2SF b = S754_finite s m e).
  { rewrite FloatAxioms.ltb_spec, Prim2SF_zero in Hb0.
    rewrite FloatAxioms.ltb_spec, Prim2SF_one in Hb1.
    destruct (Prim2SF b) as [[|] | [|] | | s m e]; try discriminate; eauto. }
  destruct Hfin as (s & m & e & Hfin).
  assert (Hden : Prim2SF ((b - b) * (b - b))%float = S754_zero false).
  { rewrite FloatAxioms.mul_spec, (sub_diag_finite b s m e Hfin). reflexivity. }
  match goal with |- context [float_ceil (?num / ?den)%float] =>
    destruct (div_zero_not_finite num den Hden) as [Hq | [sq Hq]] end;
    unfold float_ceil; rewrite Hq; auto.
Qed.

Lemma sample_size_vanishing_effect_witness :
  let run := Statistics.calculate_sample_size norm_ppf_at_975
               0.5%float 0x1p-60%float
               0x1.999999999999ap-5%float 0x1.999999999999ap-1%float true in
  run = Throw (OverflowError "cannot convert float infinity to integer") \/
  run = Throw (Builtin (ValueError "cannot convert float NaN to integer")).
Proof.
  apply (sample_size_vanishing_effect norm_ppf_at_975 0.5%float 0x1p-60%float
           0x1.999999999999ap-5%float 0x1.999999999999ap-1%float true);
    reflexivity.
Defined.

Lemma simulate_counts_witness :
  exists self' σ',
    Traffic.simulate no_rng_next length_hash Traffic.every_tenth
      demo_experiment 3 (two_arms 0.5%float 0.5%float) = (Ok self', σ') /\
    Experiment.variants self' = [0%nat; 1%nat] /\
    config σ' [0%nat; 1%nat]
      = config (two_arms 0.5%float 0.5%float) [0%nat; 1%nat] /\
    total_exposures σ' [0%nat; 1%nat]
      = total_exposures (two_arms 0.5%float 0.5%float) [0%nat; 1%nat]
        + Z.of_nat 3 /\
    total_conversions σ' [0%nat; 1%nat]
      = total_conversions (two_arms 0.5%float 0.5%float) [0%nat; 1%nat]
        + Z.of_nat (length (List.filter Traffic.every_tenth
                              (map Z.of_nat (seq 0 3)))) /\
    forall l, In l [0%nat; 1%nat] ->
      exposures_at (two_arms 0.5%float 0.5%float) l <= exposures_at σ' l /\
      conversions_at (two_arms 0.5%float 0.5%float) l <= conversions_at σ' l /\
      conversions_at σ' l - conversions_at (two_arms 0.5%float 0.5%float) l
        <= exposures_at σ' l - exposures_at (two_arms 0.5%float 0.5%float) l.
Proof.
  apply (simulate_counts float binary64 unit no_rng_next length_hash
           Traffic.every_tenth demo_experiment 3 (two_arms 0.5%float 0.5%float)).
  - discriminate.
  - apply demo_allocated.
  - apply (bool_decide_unpack _). vm_compute. exact I.
Defined.

Lemma intervals_after_traffic_witness :
  exists self' σ',
    Traffic.simulate no_rng_next length_hash Traffic.every_tenth
      demo_experiment 3 (two_arms 0.5%float 0.5%float) = (Ok self', σ') /\
    forall l, In l [0%nat; 1%nat] ->
      let interval :=
        Statistics.calculate_confidence_interval norm_ppf_at_975
          (conversions_at σ' l) (exposures_at σ' l) level_95 in
      (exposures_at σ' l = 0 ->
       interval = Raise (ValueError "Exposures must be positive")) /\
      (exposures_at σ' l <> 0 ->
       exists lower upper,
         interval = Ok (lower, upper) /\
         fle fzero lower = true /\ fle upper fone = true).
Proof.
  apply (intervals_after_traffic unit no_rng_next length_hash
           Traffic.every_tenth norm_ppf_at_975 demo_experiment 3
           (two_arms 0.5%float 0.5%float) level_95).
  - discriminate.
  - apply demo_allocated.
  - apply (bool_decide_unpack _). vm_compute. exact I.
  - intros l [<- | [<- | []]]; split; reflexivity.
  - reflexivity.
  - reflexivity.
Defined.

(** ** The loop of [test_multi_variant_experiment] *)

(** Among the visitors 0, ..., n - 1, every tenth converts: the number of
    conversions is n / 10 rounded up. *)
Lemma every_tenth_count (n : nat) :
  Z.of_nat (length (List.filter Traffic.every_tenth (map Z.of_nat (seq 0 n))))
  = (Z.of_nat n + 9) / 10.
Proof.
  induction n as [|n IH]; [reflexivity|].
  rewrite seq_S, map_app, List.filter_app, length_app, Nat2Z.inj_add, IH.
  cbn [map List.filter Nat.add]. unfold Traffic.every_tenth.
  destruct (Z.eqb_spec (Z.of_nat n mod 10) 0) as [E | E]; cbn [length];
    rewrite (Nat2Z.inj_succ n); pose proof (Nat2Z.is_nonneg n) as Hn;
    revert E; generalize (Z.of_nat n) Hn; clear; intros z Hz E;
    (Z.to_euclidean_division_equations; lia).
Qed.

(** X24. The loop of [test_multi_variant_experiment], which records a
    conversion for every tenth visitor: on variants with pairwise distinct
    names, after [n] visitors the exposures have grown by [n] in total and
    the conversions by [n / 10] rounded up (1000 and 100 for the 1000
    visitors of the test), whatever the hash and the weights. *)
Theorem multi_variant_traffic :
  forall (F : Type) (N : PyNum F) (Rng : Type)
         (next_random : Rng -> F * Rng) (hash : string -> Z)
         (self : Experiment.t Rng) (n : nat) (σ : Store F),
    Experiment.variants self <> [] ->
    allocated σ (Experiment.variants self) ->
    NoDup (map (name_at σ) (Experiment.variants self)) ->
    let vs := Experiment.variants self in
    exists self' σ',
      Traffic.simulate next_random hash Traffic.every_tenth self n σ
        = (Ok self', σ') /\
      total_exposures σ' vs = total_exposures σ vs + Z.of_nat n /\
      total_conversions σ' vs
        = total_conversions σ vs + (Z.of_nat n + 9) / 10.
Proof.
  intros F N Rng next_random hash self n σ Hne Halloc Hnames vs.
  destruct (visits_counts next_random hash Traffic.every_tenth
              (map Z.of_nat (seq 0 n)) self σ Hne Halloc Hnames)
    as (self' & σ' & Hrun & _ & _ & _ & _ & Hexp & Hconv & _).
  rewrite length_map, length_seq in Hexp. rewrite every_tenth_count in Hconv.
  exists self', σ'. split; [exact Hrun|]. split; [exact Hexp|].
  exact Hconv.
Qed.

Lemma multi_variant_traffic_witness :
  exists self' σ',
    Traffic.simulate no_rng_next length_hash Traffic.every_tenth
      demo_experiment 1000 (two_arms 0.5%float 0.5%float) = (Ok self', σ') /\
    total_exposures σ' [0%nat; 1%nat]
      = total_exposures (two_arms 0.5%float 0.5%float) [0%nat; 1%nat]
        + Z.of_nat 1000 /\
    total_conversions σ' [0%nat; 1%nat]
      = total_conversions (two_arms 0.5%float 0.5%float) [0%nat; 1%nat]
        + (Z.of_nat 1000 + 9) / 10.
Proof.
  apply (multi_variant_traffic float binary64 unit no_rng_next length_hash
           demo_experiment 1000 (two_arms 0.5%float 0.5%float)).
  - discriminate.
  - apply demo_allocated.
  - apply (bool_decide_unpack _). vm_compute. exact I.
Defined.

